(** * filemanager: [extract_file_components] and [search_files]

    A shallow embedding of the two entry points of the [filemanager]
    package ([src/filemanager/extract_file_components.py] and
    [src/filemanager/search_files.py]) together with the pieces of the
    Python host they call: [str] methods, [posixpath], [re.match] and
    [os.walk] over a directory tree.

    Conventions.
    - A Python [str] is a [string] whose characters are the code
      points below 256; a Python object that reaches a parameter is a
      [pyval].  A sequence object follows the protocol of its class:
      iterating it gives its items, [len] counts them, and it is true
      when it has items.
    - Objects are handed over by reference.  The one object the
      program changes is the one bound to [include_directory]; a call
      tells which other parameters were given that very object.
    - The regular expressions are those of the engine of the host,
      whatever it is: the development is about every engine, and the
      scenarios run on an engine for a fragment of the pattern syntax.
    - The host is POSIX: the separator is [/], paths are handled by
      [posixpath].
    - A computation is a pair of the events it performed (filesystem
      accesses and calls of the custom predicates, in order) and either
      a value or the exception that ended it. *)

From Stdlib Require Import String Ascii List ZArith Bool Arith Lia.
Import ListNotations.
Open Scope string_scope.
Open Scope list_scope.
Open Scope nat_scope.

Set Implicit Arguments.
Set Warnings "-register-all".

(* ================================================================== *)
(** * Exceptions and results *)

(** The exceptions that can leave the two functions.  [ReError] is
    what comes out of the [re] module when it is given two strings:
    [re.error] for a pattern it refuses, or what it raises while it
    compiles one ([RecursionError], [OverflowError], [ValueError]);
    never a type error.  [OtherError] stands for the classes the
    package and its host never raise themselves; a caller-supplied
    predicate can raise any of them. *)
Inductive exn : Type :=
| TypeError (msg : string)
| FileNotFoundError (directory : string)
| AttributeError (msg : string)
| ReError (what : string)
| OtherError (what : string).

Inductive result (A : Type) : Type :=
| Ok (a : A)
| Err (e : exn).
Arguments Ok {A} a.
Arguments Err {A} e.

(* ================================================================== *)
(** * Python values and [str] methods *)

Module Py.

(** What [obj.append(x)] does, for a string [x], in a class of
    sequences: the class has no such method ([tuple], [range]), the
    method refuses a string ([bytearray], [array.array]: a type error),
    or it puts [x] at the end ([list], [collections.deque],
    [collections.UserList]). *)
Inductive append_method : Type :=
| NoAppend
| AppendRaises (e : exn)
| AppendAdds.

(** The objects a caller can hand to a parameter.  [PyBytes] is a
    [Sequence] whose items are integers; [PySet] is a container that is
    not a [Sequence]; [PySeq] is an instance of any other class of
    [Sequence] ([bytearray], [range], [deque], a class of the caller),
    given by what its [append] does and by its items. *)
Inductive pyval : Type :=
| PyNone
| PyBool (b : bool)
| PyInt (z : Z)
| PyStr (s : string)
| PyBytes (bs : list Z)
| PyList (l : list pyval)
| PyTuple (l : list pyval)
| PySet (l : list pyval)
| PySeq (append : append_method) (l : list pyval).

(** [isinstance(v, str)] *)
Definition isinstance_str (v : pyval) : bool :=
  match v with PyStr _ => true | _ => false end.

(** [isinstance(v, Sequence)] *)
Definition isinstance_Sequence (v : pyval) : bool :=
  match v with
  | PyStr _ | PyBytes _ | PyList _ | PyTuple _ | PySeq _ _ => true
  | _ => false
  end.

(** The one-character strings of a [str], as iteration yields them. *)
Fixpoint chars (s : string) : list pyval :=
  match s with
  | EmptyString => []
  | String c t => PyStr (String c EmptyString) :: chars t
  end.

(** The items [for element in v] yields. *)
Definition items (v : pyval) : list pyval :=
  match v with
  | PyStr s => chars s
  | PyBytes bs => map PyInt bs
  | PyList l | PyTuple l | PySet l | PySeq _ l => l
  | _ => []
  end.

(** [len(v)] of a sized object. *)
Definition len (v : pyval) : nat := List.length (items v).

(** The strings among the items: what the loops over a parameter that
    passed the check see. *)
Fixpoint strs (l : list pyval) : list string :=
  match l with
  | [] => []
  | PyStr s :: t => s :: strs t
  | _ :: t => strs t
  end.

Definition str_items (v : pyval) : list string := strs (items v).

(** [v.append]: looking the method up fails when the class has none;
    the method, given [x], raises or changes the object in place, and
    then the answer is the object as it is afterwards. *)
Definition getattr_append (v : pyval) : result (pyval -> result pyval) :=
  match v with
  | PyList l => Ok (fun x => Ok (PyList (l ++ [x])))
  | PySeq AppendAdds l => Ok (fun x => Ok (PySeq AppendAdds (l ++ [x])))
  | PySeq (AppendRaises e) _ => Ok (fun _ => Err e)
  | PyTuple _ => Err (AttributeError "'tuple' object has no attribute 'append'")
  | PyBytes _ => Err (AttributeError "'bytes' object has no attribute 'append'")
  | _ => Err (AttributeError "object has no attribute 'append'")
  end.

(** Truth value of a list: [not l] is [negb (truthy l)]. *)
Definition truthy {A : Type} (l : list A) : bool :=
  match l with [] => false | _ :: _ => true end.

(** [any(f(x) for x in l)] for a test that cannot raise. *)
Definition any {A : Type} (f : A -> bool) (l : list A) : bool := existsb f l.

(** [s.startswith(p)] *)
Definition startswith (s p : string) : bool := String.prefix p s.

(** [s.endswith(p)] *)
Fixpoint endswith (s p : string) : bool :=
  String.eqb s p ||
  match s with
  | EmptyString => false
  | String _ t => endswith t p
  end.

(** [sub in s] *)
Fixpoint str_in (sub s : string) : bool :=
  String.prefix sub s ||
  match s with
  | EmptyString => false
  | String _ t => str_in sub t
  end.

(** [s.rfind(c)] for a one-character [c]: the last index of [c], or -1. *)
Fixpoint rfind (c : ascii) (s : string) : Z :=
  match s with
  | EmptyString => (-1)%Z
  | String a t =>
      let r := rfind c t in
      if (0 <=? r)%Z then (r + 1)%Z
      else if Ascii.eqb a c then 0%Z else (-1)%Z
  end.

(** [s[:i]] and [s[i:]] for [0 <= i]. *)
Definition slice_to (i : Z) (s : string) : string :=
  substring 0 (Z.to_nat i) s.

Definition slice_from (i : Z) (s : string) : string :=
  substring (Z.to_nat i) (String.length s - Z.to_nat i) s.

(** [s[i:j]] for [0 <= i <= j]. *)
Definition slice (i j : Z) (s : string) : string :=
  substring (Z.to_nat i) (Z.to_nat j - Z.to_nat i) s.

(** [s.rstrip(c)] for a one-character [c]. *)
Fixpoint rstrip (c : ascii) (s : string) : string :=
  match s with
  | EmptyString => EmptyString
  | String a t =>
      match rstrip c t with
      | EmptyString => if Ascii.eqb a c then EmptyString else String a EmptyString
      | r => String a r
      end
  end.

(** [s == c * len(s)] for a one-character [c]. *)
Fixpoint all_char (c : ascii) (s : string) : bool :=
  match s with
  | EmptyString => true
  | String a t => Ascii.eqb a c && all_char c t
  end.

End Py.
Import Py.

(* ================================================================== *)
(** * [posixpath] *)

Module PosixPath.

Definition sep : ascii := "/"%char.
Definition extsep : ascii := "."%char.

(** [posixpath.split]:
<<
    i = p.rfind(sep) + 1
    head, tail = p[:i], p[i:]
    if head and head != sep*len(head):
        head = head.rstrip(sep)
    return head, tail
>> *)
Definition split (p : string) : string * string :=
  let i := (rfind sep p + 1)%Z in
  let head := slice_to i p in
  let tail := slice_from i p in
  let head :=
    if negb (String.eqb head "") && negb (all_char sep head)
    then rstrip sep head else head in
  (head, tail).

(** Does some character of [s] differ from [c]? *)
Fixpoint has_other (c : ascii) (s : string) : bool :=
  match s with
  | EmptyString => false
  | String a t => negb (Ascii.eqb a c) || has_other c t
  end.

(** [posixpath.splitext], that is [genericpath._splitext(p, sep, None, extsep)]:
<<
    sepIndex = p.rfind(sep)
    dotIndex = p.rfind(extsep)
    if dotIndex > sepIndex:
        # skip all leading dots
        filenameIndex = sepIndex + 1
        while filenameIndex < dotIndex:
            if p[filenameIndex:filenameIndex+1] != extsep:
                return p[:dotIndex], p[dotIndex:]
            filenameIndex += 1
    return p, p[:0]
>>
    The loop returns at the first character of [p[sepIndex+1:dotIndex]]
    that is not a dot, and falls through when there is none. *)
Definition splitext (p : string) : string * string :=
  let sepIndex := rfind sep p in
  let dotIndex := rfind extsep p in
  if (sepIndex <? dotIndex)%Z then
    if has_other extsep (slice (sepIndex + 1) dotIndex p)
    then (slice_to dotIndex p, slice_from dotIndex p)
    else (p, "")
  else (p, "").

(** [posixpath.join(a, b)]:
<<
    if b.startswith(sep): path = b
    elif not path or path.endswith(sep): path += b
    else: path += sep + b
>> *)
Definition join (a b : string) : string :=
  if startswith b "/" then b
  else if String.eqb a "" || endswith a "/" then a ++ b
  else a ++ "/" ++ b.

(** [posixpath.isabs] *)
Definition isabs (p : string) : bool := startswith p "/".

(** Runs of separators collapsed to one separator. *)
Fixpoint squeeze (p : string) : string :=
  match p with
  | EmptyString => EmptyString
  | String a t =>
      match t with
      | String b _ =>
          if Ascii.eqb a sep && Ascii.eqb b sep then squeeze t
          else String a (squeeze t)
      | EmptyString => String a EmptyString
      end
  end.

(** The separators that begin a path kept as they are, and the runs
    of separators after them collapsed to one separator. *)
Fixpoint normal (p : string) : string :=
  match p with
  | EmptyString => EmptyString
  | String a t => if Ascii.eqb a sep then String a (normal t) else squeeze p
  end.

(** Two paths with the same normal form name the same file. *)
Definition equiv (p q : string) : Prop := normal p = normal q.

End PosixPath.

(* ================================================================== *)
(** * [extract_file_components] *)

Definition extract_file_components (filepath : pyval)
  : result (string * string * string) :=
  match filepath with
  | PyStr p =>
      let '(path, filename_with_ext) := PosixPath.split p in
      let '(filename, extension) := PosixPath.splitext filename_with_ext in
      Ok (path, filename, extension)
  | _ => Err (TypeError "Parameter filepath is not string.")
  end.

(* ================================================================== *)
(** * [re]: the engine of the host, and an engine for a fragment of
    the pattern syntax *)

Module Re.

(** ** The module as the program sees it *)

(** What the engine does with a pattern and a subject, both strings.
    It raises ([what] tells the exception), or it finds, for each
    position of the subject, the positions where a match of the
    pattern that starts there can end. *)
Inductive verdict : Type :=
| Refuses (what : string)
| Finds (stops : nat -> list nat).

Definition engine : Type := string -> string -> verdict.

(** [re.match(pattern, subject)] as a truth value: there is a match
    that starts at position 0. *)
Definition re_match (e : engine) (pattern subject : string) : result bool :=
  match e pattern subject with
  | Finds stops => Ok (truthy (stops 0))
  | Refuses what => Err (ReError what)
  end.

(** [re.fullmatch]: a match that starts at position 0 and ends at the
    end of the subject.  [re.search]: a match that starts anywhere. *)
Definition re_fullmatch (e : engine) (pattern subject : string)
  : result bool :=
  match e pattern subject with
  | Finds stops => Ok (existsb (Nat.eqb (String.length subject)) (stops 0))
  | Refuses what => Err (ReError what)
  end.

Definition re_search (e : engine) (pattern subject : string) : result bool :=
  match e pattern subject with
  | Finds stops =>
      Ok (existsb (fun i => truthy (stops i))
                  (seq 0 (S (String.length subject))))
  | Refuses what => Err (ReError what)
  end.

(** ** An engine for a fragment of the syntax

    Literals, [.], [^], [$], the classes [\d \w \s] and their
    negations, escaped punctuation, groups, [|], and the repeats
    [* + ?].  On a pattern of the fragment it answers as CPython's
    engine does; it refuses every other pattern, also those CPython
    accepts.  The scenarios run on it. *)

(** Sets of characters a pattern item accepts. *)
Inductive charclass : Type :=
| CChar (c : ascii)
| CAny
| CDigit
| CWord
| CSpace
| CNot (cc : charclass).

Definition in_range (lo hi : nat) (c : ascii) : bool :=
  (lo <=? nat_of_ascii c) && (nat_of_ascii c <=? hi).

Definition in_ranges (l : list (nat * nat)) (c : ascii) : bool :=
  existsb (fun r => in_range (fst r) (snd r) c) l.

(** The code points below 256 that [\w] and [\s] accept in a [str]
    pattern. *)
Definition word_ranges : list (nat * nat) :=
  [(48, 57); (65, 90); (95, 95); (97, 122); (170, 170); (178, 179);
   (181, 181); (185, 186); (188, 190); (192, 214); (216, 246); (248, 255)].

Definition space_ranges : list (nat * nat) :=
  [(9, 13); (28, 32); (133, 133); (160, 160)].

Fixpoint cc_test (cc : charclass) (c : ascii) : bool :=
  match cc with
  | CChar a => Ascii.eqb a c
  | CAny => negb (nat_of_ascii c =? 10)
  | CDigit => in_range 48 57 c
  | CWord => in_ranges word_ranges c
  | CSpace => in_ranges space_ranges c
  | CNot d => negb (cc_test d c)
  end.

(** Patterns after parsing.  [Bol] is [^], [Eol] is [$]. *)
Inductive regex : Type :=
| Eps
| Sym (cc : charclass)
| Bol
| Eol
| Cat (r1 r2 : regex)
| Alt (r1 r2 : regex)
| Star (r : regex)
| Plus (r : regex)
| Opt (r : regex).

(** ** Parsing

    The fragment: literal characters, [.], [^], [$], the escapes
    [\d \D \w \W \s \S], a backslash before a punctuation character,
    groups [( )], alternation [|] and the greedy repeats [* + ?].
    Everything else ([[ ]] classes, [{m,n}], [(?...)], lazy repeats,
    other escapes) is outside the fragment: [parse] answers [None]
    for it as it does for a malformed pattern. *)

Definition is_alnum (c : ascii) : bool :=
  in_range 48 57 c || in_range 65 90 c || in_range 97 122 c.

Definition is_repeat (c : ascii) : bool :=
  Ascii.eqb c "*" || Ascii.eqb c "+" || Ascii.eqb c "?".

Definition parse_escape (c : ascii) : option regex :=
  if Ascii.eqb c "d" then Some (Sym CDigit)
  else if Ascii.eqb c "D" then Some (Sym (CNot CDigit))
  else if Ascii.eqb c "w" then Some (Sym CWord)
  else if Ascii.eqb c "W" then Some (Sym (CNot CWord))
  else if Ascii.eqb c "s" then Some (Sym CSpace)
  else if Ascii.eqb c "S" then Some (Sym (CNot CSpace))
  else if is_alnum c then None
  else Some (Sym (CChar c)).

(** The repeat after an item, if any.  An anchor cannot be repeated
    and a repeat cannot follow a repeat. *)
Definition parse_repeat (a : regex) (s : string) : option (regex * string) :=
  match s with
  | String q rest =>
      if is_repeat q then
        match a with
        | Bol | Eol => None
        | _ =>
            match rest with
            | String q' _ => if is_repeat q' then None else
                Some (if Ascii.eqb q "*" then Star a
                      else if Ascii.eqb q "+" then Plus a else Opt a, rest)
            | EmptyString =>
                Some (if Ascii.eqb q "*" then Star a
                      else if Ascii.eqb q "+" then Plus a else Opt a, rest)
            end
        end
      else Some (a, s)
  | EmptyString => Some (a, s)
  end.

Fixpoint parse_alt (fuel : nat) (s : string) : option (regex * string) :=
  match fuel with
  | O => None
  | S f =>
      match parse_seq f s with
      | Some (r, String c rest) =>
          if Ascii.eqb c "|" then
            match parse_alt f rest with
            | Some (r', rest') => Some (Alt r r', rest')
            | None => None
            end
          else Some (r, String c rest)
      | other => other
      end
  end
with parse_seq (fuel : nat) (s : string) : option (regex * string) :=
  match fuel with
  | O => None
  | S f =>
      match s with
      | EmptyString => Some (Eps, s)
      | String c _ =>
          if Ascii.eqb c "|" || Ascii.eqb c ")" then Some (Eps, s)
          else
            match parse_atom f s with
            | Some (a, rest) =>
                match parse_repeat a rest with
                | Some (item, rest') =>
                    match parse_seq f rest' with
                    | Some (r, rest'') => Some (Cat item r, rest'')
                    | None => None
                    end
                | None => None
                end
            | None => None
            end
      end
  end
with parse_atom (fuel : nat) (s : string) : option (regex * string) :=
  match fuel with
  | O => None
  | S f =>
      match s with
      | EmptyString => None
      | String c rest =>
          if Ascii.eqb c "(" then
            match rest with
            | String c' _ =>
                if Ascii.eqb c' "?" then None
                else
                  match parse_alt f rest with
                  | Some (r, String d rest') =>
                      if Ascii.eqb d ")" then Some (r, rest') else None
                  | _ => None
                  end
            | EmptyString => None
            end
          else if Ascii.eqb c "." then Some (Sym CAny, rest)
          else if Ascii.eqb c "^" then Some (Bol, rest)
          else if Ascii.eqb c "$" then Some (Eol, rest)
          else if Ascii.eqb c "\" then
            match rest with
            | String e rest' =>
                match parse_escape e with
                | Some r => Some (r, rest')
                | None => None
                end
            | EmptyString => None
            end
          else if is_repeat c || Ascii.eqb c "[" || Ascii.eqb c "{" then None
          else Some (Sym (CChar c), rest)
      end
  end.

Definition parse (pattern : string) : option regex :=
  match parse_alt (3 * String.length pattern + 3) pattern with
  | Some (r, EmptyString) => Some r
  | _ => None
  end.

(** With at least the fuel [parse] gives, the three parsers
    answer what they answer with exactly that fuel. *)
Definition stable (s : string) : Prop :=
  (forall f, 3 * String.length s + 1 <= f ->
     parse_atom f s = parse_atom (3 * String.length s + 1) s) /\
  (forall f, 3 * String.length s + 2 <= f ->
     parse_seq f s = parse_seq (3 * String.length s + 2) s) /\
  (forall f, 3 * String.length s + 3 <= f ->
     parse_alt f s = parse_alt (3 * String.length s + 3) s).

(** ** Matching *)

(** [$] holds at the end of the subject and just before a final newline. *)
Definition at_end (s : string) (i : nat) : bool :=
  (i =? String.length s) ||
  ((S i =? String.length s) &&
   match String.get i s with
   | Some c => nat_of_ascii c =? 10
   | None => false
   end).

(** [rmatch s r i j]: pattern [r] matches the subject [s] from
    position [i] up to position [j]. *)
Inductive rmatch (s : string) : regex -> nat -> nat -> Prop :=
| MEps i : i <= String.length s -> rmatch s Eps i i
| MSym cc i c :
    String.get i s = Some c -> cc_test cc c = true ->
    rmatch s (Sym cc) i (S i)
| MBol : rmatch s Bol 0 0
| MEol i : at_end s i = true -> rmatch s Eol i i
| MCat r1 r2 i j k :
    rmatch s r1 i j -> rmatch s r2 j k -> rmatch s (Cat r1 r2) i k
| MAltL r1 r2 i j : rmatch s r1 i j -> rmatch s (Alt r1 r2) i j
| MAltR r1 r2 i j : rmatch s r2 i j -> rmatch s (Alt r1 r2) i j
| MStar0 r i : i <= String.length s -> rmatch s (Star r) i i
| MStarS r i j k :
    rmatch s r i j -> rmatch s (Star r) j k -> rmatch s (Star r) i k
| MPlus r i j k :
    rmatch s r i j -> rmatch s (Star r) j k -> rmatch s (Plus r) i k
| MOpt0 r i : i <= String.length s -> rmatch s (Opt r) i i
| MOptS r i j : rmatch s r i j -> rmatch s (Opt r) i j.

(** End positions of zero or more rounds of [step], each round moving
    forward (a round that stays in place adds no end position);
    [fuel] bounds the number of rounds. *)
Fixpoint star_ends (step : nat -> list nat) (fuel : nat) (i : nat)
  : list nat :=
  i :: match fuel with
       | O => []
       | S f =>
           flat_map (fun j => if i <? j then star_ends step f j else [])
                    (step i)
       end.

(** All positions where a match of [r] starting at [i] can end. *)
Fixpoint ends (r : regex) (s : string) (i : nat) : list nat :=
  match r with
  | Eps => [i]
  | Sym cc =>
      match String.get i s with
      | Some c => if cc_test cc c then [S i] else []
      | None => []
      end
  | Bol => if i =? 0 then [i] else []
  | Eol => if at_end s i then [i] else []
  | Cat r1 r2 => flat_map (ends r2 s) (ends r1 s i)
  | Alt r1 r2 => ends r1 s i ++ ends r2 s i
  | Star r1 => star_ends (ends r1 s) (String.length s - i) i
  | Plus r1 =>
      flat_map (fun j => star_ends (ends r1 s) (String.length s - j) j)
               (ends r1 s i)
  | Opt r1 => i :: ends r1 s i
  end.

(** The engine of the fragment. *)
Definition fragment : engine :=
  fun pattern subject =>
    match parse pattern with
    | Some r => Finds (ends r subject)
    | None => Refuses pattern
    end.

End Re.

(* ================================================================== *)
(** * The filesystem and [os.walk] *)

Module Fs.

(** A directory entry: a regular file or a directory with its entries
    in the order [os.scandir] lists them.  There are no symbolic links. *)
Inductive node : Type :=
| File (name : string)
| Dir (name : string) (children : list node).

(** The host: the entries of [/] and the working directory, given by
    the names on the way from [/] to it. *)
Record host : Type := {
  root_entries : list node;
  cwd_names : list string
}.

(** The pieces of a path between separators; [a//b/] has the pieces
    [a], the empty string, [b] and the empty string. *)
Fixpoint pieces (p : string) : list string :=
  match p with
  | EmptyString => [EmptyString]
  | String c t =>
      if Ascii.eqb c PosixPath.sep then EmptyString :: pieces t
      else match pieces t with
           | h :: r => String c h :: r
           | [] => [String c EmptyString]
           end
  end.

Fixpoint find_dir (name : string) (entries : list node)
  : option (list node) :=
  match entries with
  | [] => None
  | Dir n c :: t => if String.eqb n name then Some c else find_dir name t
  | File n :: t => if String.eqb n name then None else find_dir name t
  end.

(** One step of path resolution.  The state is the directory reached
    and its ancestors up to [/], innermost first. *)
Definition enter (stack : list (list node)) (name : string)
  : option (list (list node)) :=
  if String.eqb name "" || String.eqb name "." then Some stack
  else if String.eqb name ".." then
    match stack with
    | _ :: (_ :: _) as up => Some up
    | _ => Some stack
    end
  else
    match stack with
    | cur :: _ =>
        match find_dir name cur with
        | Some c => Some (c :: stack)
        | None => None
        end
    | [] => None
    end.

Fixpoint enter_all (stack : list (list node)) (names : list string)
  : option (list (list node)) :=
  match names with
  | [] => Some stack
  | n :: t =>
      match enter stack n with
      | Some stack' => enter_all stack' t
      | None => None
      end
  end.

(** The entries of the directory a path names, if it names one.  The
    empty path names nothing. *)
Definition lookup_dir (h : host) (path : string) : option (list node) :=
  if String.eqb path "" then None
  else
    let start :=
      if PosixPath.isabs path then Some [root_entries h]
      else enter_all [root_entries h] (cwd_names h) in
    match start with
    | Some stack =>
        match enter_all stack (pieces path) with
        | Some (cur :: _) => Some cur
        | _ => None
        end
    | None => None
    end.

(** [os.getcwd()] *)
Definition getcwd (h : host) : string :=
  match cwd_names h with
  | [] => "/"
  | names => String.concat "" (map (fun n => "/" ++ n)%string names)
  end.

(** [os.path.isdir(path)] *)
Definition isdir (h : host) (path : string) : bool :=
  match lookup_dir h path with Some _ => true | None => false end.

Fixpoint dirnames (entries : list node) : list string :=
  match entries with
  | [] => []
  | Dir n _ :: t => n :: dirnames t
  | File _ :: t => dirnames t
  end.

Fixpoint filenames (entries : list node) : list string :=
  match entries with
  | [] => []
  | File n :: t => n :: filenames t
  | Dir _ _ :: t => filenames t
  end.

(** The triples [(root, dirs, files)] of a top-down walk that visits
    the directory [x] under the path [top]: the directory itself, then
    the walk of each sub-directory under the path [join(top, name)]. *)
Fixpoint walk_node (top : string) (x : node) {struct x}
  : list (string * list string * list string) :=
  match x with
  | File _ => []
  | Dir _ entries =>
      (top, dirnames entries, filenames entries) ::
      (fix below (l : list node) : list (string * list string * list string) :=
         match l with
         | [] => []
         | y :: t =>
             match y with
             | File _ => []
             | Dir n _ => walk_node (PosixPath.join top n) y
             end ++ below t
         end) entries
  end.

(** The walk that starts in a directory with the given entries. *)
Definition walk (top : string) (entries : list node)
  : list (string * list string * list string) :=
  walk_node top (Dir top entries).

(** [os.walk(top)]: nothing when [top] cannot be listed. *)
Definition os_walk (h : host) (top : string)
  : list (string * list string * list string) :=
  match lookup_dir h top with
  | Some entries => walk top entries
  | None => []
  end.

(** Names a real directory entry can have: not empty, no separator. *)
Definition good_name (n : string) : bool :=
  negb (String.eqb n "") && negb (str_in "/" n).

Fixpoint good_node (x : node) : bool :=
  match x with
  | File n => good_name n
  | Dir n c => good_name n && forallb good_node c
  end.

Definition good_entries (l : list node) : bool := forallb good_node l.

Definition good_host (h : host) : bool := good_entries (root_entries h).

(** [visits top entries r below]: the walk that starts in the
    directory [top] with the given entries reaches a directory under
    the path [r], and [below] are its entries. *)
Inductive visits : string -> list node -> string -> list node -> Prop :=
| visits_here top entries : visits top entries top entries
| visits_below top entries n c r below :
    In (Dir n c) entries ->
    visits (PosixPath.join top n) c r below ->
    visits top entries r below.

(** Induction on a tree, with the hypothesis for every entry of a
    directory. *)
Fixpoint node_induction (P : node -> Prop)
  (HF : forall n, P (File n))
  (HD : forall n c, Forall P c -> P (Dir n c)) (x : node) : P x :=
  match x with
  | File n => HF n
  | Dir n c =>
      HD n c
        ((fix all (l : list node) : Forall P l :=
            match l with
            | [] => Forall_nil P
            | y :: t => Forall_cons y (node_induction HF HD y) (all t)
            end) c)
  end.

End Fs.

(* ================================================================== *)
(** * Computations: a log of events and a result *)

Inductive which_filter : Type := Include | Exclude.

(** What a run does to the outside: filesystem accesses and calls of
    the caller's predicates. *)
Inductive event : Type :=
| EvGetcwd
| EvIsdir (path : string)
| EvScandir (path : string)
| EvCall (which : which_filter) (filepath : string).

Definition M (A : Type) : Type := list event * result A.

Definition ret {A : Type} (a : A) : M A := ([], Ok a).

Definition raise {A : Type} (e : exn) : M A := ([], Err e).

Definition tell (ev : event) : M unit := ([ev], Ok tt).

Definition lift {A : Type} (r : result A) : M A := ([], r).

Definition bind {A B : Type} (m : M A) (k : A -> M B) : M B :=
  match m with
  | (log, Ok a) => let (log', r) := k a in (log ++ log', r)
  | (log, Err e) => (log, Err e)
  end.

Declare Scope comp_scope.
Delimit Scope comp_scope with comp.
Notation "x <- m ;; k" := (bind m (fun x => k))
  (at level 61, m at next level, right associativity) : comp_scope.
Notation "m ;;; k" := (bind m (fun _ => k))
  (at level 61, right associativity) : comp_scope.
Open Scope comp_scope.

Definition events {A : Type} (m : M A) : list event := fst m.
Definition outcome {A : Type} (m : M A) : result A := snd m.

(** The listing of the directories of a walk, with nothing done in
    any of them. *)
Definition pass (entries : list (string * list string * list string))
  : M unit :=
  (map (fun t => EvScandir (fst (fst t))) entries, Ok tt).

(** [a and b] on truth values, [b] evaluated only when [a] is true. *)
Definition and_then (a b : M bool) : M bool :=
  x <- a ;; if x then b else ret false.

(** [a or b] on truth values, [b] evaluated only when [a] is false. *)
Definition or_else (a b : M bool) : M bool :=
  x <- a ;; if x then ret true else b.

Notation "a <&&> b" := (and_then a b)
  (at level 41, right associativity) : comp_scope.
Notation "a <||> b" := (or_else a b)
  (at level 51, right associativity) : comp_scope.

(** [any(f(x) for x in l)] when [f] can raise: stops at the first
    true answer and at the first exception. *)
Fixpoint any_m {A : Type} (f : A -> M bool) (l : list A) : M bool :=
  match l with
  | [] => ret false
  | x :: t => f x <||> any_m f t
  end.

(* ================================================================== *)
(** * [search_files] *)

Section Search.

(** The [re] module of the host. *)
Variable re : Re.engine.

(** A caller's predicate: called on a path it returns a value, taken
    for its truth value, or raises.  An object that cannot be called
    is a predicate that raises a type error at every call. *)
Inductive answer : Type :=
| Returns (b : bool)
| Raises (e : exn).

Definition predicate : Type := string -> answer.

(** The parameters of the check other than [include_directory]. *)
Inductive parameter : Type :=
| Include_pattern
| Include_start
| Include_content
| Include_end
| Include_extension
| Exclude_subdirectory
| Exclude_pattern
| Exclude_start
| Exclude_content
| Exclude_end
| Exclude_extension.

(** The keyword arguments, [None] standing for an omitted one.  Each
    field holds the value the argument has when the call is made.
    [same_object] lists the parameters that were given the very object
    [include_directory] was given, as [exclude_subdirectory] in
    [search_files(include_directory=l, exclude_subdirectory=l)], whose
    fields then hold the same value; it is empty for a call that gives
    every parameter an object of its own. *)
Record arguments : Type := {
  include_directory : pyval;
  include_pattern : pyval;
  include_start : pyval;
  include_content : pyval;
  include_end : pyval;
  include_extension : pyval;
  include_filter : option predicate;
  exclude_subdirectory : pyval;
  exclude_pattern : pyval;
  exclude_start : pyval;
  exclude_content : pyval;
  exclude_end : pyval;
  exclude_extension : pyval;
  exclude_filter : option predicate;
  same_object : list parameter
}.

Definition argument (a : arguments) (p : parameter) : pyval :=
  match p with
  | Include_pattern => include_pattern a
  | Include_start => include_start a
  | Include_content => include_content a
  | Include_end => include_end a
  | Include_extension => include_extension a
  | Exclude_subdirectory => exclude_subdirectory a
  | Exclude_pattern => exclude_pattern a
  | Exclude_start => exclude_start a
  | Exclude_content => exclude_content a
  | Exclude_end => exclude_end a
  | Exclude_extension => exclude_extension a
  end.

Definition parameter_eqb (p q : parameter) : bool :=
  match p, q with
  | Include_pattern, Include_pattern
  | Include_start, Include_start
  | Include_content, Include_content
  | Include_end, Include_end
  | Include_extension, Include_extension
  | Exclude_subdirectory, Exclude_subdirectory
  | Exclude_pattern, Exclude_pattern
  | Exclude_start, Exclude_start
  | Exclude_content, Exclude_content
  | Exclude_end, Exclude_end
  | Exclude_extension, Exclude_extension => true
  | _, _ => false
  end.

(** The parameter [p] was given the object of [include_directory]. *)
Definition shares (a : arguments) (p : parameter) : bool :=
  existsb (parameter_eqb p) (same_object a).

Definition check_type_union (obj : pyval) : bool :=
  match obj with
  | PyNone => true
  | PyStr _ => true
  | _ =>
      if isinstance_Sequence obj
      then forallb isinstance_str (items obj)
      else false
  end.

(** [None] and a string give a new list; any other object is
    returned itself, not a copy of it. *)
Definition data_to_list (obj : pyval) : pyval :=
  match obj with
  | PyNone => PyList []
  | PyStr _ => PyList [obj]
  | _ => obj
  end.

(** [data_to_list(obj) is obj] *)
Definition returned_itself (obj : pyval) : bool :=
  match obj with
  | PyNone | PyStr _ => false
  | _ => true
  end.

(** The object the local variable of the parameter [p] is bound to
    after the conversion, when [include_directory] is bound to the
    object [directories]: that very object when the caller gave both
    parameters one object and the conversion returned it, and else the
    conversion of the argument of [p]. *)
Definition variable (a : arguments) (directories : pyval) (p : parameter)
  : pyval :=
  if shares a p && returned_itself (include_directory a) then directories
  else data_to_list (argument a p).

(** Calling a predicate is an event; what it raises is not caught. *)
Definition call (w : which_filter) (f : predicate) (filepath : string)
  : M bool :=
  tell (EvCall w filepath) ;;;
  match f filepath with
  | Returns b => ret b
  | Raises e => raise e
  end.

Definition re_match_m (filename p : string) : M bool :=
  lift (Re.re_match re p filename).

Definition matches_criteria (filepath : string)
  (patterns starts contains ends exts : list string)
  (filter : option predicate) : M bool :=
  parts <- lift (extract_file_components (PyStr filepath)) ;;
  let '(path, filename, extension) := parts in
  ret (negb (truthy starts) || any (startswith filename) starts) <&&>
  ret (negb (truthy contains) || any (fun c => str_in c filename) contains) <&&>
  ret (negb (truthy ends) || any (endswith filename) ends) <&&>
  ret (negb (truthy exts) || any (String.eqb extension) exts) <&&>
  (ret (negb (truthy patterns)) <||> any_m (re_match_m filename) patterns) <&&>
  match filter with
  | None => ret true
  | Some f => call Include f filepath
  end.

Definition matches_exclusion_criteria (filepath : string)
  (patterns starts contains ends exts : list string)
  (filter : option predicate) : M bool :=
  parts <- lift (extract_file_components (PyStr filepath)) ;;
  let '(path, filename, extension) := parts in
  ret (truthy starts && any (startswith filename) starts) <||>
  ret (truthy contains && any (fun c => str_in c filename) contains) <||>
  ret (truthy ends && any (endswith filename) ends) <||>
  ret (truthy exts && any (String.eqb extension) exts) <||>
  (ret (truthy patterns) <&&> any_m (re_match_m filename) patterns) <||>
  match filter with
  | None => ret false
  | Some f => call Exclude f filepath
  end.

Definition wrong_type : exn := TypeError "A Parameter is of the wrong type.".

(** The parameters the check looks at, in its order. *)
Definition checked_parameters (a : arguments) : list pyval :=
  [include_directory a; include_pattern a; include_start a;
   include_content a; include_end a; include_extension a;
   exclude_subdirectory a; exclude_pattern a; exclude_start a;
   exclude_content a; exclude_end a; exclude_extension a].

Fixpoint check_parameters (params : list pyval) : M unit :=
  match params with
  | [] => ret tt
  | param :: t =>
      if negb (check_type_union param) then raise wrong_type
      else check_parameters t
  end.

Fixpoint check_directories (h : Fs.host) (dirs : list string) : M unit :=
  match dirs with
  | [] => ret tt
  | directory :: t =>
      tell (EvIsdir directory) ;;;
      if negb (Fs.isdir h directory) then raise (FileNotFoundError directory)
      else check_directories h t
  end.

(** The arguments after conversion, as the loops use them. *)
Record criteria : Type := {
  c_patterns : list string;
  c_starts : list string;
  c_contains : list string;
  c_ends : list string;
  c_exts : list string;
  c_filter : option predicate
}.

Definition included (inc : criteria) (filepath : string) : M bool :=
  matches_criteria filepath (c_patterns inc) (c_starts inc) (c_contains inc)
    (c_ends inc) (c_exts inc) (c_filter inc).

Definition excluded (exc : criteria) (filepath : string) : M bool :=
  matches_exclusion_criteria filepath (c_patterns exc) (c_starts exc)
    (c_contains exc) (c_ends exc) (c_exts exc) (c_filter exc).

(** [for file in files: ...] *)
Fixpoint scan_files (inc exc : criteria) (root : string)
  (files : list string) (list_filepaths : list string) : M (list string) :=
  match files with
  | [] => ret list_filepaths
  | file :: t =>
      let filepath := PosixPath.join root file in
      keep <- (included inc filepath <&&>
               (b <- excluded exc filepath ;; ret (negb b))) ;;
      scan_files inc exc root t
        (if keep then list_filepaths ++ [filepath] else list_filepaths)
  end.

(** The test that makes the walk loop [continue]. *)
Definition skipped (exclude_subdirectory : list string) (root : string)
  : bool :=
  truthy exclude_subdirectory &&
  any (fun excluded => str_in excluded root) exclude_subdirectory.

(** [for root, dirs, files in os.walk(directory): ...] *)
Fixpoint scan_walk (inc exc : criteria) (exclude_subdirectory : list string)
  (entries : list (string * list string * list string))
  (list_filepaths : list string) : M (list string) :=
  match entries with
  | [] => ret list_filepaths
  | (root, dirs, files) :: t =>
      tell (EvScandir root) ;;;
      if skipped exclude_subdirectory root
      then scan_walk inc exc exclude_subdirectory t list_filepaths
      else
        l <- scan_files inc exc root files list_filepaths ;;
        scan_walk inc exc exclude_subdirectory t l
  end.

(** [for directory in include_directory: ...] *)
Fixpoint scan_directories (h : Fs.host) (inc exc : criteria)
  (exclude_subdirectory : list string) (dirs : list string)
  (list_filepaths : list string) : M (list string) :=
  match dirs with
  | [] => ret list_filepaths
  | directory :: t =>
      l <- scan_walk inc exc exclude_subdirectory (Fs.os_walk h directory)
             list_filepaths ;;
      scan_directories h inc exc exclude_subdirectory t l
  end.

(** What the loops read in the local variables, when
    [include_directory] is bound to the object [directories]. *)
Definition inclusion_in (a : arguments) (directories : pyval) : criteria :=
  {| c_patterns := str_items (variable a directories Include_pattern);
     c_starts := str_items (variable a directories Include_start);
     c_contains := str_items (variable a directories Include_content);
     c_ends := str_items (variable a directories Include_end);
     c_exts := str_items (variable a directories Include_extension);
     c_filter := include_filter a |}.

Definition exclusion_in (a : arguments) (directories : pyval) : criteria :=
  {| c_patterns := str_items (variable a directories Exclude_pattern);
     c_starts := str_items (variable a directories Exclude_start);
     c_contains := str_items (variable a directories Exclude_content);
     c_ends := str_items (variable a directories Exclude_end);
     c_exts := str_items (variable a directories Exclude_extension);
     c_filter := exclude_filter a |}.

Definition fragments_in (a : arguments) (directories : pyval) : list string :=
  str_items (variable a directories Exclude_subdirectory).

(** The default of the root directories.
    [include_directory.append(os.getcwd())] looks the method up, then
    asks for the working directory, then calls the method, which
    changes the object in place: the answer is that object as it is
    afterwards, and every variable bound to it sees the change. *)
Definition default_directory (h : Fs.host) (include_directory : pyval)
  : M pyval :=
  if len include_directory =? 0 then
    append <- lift (getattr_append include_directory) ;;
    tell EvGetcwd ;;;
    lift (append (PyStr (Fs.getcwd h)))
  else ret include_directory.

Definition search_files (h : Fs.host) (a : arguments) : M (list string) :=
  check_parameters (checked_parameters a) ;;;
  let directories := data_to_list (include_directory a) in
  directories <- default_directory h directories ;;
  check_directories h (str_items directories) ;;;
  scan_directories h (inclusion_in a directories) (exclusion_in a directories)
    (fragments_in a directories) (str_items directories) [].

(** The object [include_directory] is bound to when the loops run:
    the converted argument, with the working directory at its end when
    it was empty and its [append] took it. *)
Definition directories (h : Fs.host) (a : arguments) : pyval :=
  let d := data_to_list (include_directory a) in
  if len d =? 0 then
    match getattr_append d with
    | Ok append =>
        match append (PyStr (Fs.getcwd h)) with
        | Ok d' => d'
        | Err _ => d
        end
    | Err _ => d
    end
  else d.

(** The criteria the loops apply: what the local variables hold when
    the loops run. *)
Definition inclusion (h : Fs.host) (a : arguments) : criteria :=
  inclusion_in a (directories h a).

Definition exclusion (h : Fs.host) (a : arguments) : criteria :=
  exclusion_in a (directories h a).

(** The strings each parameter was given, as the conversion alone
    makes them. *)
Definition given (a : arguments) (p : parameter) : list string :=
  str_items (data_to_list (argument a p)).

Definition given_inclusion (a : arguments) : criteria :=
  {| c_patterns := given a Include_pattern;
     c_starts := given a Include_start;
     c_contains := given a Include_content;
     c_ends := given a Include_end;
     c_exts := given a Include_extension;
     c_filter := include_filter a |}.

Definition given_exclusion (a : arguments) : criteria :=
  {| c_patterns := given a Exclude_pattern;
     c_starts := given a Exclude_start;
     c_contains := given a Exclude_content;
     c_ends := given a Exclude_end;
     c_exts := given a Exclude_extension;
     c_filter := exclude_filter a |}.

(** Every variable is bound to an object of its own: no parameter
    was given the object of [include_directory], or that object is
    [None] or a string, for which the conversion makes a new list. *)
Definition unshared (a : arguments) : Prop :=
  forall p, shares a p = true -> returned_itself (include_directory a) = false.

(** A call that passes [include_filter] and nothing else. *)
Definition filtered (filter : predicate) : arguments :=
  {| include_directory := PyNone; include_pattern := PyNone;
     include_start := PyNone; include_content := PyNone;
     include_end := PyNone; include_extension := PyNone;
     include_filter := Some filter;
     exclude_subdirectory := PyNone; exclude_pattern := PyNone;
     exclude_start := PyNone; exclude_content := PyNone;
     exclude_end := PyNone; exclude_extension := PyNone;
     exclude_filter := None; same_object := [] |}.

(** What calling the integer [5] as a predicate does. *)
Definition not_callable : predicate :=
  fun _ => Raises (TypeError "'int' object is not callable").

(** A call that passes the six arguments named and omits the others. *)
Definition request (directory pattern start extension subdirectory
  exclude_ending : pyval) : arguments :=
  {| include_directory := directory; include_pattern := pattern;
     include_start := start; include_content := PyNone;
     include_end := PyNone; include_extension := extension;
     include_filter := None;
     exclude_subdirectory := subdirectory; exclude_pattern := PyNone;
     exclude_start := PyNone; exclude_content := PyNone;
     exclude_end := exclude_ending; exclude_extension := PyNone;
     exclude_filter := None; same_object := [] |}.

(** The call of the third scenario: the files of [/r] whose name begins
    with [report] and does not end with [_final]. *)
Definition report_call : arguments :=
  request (PyStr "/r") PyNone (PyStr "report") PyNone PyNone (PyStr "_final").

(** One empty list given as [include_directory] and as
    [exclude_subdirectory], every other argument omitted: the call
    [l = []; search_files(include_directory=l, exclude_subdirectory=l)]. *)
Definition shared_list : arguments :=
  {| include_directory := PyList []; include_pattern := PyNone;
     include_start := PyNone; include_content := PyNone;
     include_end := PyNone; include_extension := PyNone;
     include_filter := None;
     exclude_subdirectory := PyList []; exclude_pattern := PyNone;
     exclude_start := PyNone; exclude_content := PyNone;
     exclude_end := PyNone; exclude_extension := PyNone;
     exclude_filter := None; same_object := [Exclude_subdirectory] |}.

(** An empty [bytearray]: a sequence whose [append] takes integers. *)
Definition empty_bytearray : pyval :=
  PySeq (AppendRaises
           (TypeError "'str' object cannot be interpreted as an integer")) [].

(** The tree of the scenarios: [/d] holds [a.py], [b.txt] and
    [sub/c.py], [/r] holds two reports; the working directory is [/d]. *)
Definition demo_host : Fs.host :=
  {| Fs.root_entries :=
       [Fs.Dir "d" [Fs.File "a.py"; Fs.File "b.txt";
                    Fs.Dir "sub" [Fs.File "c.py"]];
        Fs.Dir "r" [Fs.File "report_final.txt"; Fs.File "report_draft.txt"]];
     Fs.cwd_names := ["d"] |}.

(** A deeper tree: [/d] holds [a.py], [sub/c.py], [sub/deep/e.py],
    [subdirectory/g.py] and [other/h.py]. *)
Definition deep_host : Fs.host :=
  {| Fs.root_entries :=
       [Fs.Dir "d" [Fs.File "a.py";
                    Fs.Dir "sub" [Fs.File "c.py";
                                  Fs.Dir "deep" [Fs.File "e.py"]];
                    Fs.Dir "subdirectory" [Fs.File "g.py"];
                    Fs.Dir "other" [Fs.File "h.py"]]];
     Fs.cwd_names := ["d"] |}.

(** Criteria with one pattern and nothing else. *)
Definition only_pattern (pattern : string) : criteria :=
  {| c_patterns := [pattern]; c_starts := []; c_contains := [];
     c_ends := []; c_exts := []; c_filter := None |}.

(** Criteria with one prefix and a predicate that raises on the paths
    that contain [secret] and is true on the others. *)
Definition guarded (start : string) : criteria :=
  {| c_patterns := []; c_starts := [start]; c_contains := [];
     c_ends := []; c_exts := [];
     c_filter := Some (fun p => if str_in "secret" p
                                then Raises (OtherError "boom")
                                else Returns true) |}.

(* ================================================================== *)
(** * The criteria in words *)

(** The name of a file without its directory and without its
    extension, and the extension, as [extract_file_components] gives
    them. *)
Definition base_name (filepath : string) : string :=
  fst (PosixPath.splitext (snd (PosixPath.split filepath))).

Definition extension_of (filepath : string) : string :=
  snd (PosixPath.splitext (snd (PosixPath.split filepath))).

Definition starts_with (s p : string) : Prop :=
  exists r, s = (p ++ r)%string.

Definition ends_with (s p : string) : Prop :=
  exists l, s = (l ++ p)%string.

Definition occurs_in (sub s : string) : Prop :=
  exists l r, s = (l ++ sub ++ r)%string.

(** The engine finds a match of the pattern in the subject from
    position zero up to some position, not necessarily the last. *)
Definition anchored_match (pattern subject : string) : Prop :=
  exists stops j, re pattern subject = Re.Finds stops /\ In j (stops 0).

(** Some element of the group passes the test. *)
Definition some_of (g : list string) (test : string -> Prop) : Prop :=
  exists x, In x g /\ test x.

(** An include group: no constraint when empty. *)
Definition group (g : list string) (test : string -> Prop) : Prop :=
  g = [] \/ some_of g test.

Definition include_strings (c : criteria) (filepath : string) : Prop :=
  group (c_starts c) (starts_with (base_name filepath)) /\
  group (c_contains c) (fun x => occurs_in x (base_name filepath)) /\
  group (c_ends c) (ends_with (base_name filepath)) /\
  group (c_exts c) (eq (extension_of filepath)) /\
  group (c_patterns c) (fun p => anchored_match p (base_name filepath)).

Definition filter_accepts (c : criteria) (filepath : string) : Prop :=
  match c_filter c with
  | None => True
  | Some f => f filepath = Returns true
  end.

Definition satisfies_inclusion (c : criteria) (filepath : string) : Prop :=
  include_strings c filepath /\ filter_accepts c filepath.

Definition exclude_strings (c : criteria) (filepath : string) : Prop :=
  some_of (c_starts c) (starts_with (base_name filepath)) \/
  some_of (c_contains c) (fun x => occurs_in x (base_name filepath)) \/
  some_of (c_ends c) (ends_with (base_name filepath)) \/
  some_of (c_exts c) (eq (extension_of filepath)) \/
  some_of (c_patterns c) (fun p => anchored_match p (base_name filepath)).

Definition filter_rejects (c : criteria) (filepath : string) : Prop :=
  exists f, c_filter c = Some f /\ f filepath = Returns true.

Definition satisfies_exclusion (c : criteria) (filepath : string) : Prop :=
  exclude_strings c filepath \/ filter_rejects c filepath.

(** The path of a directory contains one of the fragments. *)
Definition pruned (fragments : list string) (root : string) : Prop :=
  exists e, In e fragments /\ occurs_in e root.

(** The root directories a call searches: the declared ones, or the
    working directory when none is declared. *)
Definition roots (h : Fs.host) (a : arguments) : list string :=
  if len (data_to_list (include_directory a)) =? 0 then [Fs.getcwd h]
  else str_items (data_to_list (include_directory a)).

(** The root directories the call declares. *)
Definition declared (a : arguments) : list string :=
  str_items (data_to_list (include_directory a)).

(** The fragments that prune directories: what the variable
    [exclude_subdirectory] holds when the loops run. *)
Definition fragments (h : Fs.host) (a : arguments) : list string :=
  fragments_in a (directories h a).

(** [filepath] is a file the walk of one of the roots meets, in a
    directory it reaches under the path [root]. *)
Definition candidate (h : Fs.host) (a : arguments) (root filepath : string)
  : Prop :=
  exists directory dirs files file,
    In directory (roots h a) /\
    In (root, dirs, files) (Fs.os_walk h directory) /\
    In file files /\
    filepath = PosixPath.join root file.

(** What the check of the parameters accepts, in words: nothing, one
    string, or a sequence all of whose items are strings. *)
Definition conforms (v : pyval) : Prop :=
  v = PyNone \/
  (exists s, v = PyStr s) \/
  (isinstance_Sequence v = true /\
   forall x, In x (items v) -> exists s, x = PyStr s).

(** The predicate, if there is one, raises no type error. *)
Definition raises_no_type_error (f : option predicate) : Prop :=
  forall g p msg, f = Some g -> g p <> Raises (TypeError msg).

(** The criteria without the custom predicate. *)
Definition strings_only (c : criteria) : criteria :=
  {| c_patterns := c_patterns c; c_starts := c_starts c;
     c_contains := c_contains c; c_ends := c_ends c; c_exts := c_exts c;
     c_filter := None |}.

(** The file passes both tests. *)
Definition kept (inc exc : criteria) (p : string) : Prop :=
  satisfies_inclusion inc p /\ ~ satisfies_exclusion exc p.

(** The computation ends with a value. *)
Definition returns {A : Type} (m : M A) : Prop :=
  exists a, outcome m = Ok a.

(** The engine takes every pattern, on every subject, and the
    predicate, if there is one, returns for every path. *)
Definition well_behaved (c : criteria) : Prop :=
  (forall p s, In p (c_patterns c) -> exists stops, re p s = Re.Finds stops) /\
  (forall f p, c_filter c = Some f -> exists b, f p = Returns b).

(** [m] answers whether [P] holds, whenever it answers. *)
Definition decides (m : M bool) (P : Prop) : Prop :=
  forall v, outcome m = Ok v -> (v = true <-> P).

(** No predicate is called. *)
Definition calls_nothing {A : Type} (m : M A) : Prop :=
  forall w p, ~ In (EvCall w p) (events m).

(** The computation does not end with a type error. *)
Definition never_type_error {A : Type} (m : M A) : Prop :=
  forall msg, outcome m <> Err (TypeError msg).

(** The walk of one entry of a directory. *)
Definition under (top : string) (y : Fs.node)
  : list (string * list string * list string) :=
  match y with
  | Fs.File _ => []
  | Fs.Dir n c => Fs.walk (PosixPath.join top n) c
  end.


(* ================================================================== *)
(** * What the loops compute, in closed form *)

(** Criteria that constrain nothing. *)
Definition no_criteria : criteria :=
  {| c_patterns := []; c_starts := []; c_contains := []; c_ends := [];
     c_exts := []; c_filter := None |}.

(** The test of the loop over the files, as a truth value: true when
    the file is included and then found not excluded. *)
Definition keeps (inc exc : criteria) (filepath : string) : bool :=
  match outcome (included inc filepath <&&>
                 (b <- excluded exc filepath ;; ret (negb b))) with
  | Ok true => true
  | _ => false
  end.

(** The paths of the files of one triple of a walk. *)
Definition paths_of (t : string * list string * list string) : list string :=
  map (PosixPath.join (fst (fst t))) (snd t).

(** The paths a walk contributes: in each directory that is not
    skipped, the files the test keeps, in the order of the walk. *)
Definition selection (inc exc : criteria) (excl : list string)
  (entries : list (string * list string * list string)) : list string :=
  flat_map (fun t => if skipped excl (fst (fst t)) then []
                     else filter (keeps inc exc) (paths_of t)) entries.

(** The paths of all the files of a walk. *)
Definition all_files (entries : list (string * list string * list string))
  : list string :=
  flat_map paths_of entries.

(** The list a loop starts with is carried along: the loop adds to
    its end what it would add to the empty list, and fails when it
    would fail from the empty list. *)
Definition carried (acc : list string) (r : result (list string))
  : result (list string) :=
  match r with
  | Ok k => Ok (acc ++ k)
  | Err e => Err e
  end.

(** The call [a] with another object, given to no other parameter,
    as [include_directory]. *)
Definition with_directory (v : pyval) (a : arguments) : arguments :=
  {| include_directory := v; include_pattern := include_pattern a;
     include_start := include_start a; include_content := include_content a;
     include_end := include_end a; include_extension := include_extension a;
     include_filter := include_filter a;
     exclude_subdirectory := exclude_subdirectory a;
     exclude_pattern := exclude_pattern a; exclude_start := exclude_start a;
     exclude_content := exclude_content a; exclude_end := exclude_end a;
     exclude_extension := exclude_extension a;
     exclude_filter := exclude_filter a; same_object := [] |}.

(** An empty sequence of a class whose [append] refuses a string
    with a type error, as an empty [bytearray]. *)
Definition refuses_strings (v : pyval) : Prop :=
  exists msg, v = PySeq (AppendRaises (TypeError msg)) [].

(** An object that can stand for the roots: when it is empty, it is
    absent, or an empty list, or an empty sequence of another class
    whose [append] takes a string. *)
Definition can_default (v : pyval) : Prop :=
  len (data_to_list v) = 0 ->
  data_to_list v = PyList [] \/ data_to_list v = PySeq AppendAdds [].

(** The number of constraints the criteria declare: the groups that
    are not empty and the custom predicate. *)
Definition declared_constraints (c : criteria) : nat :=
  (if truthy (c_patterns c) then 1 else 0) +
  (if truthy (c_starts c) then 1 else 0) +
  (if truthy (c_contains c) then 1 else 0) +
  (if truthy (c_ends c) then 1 else 0) +
  (if truthy (c_exts c) then 1 else 0) +
  (match c_filter c with Some _ => 1 | None => 0 end).

(** Every string of [g] is a string of [g']. *)
Definition within (g g' : list string) : Prop :=
  forall x, In x g -> In x g'.

(** The criteria [c'] exclude at least what [c] excludes: each group
    of [c] is within the group of [c'], with the same predicate. *)
Definition at_least (c c' : criteria) : Prop :=
  within (c_patterns c) (c_patterns c') /\
  within (c_starts c) (c_starts c') /\
  within (c_contains c) (c_contains c') /\
  within (c_ends c) (c_ends c') /\
  within (c_exts c) (c_exts c') /\
  c_filter c = c_filter c'.

(** What the test of one file may do: call the include predicate
    when the include groups hold, call the exclude predicate when the
    file is included and no exclude group matched. *)
Definition test_event (inc exc : criteria) (p : string) (ev : event) : Prop :=
  (ev = EvCall Include p /\ include_strings inc p) \/
  (ev = EvCall Exclude p /\ satisfies_inclusion inc p /\
   ~ exclude_strings exc p).

(** The events a call may perform: asking for the working directory,
    testing a root, listing a directory of the walk of a root, calling
    a predicate on a file of a directory that is not skipped. *)
Definition allowed (h : Fs.host) (a : arguments) (ev : event) : Prop :=
  match ev with
  | EvGetcwd => len (data_to_list (include_directory a)) = 0
  | EvIsdir d => In d (roots h a)
  | EvScandir r =>
      exists d dirs files,
        In d (roots h a) /\ In (r, dirs, files) (Fs.os_walk h d)
  | EvCall Include p =>
      (exists r, candidate h a r p /\ ~ pruned (fragments h a) r) /\
      include_strings (inclusion h a) p
  | EvCall Exclude p =>
      (exists r, candidate h a r p /\ ~ pruned (fragments h a) r) /\
      satisfies_inclusion (inclusion h a) p /\
      ~ exclude_strings (exclusion h a) p
  end.

(** What [join] puts before the name of an entry of the directory
    [top]: the path of the directory, followed by a separator unless it
    is empty or ends with one. *)
Definition before_name (top : string) : string :=
  if String.eqb top "" || endswith top "/" then top else (top ++ "/")%string.

Definition node_name (x : Fs.node) : string :=
  match x with Fs.File n => n | Fs.Dir n _ => n end.

(** No string occurs twice. *)
Fixpoint distinct (l : list string) : bool :=
  match l with
  | [] => true
  | x :: t => negb (existsb (String.eqb x) t) && distinct t
  end.

(** In a directory no two entries have the same name, and so below. *)
Fixpoint distinct_node (x : Fs.node) : bool :=
  match x with
  | Fs.File _ => true
  | Fs.Dir _ c => distinct (map node_name c) && forallb distinct_node c
  end.

Definition distinct_entries (l : list Fs.node) : bool :=
  distinct (map node_name l) && forallb distinct_node l.

Definition distinct_host (h : Fs.host) : bool :=
  distinct_entries (Fs.root_entries h).

(** What the log of a loop that returns holds about the file [p]:
    the include predicate was called and returned when the include
    groups accept the file, the exclude predicate when the file is
    included and no exclude group matched. *)
Definition called (inc exc : criteria) (log : list event) (p : string)
  : Prop :=
  (forall f, c_filter inc = Some f -> include_strings inc p ->
     In (EvCall Include p) log /\ exists b, f p = Returns b) /\
  (forall g, c_filter exc = Some g -> satisfies_inclusion inc p ->
     ~ exclude_strings exc p ->
     In (EvCall Exclude p) log /\ exists b, g p = Returns b).

(* ================================================================== *)
(** * The documented examples and the scenarios *)

Example extract_doc_1 :
  extract_file_components (PyStr "/my/super/path/name.txt")
  = Ok ("/my/super/path", "name", ".txt").
Proof. reflexivity. Qed.

Example extract_doc_2 :
  extract_file_components (PyStr "name.txt") = Ok ("", "name", ".txt").
Proof. reflexivity. Qed.

Example extract_doc_3 :
  extract_file_components (PyStr "/my/super/path/name")
  = Ok ("/my/super/path", "name", "").
Proof. reflexivity. Qed.

Example extract_hidden :
  extract_file_components (PyStr "a//b/.bashrc") = Ok ("a//b", ".bashrc", "").
Proof. reflexivity. Qed.

Example extract_root :
  extract_file_components (PyStr "//x.tar.gz") = Ok ("//", "x.tar", ".gz").
Proof. reflexivity. Qed.

Example scenario3_file :
  (outcome (matches_criteria "/r/report_final.txt" [] ["report"] [] [] [] None),
   outcome (matches_exclusion_criteria "/r/report_final.txt" [] [] []
              ["_final"] [] None))
  = (Ok true, Ok true).
Proof. vm_compute. reflexivity. Qed.

Example re_scenario5 :
  map (Re.re_match Re.fragment "^data\d+$") ["data1"; "data23"; "mydata1"; "data"; "data1x"]
  = [Ok true; Ok true; Ok false; Ok false; Ok false].
Proof. vm_compute. reflexivity. Qed.

Example re_match_vs_others :
  (Re.re_match Re.fragment "data" "data1",
   Re.re_fullmatch Re.fragment "data" "data1",
   Re.re_match Re.fragment "data" "mydata1",
   Re.re_search Re.fragment "data" "mydata1")
  = (Ok true, Ok false, Ok false, Ok true).
Proof. vm_compute. reflexivity. Qed.

Example re_more :
  map (fun p => Re.re_match Re.fragment p "ab12_c")
    ["(a|b)*\d"; "a.\d+_"; "(x|)ab"; "b"; "a**"; "[ab]"; "(a"; "\w+$"; "^*"]
  = [Ok true; Ok true; Ok true; Ok false; Err (ReError "a**");
     Err (ReError "[ab]"); Err (ReError "(a"); Ok true; Err (ReError "^*")].
Proof. vm_compute. reflexivity. Qed.

Example scenario1 :
  search_files demo_host
    (request (PyStr "/d") PyNone PyNone (PyList [PyStr ".py"]) PyNone PyNone)
  = ([EvIsdir "/d"; EvScandir "/d"; EvScandir "/d/sub"],
     Ok ["/d/a.py"; "/d/sub/c.py"]).
Proof. vm_compute. reflexivity. Qed.

Example scenario2 :
  search_files demo_host
    (request PyNone PyNone PyNone PyNone (PyList [PyStr "sub"]) PyNone)
  = ([EvGetcwd; EvIsdir "/d"; EvScandir "/d"; EvScandir "/d/sub"],
     Ok ["/d/a.py"; "/d/b.txt"]).
Proof. vm_compute. reflexivity. Qed.

Example scenario2_substring :
  outcome (search_files deep_host
    (request PyNone PyNone PyNone PyNone (PyList [PyStr "sub"]) PyNone))
  = Ok ["/d/a.py"; "/d/other/h.py"].
Proof. vm_compute. reflexivity. Qed.

Example scenario3 :
  outcome (search_files demo_host
    (request (PyStr "/r") PyNone (PyStr "report") PyNone PyNone
             (PyStr "_final")))
  = Ok ["/r/report_draft.txt"].
Proof. vm_compute. reflexivity. Qed.

Example scenario4 :
  search_files demo_host
    (request (PyList [PyStr "/d"; PyStr "/nowhere"]) PyNone PyNone PyNone
             PyNone PyNone)
  = ([EvIsdir "/d"; EvIsdir "/nowhere"], Err (FileNotFoundError "/nowhere")).
Proof. vm_compute. reflexivity. Qed.

Example relative_paths :
  map (Fs.isdir demo_host) ["sub"; "./sub/"; "../r"; "/d/sub/.."; "a.py"; "";
                            "/d/a.py/.."; "/"; "sub/c.py"]
  = [true; true; true; true; false; false; false; true; false].
Proof. vm_compute. reflexivity. Qed.


(* ================================================================== *)
(** * Facts about strings *)

Section StringFacts.

Lemma append_nil_r (s : string) : (s ++ "")%string = s.
Proof. induction s; simpl; congruence. Qed.

Lemma append_assoc (a b c : string) :
  ((a ++ b) ++ c)%string = (a ++ (b ++ c))%string.
Proof. induction a; simpl; congruence. Qed.

Lemma substring_all (s : string) : substring 0 (String.length s) s = s.
Proof. induction s; simpl; congruence. Qed.

Lemma substring_cut (s : string) (n : nat) :
  (substring 0 n s ++ substring n (String.length s - n) s)%string = s.
Proof.
  revert n; induction s as [|a t IH]; intros [|n]; simpl; try reflexivity.
  - now rewrite substring_all.
  - now rewrite IH.
Qed.

Lemma rfind_ge (c : ascii) (s : string) : (-1 <= rfind c s)%Z.
Proof.
  induction s as [|a t IH]; simpl; [lia|].
  destruct (0 <=? rfind c t)%Z eqn:E; [apply Z.leb_le in E; lia|].
  destruct (Ascii.eqb a c); lia.
Qed.

Lemma prefix_nil (s : string) : String.prefix "" s = true.
Proof. destruct s; reflexivity. Qed.

Lemma prefix_iff (p s : string) :
  String.prefix p s = true <-> exists r, s = (p ++ r)%string.
Proof.
  revert s; induction p as [|a p IH]; intros s.
  - rewrite prefix_nil. split; [exists s; reflexivity | reflexivity].
  - destruct s as [|b s]; simpl.
    + split; [discriminate | intros [r H]; discriminate].
    + destruct (ascii_dec a b) as [->|N].
      * rewrite IH. split; intros [r H]; exists r; congruence.
      * split; [discriminate | intros [r H]; congruence].
Qed.

Lemma startswith_iff (s p : string) :
  startswith s p = true <-> exists r, s = (p ++ r)%string.
Proof. apply prefix_iff. Qed.

Lemma endswith_eq (s p : string) :
  endswith s p =
  String.eqb s p ||
  match s with EmptyString => false | String _ t => endswith t p end.
Proof. destruct s; reflexivity. Qed.

Lemma endswith_iff (s p : string) :
  endswith s p = true <-> exists l, s = (l ++ p)%string.
Proof.
  induction s as [|a t IH]; rewrite endswith_eq.
  - rewrite orb_false_r, String.eqb_eq. split.
    + intros <-. now exists "".
    + intros [[|] H]; simpl in H; [auto | discriminate].
  - rewrite orb_true_iff, String.eqb_eq, IH. split.
    + intros [<- | [l ->]]; [now exists "" | now exists (String a l)].
    + intros [[|b l] H]; simpl in H; [now left|].
      right. exists l. congruence.
Qed.

Lemma str_in_eq (sub s : string) :
  str_in sub s =
  String.prefix sub s ||
  match s with EmptyString => false | String _ t => str_in sub t end.
Proof. destruct s; reflexivity. Qed.

(** [sub in s] holds exactly when [s] is some text, then [sub], then
    some text. *)
Lemma str_in_iff (sub s : string) :
  str_in sub s = true <-> exists l r, s = (l ++ sub ++ r)%string.
Proof.
  induction s as [|a t IH]; rewrite str_in_eq.
  - rewrite orb_false_r, prefix_iff. split.
    + intros [r H]. now exists "", r.
    + intros [[|] [r H]]; simpl in H; [now exists r | discriminate].
  - rewrite orb_true_iff, prefix_iff, IH. split.
    + intros [[r H] | [l [r ->]]]; [now exists "", r | now exists (String a l), r].
    + intros [[|b l] [r H]]; simpl in H; [left; now exists r|].
      right. exists l, r. congruence.
Qed.

End StringFacts.

(* ================================================================== *)
(** * Facts about [posixpath] *)

Section PathFacts.

Import PosixPath.

Lemma slice_to_from (i : Z) (s : string) :
  (slice_to i s ++ slice_from i s)%string = s.
Proof. apply substring_cut. Qed.

Lemma slice_to_cons (i : Z) (a : ascii) (t : string) :
  (0 <= i)%Z -> slice_to (i + 1) (String a t) = String a (slice_to i t).
Proof.
  intros H. unfold slice_to.
  replace (Z.to_nat (i + 1)) with (S (Z.to_nat i)) by lia. reflexivity.
Qed.

Lemma slice_from_cons (i : Z) (a : ascii) (t : string) :
  (0 <= i)%Z -> slice_from (i + 1) (String a t) = slice_from i t.
Proof.
  intros H. unfold slice_from.
  replace (Z.to_nat (i + 1)) with (S (Z.to_nat i)) by lia. reflexivity.
Qed.

Lemma slice_from_0 (s : string) : slice_from 0 s = s.
Proof.
  unfold slice_from. simpl Z.to_nat. rewrite Nat.sub_0_r. apply substring_all.
Qed.

Lemma slice_to_0 (s : string) : slice_to 0 s = "".
Proof. destruct s; reflexivity. Qed.

Lemma rfind_cons (c a : ascii) (t : string) :
  rfind c (String a t) =
  if (0 <=? rfind c t)%Z then (rfind c t + 1)%Z
  else if Ascii.eqb a c then 0%Z else (-1)%Z.
Proof. reflexivity. Qed.

(** Cutting after the last [c]: the second part holds no [c], and the
    first part is empty or ends with [c]. *)
Lemma cut_last (c : ascii) (p : string) :
  rfind c (slice_from (rfind c p + 1) p) = (-1)%Z /\
  (slice_to (rfind c p + 1) p = "" \/
   exists l, slice_to (rfind c p + 1) p = (l ++ String c "")%string).
Proof.
  induction p as [|a t [IH1 IH2]]; [split; [reflexivity | now left]|].
  rewrite rfind_cons.
  destruct (0 <=? rfind c t)%Z eqn:E.
  - apply Z.leb_le in E.
    rewrite slice_from_cons, slice_to_cons by lia. split; [exact IH1|].
    right. destruct IH2 as [H | [l H]]; rewrite H.
    + exfalso. unfold slice_to in H.
      replace (Z.to_nat (rfind c t + 1)) with (S (Z.to_nat (rfind c t))) in H by lia.
      destruct t; simpl in H; [simpl in E; lia | discriminate].
    + now exists (String a l).
  - apply Z.leb_gt in E. pose proof (rfind_ge c t) as G.
    assert (R : rfind c t = (-1)%Z) by lia.
    destruct (Ascii.eqb a c) eqn:A.
    + apply Ascii.eqb_eq in A. subst a.
      change (0 + 1)%Z with (0 + 1)%Z.
      rewrite slice_from_cons, slice_to_cons by lia.
      rewrite slice_from_0, slice_to_0. split; [exact R|].
      right. now exists "".
    + change (-1 + 1)%Z with 0%Z. rewrite slice_from_0, slice_to_0.
      split; [|now left]. rewrite rfind_cons.
      rewrite R. simpl. now rewrite A.
Qed.

Lemma no_sep_no_start (c : ascii) (s : string) :
  rfind c s = (-1)%Z -> String.prefix (String c "") s = false.
Proof.
  destruct s as [|a t]; [reflexivity|]. rewrite rfind_cons. simpl.
  destruct (ascii_dec c a) as [->|N]; [|reflexivity].
  rewrite Ascii.eqb_refl. pose proof (rfind_ge a t).
  destruct (0 <=? rfind a t)%Z eqn:E; [apply Z.leb_le in E|]; lia.
Qed.

Lemma rstrip_cons (c a : ascii) (t : string) :
  rstrip c (String a t) =
  match rstrip c t with
  | EmptyString => if Ascii.eqb a c then EmptyString else String a EmptyString
  | r => String a r
  end.
Proof. reflexivity. Qed.

(** What [rstrip] removes is a run of [c]. *)
Lemma rstrip_cut (c : ascii) (s : string) :
  exists z, s = (rstrip c s ++ z)%string /\ all_char c z = true.
Proof.
  induction s as [|a t [z [E Z]]]; [now exists ""|].
  rewrite rstrip_cons. destruct (rstrip c t) as [|b r] eqn:R.
  - simpl in E. subst t. destruct (Ascii.eqb a c) eqn:A.
    + exists (String a z). split; [reflexivity|]. simpl. now rewrite A.
    + now exists z.
  - exists z. simpl in E |- *. split; [congruence | exact Z].
Qed.

(** What [rstrip] leaves does not end with [c]. *)
Lemma rstrip_last (c : ascii) (s l : string) :
  rstrip c s <> (l ++ String c "")%string.
Proof.
  revert l; induction s as [|a t IH]; intros l.
  - destruct l; discriminate.
  - rewrite rstrip_cons. destruct (rstrip c t) as [|b r] eqn:R.
    + destruct (Ascii.eqb a c) eqn:A.
      * destruct l; discriminate.
      * destruct l as [|x [|y l]]; simpl; try discriminate.
        intros H. inversion H. subst. now rewrite Ascii.eqb_refl in A.
    + destruct l as [|x l]; simpl; [discriminate|].
      intros H. inversion H. subst. now apply (IH l).
Qed.

Lemma rstrip_nil (c : ascii) (s : string) :
  rstrip c s = "" -> all_char c s = true.
Proof.
  induction s as [|a t IH]; [reflexivity|]. rewrite rstrip_cons. simpl.
  destruct (rstrip c t); [|discriminate].
  destruct (Ascii.eqb a c); [auto | discriminate].
Qed.

Lemma squeeze_cons2 (a b : ascii) (t : string) :
  squeeze (String a (String b t)) =
  if Ascii.eqb a sep && Ascii.eqb b sep then squeeze (String b t)
  else String a (squeeze (String b t)).
Proof. reflexivity. Qed.

(** A run of separators after a separator changes nothing. *)
Lemma squeeze_run (z t : string) :
  all_char sep z = true ->
  squeeze (String sep (z ++ t)) = squeeze (String sep t).
Proof.
  induction z as [|b z IH]; [reflexivity|]. simpl all_char.
  intros H. apply andb_prop in H as [B Z]. apply Ascii.eqb_eq in B. subst b.
  simpl String.append. rewrite squeeze_cons2. simpl andb. auto.
Qed.

Lemma squeeze_after (h x y : string) :
  squeeze (String sep x) = squeeze (String sep y) ->
  squeeze (h ++ String sep x) = squeeze (h ++ String sep y).
Proof.
  intros E. induction h as [|a h IH]; [exact E|].
  destruct h as [|b h]; simpl String.append in *; rewrite !squeeze_cons2.
  - now rewrite E.
  - now rewrite IH.
Qed.

Lemma all_char_app (c : ascii) (a b : string) :
  all_char c (a ++ b) = all_char c a && all_char c b.
Proof.
  induction a as [|x a IH]; [reflexivity|]. simpl.
  now rewrite IH, andb_assoc.
Qed.

Lemma normal_after (h x y : string) :
  all_char sep h = false ->
  squeeze (String sep x) = squeeze (String sep y) ->
  normal (h ++ String sep x) = normal (h ++ String sep y).
Proof.
  intros A E. induction h as [|a h IH]; [discriminate|].
  simpl all_char in A. simpl String.append. cbn [normal].
  destruct (Ascii.eqb a sep) eqn:S.
  - simpl in A. now rewrite IH.
  - change (String a (h ++ String sep x)) with (String a h ++ String sep x)%string.
    change (String a (h ++ String sep y)) with (String a h ++ String sep y)%string.
    now apply squeeze_after.
Qed.

Lemma split_tail_no_sep (p : string) :
  rfind sep (snd (split p)) = (-1)%Z.
Proof. unfold split. simpl. apply cut_last. Qed.

Lemma splitext_append (p : string) :
  (fst (splitext p) ++ snd (splitext p))%string = p.
Proof.
  unfold splitext.
  destruct (rfind sep p <? rfind extsep p)%Z; simpl.
  - destruct (has_other extsep _); simpl;
      [apply slice_to_from | apply append_nil_r].
  - apply append_nil_r.
Qed.

(** Joining the two parts of [split] gives the path back, up to runs
    of separators. *)
Lemma join_split (p : string) :
  equiv (join (fst (split p)) (snd (split p))) p.
Proof.
  unfold equiv. pose proof (split_tail_no_sep p) as T.
  assert (S0 : startswith (snd (split p)) "/" = false)
    by exact (no_sep_no_start sep _ T).
  unfold join. rewrite S0. clear S0.
  unfold split in *. simpl in *.
  set (i := (rfind sep p + 1)%Z) in *.
  pose proof (slice_to_from i p) as C.
  destruct (cut_last sep p) as [_ L]. fold i in L.
  set (head := slice_to i p) in *. set (tail := slice_from i p) in *.
  destruct (negb (String.eqb head "") && negb (all_char sep head)) eqn:G.
  - apply andb_prop in G as [G1 G2].
    apply negb_true_iff in G1, G2. apply String.eqb_neq in G1.
    destruct L as [L | [l L]]; [contradiction|].
    destruct (rstrip_cut sep head) as [z [E Z]].
    destruct (String.eqb (rstrip sep head) "") eqn:N.
    + apply String.eqb_eq in N. apply rstrip_nil in N. congruence.
    + destruct (endswith (rstrip sep head) "/") eqn:W.
      * apply endswith_iff in W as [l' W]. now apply rstrip_last in W.
      * simpl orb. cbv iota. rewrite <- C.
        remember (rstrip sep head) as h eqn:Hh. clearbody head.
        rewrite E. rewrite E in L.
        destruct z as [|b z].
        -- rewrite append_nil_r in L.
           assert (W' : endswith h "/" = true)
             by (apply endswith_iff; now exists l).
           congruence.
        -- simpl in Z. apply andb_prop in Z as [B Z].
           apply Ascii.eqb_eq in B. subst b.
           rewrite append_assoc. apply normal_after.
           ++ rewrite E, all_char_app in G2. cbn [all_char] in G2.
              rewrite Z, Ascii.eqb_refl in G2.
              now rewrite andb_true_r in G2.
           ++ change (String sep z ++ tail)%string
                with (String sep (z ++ tail)).
              now rewrite squeeze_run.
  - assert (J : (String.eqb head "" || endswith head "/") = true).
    { destruct L as [L | [l L]]; [rewrite L; reflexivity|].
      apply orb_true_iff. right. apply endswith_iff. now exists l. }
    rewrite J. now rewrite C.
Qed.

End PathFacts.

(* ================================================================== *)
(** * The parser has fuel enough *)

Section ParseFacts.

Import Re.

Lemma parse_alt_S (f : nat) (s : string) :
  parse_alt (S f) s =
  match parse_seq f s with
  | Some (r, String c rest) =>
      if Ascii.eqb c "|" then
        match parse_alt f rest with
        | Some (r', rest') => Some (Alt r r', rest')
        | None => None
        end
      else Some (r, String c rest)
  | other => other
  end.
Proof. reflexivity. Qed.

Lemma parse_seq_S (f : nat) (s : string) :
  parse_seq (S f) s =
  match s with
  | EmptyString => Some (Eps, s)
  | String c _ =>
      if Ascii.eqb c "|" || Ascii.eqb c ")" then Some (Eps, s)
      else
        match parse_atom f s with
        | Some (a, rest) =>
            match parse_repeat a rest with
            | Some (item, rest') =>
                match parse_seq f rest' with
                | Some (r, rest'') => Some (Cat item r, rest'')
                | None => None
                end
            | None => None
            end
        | None => None
        end
  end.
Proof. reflexivity. Qed.

Lemma parse_atom_open (f : nat) (c : ascii) (rest : string) :
  Ascii.eqb c "(" = true ->
  parse_atom (S f) (String c rest) =
  match rest with
  | String c' _ =>
      if Ascii.eqb c' "?" then None
      else
        match parse_alt f rest with
        | Some (r, String d rest') =>
            if Ascii.eqb d ")" then Some (r, rest') else None
        | _ => None
        end
  | EmptyString => None
  end.
Proof. intros H. cbn [parse_atom]. now rewrite H. Qed.

Lemma parse_atom_other (f g : nat) (c : ascii) (rest : string) :
  Ascii.eqb c "(" = false ->
  parse_atom (S f) (String c rest) = parse_atom (S g) (String c rest).
Proof. intros H. cbn [parse_atom]. now rewrite H. Qed.

Lemma parse_repeat_length (a r : regex) (s rest : string) :
  parse_repeat a s = Some (r, rest) -> String.length rest <= String.length s.
Proof.
  unfold parse_repeat. destruct s as [|q t]; [intros E; now inversion E|].
  destruct (is_repeat q).
  - destruct a; try discriminate;
      (destruct t as [|q' t'];
       [intros E; inversion E; simpl; lia|];
       destruct (is_repeat q'); [discriminate|];
       intros E; inversion E; simpl; lia).
  - intros E. now inversion E.
Qed.

(** What a parser leaves is not longer than what it was given, and an
    item takes at least one character. *)
Lemma parse_lengths (f : nat) :
  forall s r rest,
    (parse_alt f s = Some (r, rest) -> String.length rest <= String.length s) /\
    (parse_seq f s = Some (r, rest) -> String.length rest <= String.length s) /\
    (parse_atom f s = Some (r, rest) -> String.length rest < String.length s).
Proof.
  induction f as [|f IH]; intros s r rest;
    [repeat split; discriminate|].
  split; [|split].
  - rewrite parse_alt_S.
    destruct (parse_seq f s) as [[r1 [|c t]]|] eqn:S1; try discriminate.
    + intros E. inversion E. subst.
      now apply (proj1 (proj2 (IH s r ""))).
    + pose proof (proj1 (proj2 (IH s r1 (String c t))) S1) as L1.
      destruct (Ascii.eqb c "|").
      * destruct (parse_alt f t) as [[r2 rest2]|] eqn:A2; [|discriminate].
        intros E. inversion E. subst.
        pose proof (proj1 (IH t r2 rest) A2). simpl in L1. lia.
      * intros E. inversion E. now subst.
  - rewrite parse_seq_S. destruct s as [|c t]; [intros E; now inversion E|].
    destruct (Ascii.eqb c "|" || Ascii.eqb c ")");
      [intros E; now inversion E|].
    destruct (parse_atom f (String c t)) as [[a rest1]|] eqn:A1;
      [|discriminate].
    destruct (parse_repeat a rest1) as [[item rest2]|] eqn:R2; [|discriminate].
    destruct (parse_seq f rest2) as [[r3 rest3]|] eqn:S3; [|discriminate].
    intros E. inversion E. subst.
    pose proof (proj2 (proj2 (IH (String c t) a rest1)) A1).
    pose proof (@parse_repeat_length _ _ _ _ R2).
    pose proof (proj1 (proj2 (IH rest2 r3 rest)) S3). lia.
  - destruct s as [|c t]; [discriminate|].
    destruct (Ascii.eqb c "(") eqn:O.
    + rewrite (@parse_atom_open f c t O).
      destruct t as [|c' t']; [discriminate|].
      destruct (Ascii.eqb c' "?"); [discriminate|].
      destruct (parse_alt f (String c' t')) as [[r1 [|d rest1]]|] eqn:A1;
        try discriminate.
      destruct (Ascii.eqb d ")"); [|discriminate].
      intros E. inversion E. subst.
      pose proof (proj1 (IH (String c' t') r (String d rest)) A1) as L.
      simpl in *. lia.
    + cbn [parse_atom]. rewrite O.
      destruct (Ascii.eqb c "."); [intros E; inversion E; simpl; lia|].
      destruct (Ascii.eqb c "^"); [intros E; inversion E; simpl; lia|].
      destruct (Ascii.eqb c "$"); [intros E; inversion E; simpl; lia|].
      destruct (Ascii.eqb c "\").
      * destruct t as [|e t']; [discriminate|].
        destruct (parse_escape e); [|discriminate].
        intros E. inversion E. simpl. lia.
      * destruct (is_repeat c || Ascii.eqb c "[" || Ascii.eqb c "{");
          [discriminate|].
        intros E. inversion E. simpl. lia.
Qed.

Lemma stable_step (s : string) :
  (forall t, String.length t < String.length s -> stable t) -> stable s.
Proof.
  intros IH.
  assert (HA : forall t f g, String.length t < String.length s ->
                 3 * String.length t + 3 <= f ->
                 3 * String.length t + 3 <= g ->
                 parse_alt f t = parse_alt g t).
  { intros t f g L F G. destruct (IH t L) as [_ [_ H]].
    now rewrite (H f F), (H g G). }
  assert (HS : forall t f g, String.length t < String.length s ->
                 3 * String.length t + 2 <= f ->
                 3 * String.length t + 2 <= g ->
                 parse_seq f t = parse_seq g t).
  { intros t f g L F G. destruct (IH t L) as [_ [H _]].
    now rewrite (H f F), (H g G). }
  assert (At : forall f, 3 * String.length s + 1 <= f ->
                 parse_atom f s = parse_atom (3 * String.length s + 1) s).
  { intros f F. destruct f as [|f]; [lia|].
    replace (3 * String.length s + 1) with (S (3 * String.length s)) by lia.
    destruct s as [|c t]; [reflexivity|].
    destruct (Ascii.eqb c "(") eqn:O; [|now apply parse_atom_other].
    rewrite !(fun g => @parse_atom_open g c t O).
    destruct t as [|c' t']; [reflexivity|].
    rewrite (HA (String c' t') f (3 * String.length (String c (String c' t'))));
      [reflexivity | simpl; lia | simpl in *; lia | simpl; lia]. }
  assert (Sq : forall f, 3 * String.length s + 2 <= f ->
                 parse_seq f s = parse_seq (3 * String.length s + 2) s).
  { intros f F. destruct f as [|f]; [lia|].
    replace (3 * String.length s + 2) with (S (3 * String.length s + 1)) by lia.
    rewrite !parse_seq_S. destruct s as [|c t]; [reflexivity|].
    destruct (Ascii.eqb c "|" || Ascii.eqb c ")"); [reflexivity|].
    rewrite (At f) by lia.
    destruct (parse_atom _ (String c t)) as [[a rest1]|] eqn:A1;
      [|reflexivity].
    destruct (parse_repeat a rest1) as [[item rest2]|] eqn:R2; [|reflexivity].
    pose proof (proj2 (proj2 (parse_lengths _ _ _ _)) A1) as L1.
    pose proof (@parse_repeat_length _ _ _ _ R2) as L2.
    rewrite (HS rest2 f (3 * String.length (String c t) + 1));
      [reflexivity | lia | lia | lia]. }
  split; [exact At|]. split; [exact Sq|].
  intros f F. destruct f as [|f]; [lia|].
  replace (3 * String.length s + 3) with (S (3 * String.length s + 2)) by lia.
  rewrite !parse_alt_S. rewrite (Sq f) by lia.
  destruct (parse_seq _ s) as [[r1 [|c t]]|] eqn:S1; try reflexivity.
  pose proof (proj1 (proj2 (parse_lengths _ _ _ _)) S1) as L1. simpl in L1.
  destruct (Ascii.eqb c "|"); [|reflexivity].
  rewrite (HA t f (3 * String.length s + 2)); [reflexivity | lia | lia | lia].
Qed.

Lemma stable_all (n : nat) : forall s, String.length s <= n -> stable s.
Proof.
  induction n as [|n IH]; intros s L; apply stable_step; intros t T;
    [lia | apply IH; lia].
Qed.

(** More fuel than [parse] gives changes nothing: when it answers
    [None], no amount of fuel parses the pattern. *)
Lemma parse_fuel (pattern : string) (f : nat) :
  3 * String.length pattern + 3 <= f ->
  parse_alt f pattern = parse_alt (3 * String.length pattern + 3) pattern.
Proof.
  intros F.
  now apply (proj2 (proj2 (@stable_all (String.length pattern) pattern
                             (Nat.le_refl _)))).
Qed.

End ParseFacts.

(* ================================================================== *)
(** * Facts about the matcher *)

Section ReFacts.

Import Re.

Variable s : string.

Lemma get_some_lt (i : nat) (t : string) (c : ascii) :
  String.get i t = Some c -> i < String.length t.
Proof.
  revert i; induction t as [|a t IH]; intros [|i] H; simpl in *;
    try discriminate; [lia|]. apply IH in H. lia.
Qed.

Lemma at_end_le (i : nat) : at_end s i = true -> i <= String.length s.
Proof.
  unfold at_end. intros H. apply orb_prop in H as [H | H].
  - apply Nat.eqb_eq in H. lia.
  - apply andb_prop in H as [H _]. apply Nat.eqb_eq in H. lia.
Qed.

(** A match moves forward and stays inside the subject. *)
Lemma rmatch_bounds (r : regex) (i j : nat) :
  rmatch s r i j -> i <= j /\ j <= String.length s.
Proof.
  induction 1; try lia.
  - apply get_some_lt in H. lia.
  - apply at_end_le in H. lia.
Qed.

Lemma star_ends_sound (r : regex) (fuel : nat) :
  (forall a b, a <= String.length s -> In b (ends r s a) -> rmatch s r a b) ->
  forall i k, i <= String.length s ->
    In k (star_ends (ends r s) fuel i) -> rmatch s (Star r) i k.
Proof.
  intros Hr. induction fuel as [|f IH]; intros i k Hi [<- | H];
    try (now apply MStar0); [destruct H|].
  apply in_flat_map in H as [j [Hj H]].
  destruct (i <? j) eqn:L; [|destruct H].
  pose proof (Hr _ _ Hi Hj) as M. apply MStarS with j; [exact M|].
  apply IH; [|exact H]. now apply rmatch_bounds in M.
Qed.

Lemma ends_sound (r : regex) :
  forall i j, i <= String.length s -> In j (ends r s i) -> rmatch s r i j.
Proof.
  induction r as [|cc| | |r1 IH1 r2 IH2|r1 IH1 r2 IH2|r IH|r IH|r IH];
    intros i j Hi H; simpl in H.
  - destruct H as [<- | []]. now constructor.
  - destruct (String.get i s) as [c|] eqn:G; [|destruct H].
    destruct (cc_test cc c) eqn:T; [|destruct H].
    destruct H as [<- | []]. now apply MSym with c.
  - destruct (i =? 0) eqn:Z; [|destruct H].
    apply Nat.eqb_eq in Z. destruct H as [<- | []]. subst i. constructor.
  - destruct (at_end s i) eqn:E; [|destruct H].
    destruct H as [<- | []]. now constructor.
  - apply in_flat_map in H as [m [H1 H2]].
    pose proof (IH1 _ _ Hi H1) as M1.
    apply MCat with m; [exact M1|].
    apply IH2; [|exact H2]. now apply rmatch_bounds in M1.
  - apply in_app_or in H as [H | H];
      [apply MAltL | apply MAltR]; auto.
  - now apply star_ends_sound with (fuel := String.length s - i).
  - apply in_flat_map in H as [m [H1 H2]].
    pose proof (IH _ _ Hi H1) as M1.
    apply MPlus with m; [exact M1|].
    apply star_ends_sound with (fuel := String.length s - m); auto.
    now apply rmatch_bounds in M1.
  - destruct H as [<- | H]; [now apply MOpt0 | apply MOptS; auto].
Qed.

Lemma star_ends_complete (r : regex) :
  (forall a b, rmatch s r a b -> In b (ends r s a)) ->
  forall i k, rmatch s (Star r) i k ->
    forall fuel, String.length s - i <= fuel ->
      In k (star_ends (ends r s) fuel i).
Proof.
  intros Hr i k M. remember (Star r) as R eqn:ER.
  induction M; try discriminate; inversion ER; subst; intros fuel F.
  - destruct fuel; left; reflexivity.
  - pose proof (rmatch_bounds M1) as [B1 B2].
    pose proof (rmatch_bounds M2) as [B3 B4].
    destruct (Nat.eq_dec i j) as [->|N]; [now apply IHM2|].
    destruct fuel as [|f]; [lia|]. right.
    apply in_flat_map. exists j. split; [now apply Hr|].
    assert (L : (i <? j) = true) by (apply Nat.ltb_lt; lia).
    rewrite L. apply IHM2; [reflexivity | lia].
Qed.

Lemma ends_complete (r : regex) :
  forall i j, rmatch s r i j -> In j (ends r s i).
Proof.
  induction r as [|cc| | |r1 IH1 r2 IH2|r1 IH1 r2 IH2|r IH|r IH|r IH];
    intros i j M.
  - inversion M; subst. now left.
  - inversion M; subst. simpl.
    match goal with
    | G : String.get _ _ = Some _, T : cc_test _ _ = true |- _ =>
        rewrite G, T
    end. now left.
  - inversion M; subst. now left.
  - inversion M; subst. simpl.
    match goal with E : at_end _ _ = true |- _ => rewrite E end. now left.
  - inversion M; subst. simpl. apply in_flat_map. eauto.
  - inversion M; subst; simpl; apply in_or_app; auto.
  - simpl. now apply star_ends_complete.
  - inversion M; subst. simpl. apply in_flat_map.
    match goal with
    | M1 : rmatch _ r _ ?m |- _ => exists m; split; [auto|]
    end. now apply star_ends_complete.
  - inversion M; subst; simpl; auto.
Qed.

(** The end positions [ends] finds are exactly those of the matches. *)
Lemma ends_spec (r : regex) (i j : nat) :
  i <= String.length s -> (In j (ends r s i) <-> rmatch s r i j).
Proof.
  intros Hi. split; [now apply ends_sound | apply ends_complete].
Qed.

Lemma truthy_iff (A : Type) (l : list A) :
  truthy l = true <-> exists x, In x l.
Proof.
  destruct l as [|a l]; simpl; split; try discriminate.
  - intros [x []].
  - intros _. exists a. now left.
  - reflexivity.
Qed.

(** On the engine of the fragment, [re.match] answers a true value
    exactly when the parsed pattern matches from position 0 up to
    some position. *)
Lemma re_match_spec (pattern : string) (r : regex) :
  parse pattern = Some r ->
  (re_match fragment pattern s = Ok true <-> exists j, rmatch s r 0 j).
Proof.
  intros C. unfold re_match, fragment. rewrite C. split.
  - intros H. inversion H as [T]. apply truthy_iff in T as [j T].
    exists j. apply ends_sound; [lia | exact T].
  - intros [j M]. f_equal. apply truthy_iff. exists j.
    now apply ends_complete.
Qed.

End ReFacts.

(* ================================================================== *)
(** * Facts about computations *)

Section CompFacts.

Context {A B : Type}.

Lemma bind_ret_l (a : A) (k : A -> M B) : bind (ret a) k = k a.
Proof. unfold bind, ret. destruct (k a). reflexivity. Qed.

Lemma bind_lift_ok (a : A) (k : A -> M B) : bind (lift (Ok a)) k = k a.
Proof. apply bind_ret_l. Qed.

Lemma outcome_bind (m : M A) (k : A -> M B) :
  outcome (bind m k) =
  match outcome m with
  | Ok a => outcome (k a)
  | Err e => Err e
  end.
Proof.
  destruct m as [log [a|e]]; simpl; [|reflexivity].
  destruct (k a). reflexivity.
Qed.

Lemma events_bind (m : M A) (k : A -> M B) :
  events (bind m k) =
  events m ++ match outcome m with
              | Ok a => events (k a)
              | Err _ => []
              end.
Proof.
  destruct m as [log [a|e]]; simpl; [|now rewrite app_nil_r].
  destruct (k a). reflexivity.
Qed.

Lemma bind_ok (m : M A) (k : A -> M B) (b : B) :
  outcome (bind m k) = Ok b ->
  exists a, outcome m = Ok a /\ outcome (k a) = Ok b.
Proof.
  rewrite outcome_bind. destruct (outcome m) as [a|e]; [eauto | discriminate].
Qed.

End CompFacts.

Section BoolComp.

Lemma outcome_and_then (a b : M bool) :
  outcome (a <&&> b) =
  match outcome a with
  | Ok true => outcome b
  | Ok false => Ok false
  | Err e => Err e
  end.
Proof.
  unfold and_then. rewrite outcome_bind.
  destruct (outcome a) as [[|]|]; reflexivity.
Qed.

Lemma outcome_or_else (a b : M bool) :
  outcome (a <||> b) =
  match outcome a with
  | Ok true => Ok true
  | Ok false => outcome b
  | Err e => Err e
  end.
Proof.
  unfold or_else. rewrite outcome_bind.
  destruct (outcome a) as [[|]|]; reflexivity.
Qed.

Lemma events_and_then (a b : M bool) :
  events (a <&&> b) =
  events a ++ match outcome a with Ok true => events b | _ => [] end.
Proof.
  unfold and_then. rewrite events_bind.
  destruct (outcome a) as [[|]|]; reflexivity.
Qed.

Lemma events_or_else (a b : M bool) :
  events (a <||> b) =
  events a ++ match outcome a with Ok false => events b | _ => [] end.
Proof.
  unfold or_else. rewrite events_bind.
  destruct (outcome a) as [[|]|]; reflexivity.
Qed.

Lemma decides_ret (x : bool) (P : Prop) :
  (x = true <-> P) -> decides (ret x) P.
Proof. intros H v E. inversion E. subst. exact H. Qed.

Lemma decides_and (a b : M bool) (P Q : Prop) :
  decides a P -> decides b Q -> decides (a <&&> b) (P /\ Q).
Proof.
  intros Ha Hb v. rewrite outcome_and_then.
  destruct (outcome a) as [[|]|e] eqn:Ea; [| |discriminate].
  - intros Eb. specialize (Ha true Ea). specialize (Hb v Eb). tauto.
  - intros E. inversion E. specialize (Ha false Ea).
    split; [discriminate|]. intros [HP _]. now apply Ha in HP.
Qed.

Lemma decides_or (a b : M bool) (P Q : Prop) :
  decides a P -> decides b Q -> decides (a <||> b) (P \/ Q).
Proof.
  intros Ha Hb v. rewrite outcome_or_else.
  destruct (outcome a) as [[|]|e] eqn:Ea; [| |discriminate].
  - intros E. inversion E. specialize (Ha true Ea). tauto.
  - intros Eb. specialize (Ha false Ea). specialize (Hb v Eb).
    split; [tauto|]. intros [HP | HQ]; [|tauto].
    apply Ha in HP. discriminate.
Qed.

Lemma decides_iff (m : M bool) (P Q : Prop) :
  (P <-> Q) -> decides m P -> decides m Q.
Proof. intros H D v E. specialize (D v E). tauto. Qed.

End BoolComp.

(* ================================================================== *)
(** * The two tests of a file against the criteria in words *)

Section CriteriaFacts.

Lemma extract_str (p : string) :
  extract_file_components (PyStr p)
  = Ok (fst (PosixPath.split p), base_name p, extension_of p).
Proof.
  unfold extract_file_components, base_name, extension_of.
  destruct (PosixPath.split p) as [d t]. simpl.
  destruct (PosixPath.splitext t). reflexivity.
Qed.

Lemma matches_criteria_eq (filepath : string)
  (patterns starts contains ends exts : list string)
  (filter : option predicate) :
  matches_criteria filepath patterns starts contains ends exts filter =
  ret (negb (truthy starts) || any (startswith (base_name filepath)) starts) <&&>
  ret (negb (truthy contains)
       || any (fun c => str_in c (base_name filepath)) contains) <&&>
  ret (negb (truthy ends) || any (endswith (base_name filepath)) ends) <&&>
  ret (negb (truthy exts) || any (String.eqb (extension_of filepath)) exts) <&&>
  (ret (negb (truthy patterns))
   <||> any_m (re_match_m (base_name filepath)) patterns) <&&>
  match filter with
  | None => ret true
  | Some f => call Include f filepath
  end.
Proof.
  unfold matches_criteria. rewrite extract_str, bind_lift_ok. reflexivity.
Qed.

Lemma matches_exclusion_criteria_eq (filepath : string)
  (patterns starts contains ends exts : list string)
  (filter : option predicate) :
  matches_exclusion_criteria filepath patterns starts contains ends exts filter =
  ret (truthy starts && any (startswith (base_name filepath)) starts) <||>
  ret (truthy contains
       && any (fun c => str_in c (base_name filepath)) contains) <||>
  ret (truthy ends && any (endswith (base_name filepath)) ends) <||>
  ret (truthy exts && any (String.eqb (extension_of filepath)) exts) <||>
  (ret (truthy patterns)
   <&&> any_m (re_match_m (base_name filepath)) patterns) <||>
  match filter with
  | None => ret false
  | Some f => call Exclude f filepath
  end.
Proof.
  unfold matches_exclusion_criteria. rewrite extract_str, bind_lift_ok.
  reflexivity.
Qed.

Lemma truthy_false (A : Type) (l : list A) : truthy l = false <-> l = [].
Proof. destruct l; simpl; split; congruence. Qed.

Lemma any_iff (f : string -> bool) (P : string -> Prop) (g : list string) :
  (forall x, f x = true <-> P x) ->
  (any f g = true <-> some_of g P).
Proof.
  intros H. unfold any, some_of. rewrite existsb_exists.
  split; intros [x [I T]]; exists x; split; auto; now apply H.
Qed.

Lemma include_group_iff (f : string -> bool) (P : string -> Prop)
  (g : list string) :
  (forall x, f x = true <-> P x) ->
  (negb (truthy g) || any f g = true <-> group g P).
Proof.
  intros H. unfold group.
  rewrite orb_true_iff, negb_true_iff, truthy_false, (any_iff _ _ g H).
  reflexivity.
Qed.

Lemma exclude_group_iff (f : string -> bool) (P : string -> Prop)
  (g : list string) :
  (forall x, f x = true <-> P x) ->
  (truthy g && any f g = true <-> some_of g P).
Proof.
  intros H. rewrite andb_true_iff, (any_iff _ _ g H). split; [tauto|].
  intros S. split; [|exact S]. destruct S as [x [I _]].
  apply truthy_iff. now exists x.
Qed.

Lemma decides_re_match (base p : string) :
  decides (re_match_m base p) (anchored_match p base).
Proof.
  intros v. change (outcome (re_match_m base p)) with (Re.re_match re p base).
  unfold anchored_match, Re.re_match.
  destruct (re p base) as [what|stops]; [discriminate|].
  intros E. inversion E. subst v. rewrite truthy_iff. split.
  - intros [j H]. now exists stops, j.
  - intros [stops' [j [C H]]]. inversion C. subst stops'. now exists j.
Qed.

Lemma decides_any_m (base : string) (ps : list string) :
  decides (any_m (re_match_m base) ps)
          (some_of ps (fun p => anchored_match p base)).
Proof.
  induction ps as [|p ps IH]; cbn [any_m].
  - apply decides_ret. split; [discriminate | intros [x [[] _]]].
  - eapply decides_iff; [|apply decides_or; [apply decides_re_match | exact IH]].
    unfold some_of. split.
    + intros [H | [x [I H]]]; [exists p | exists x]; simpl; auto.
    + intros [x [[<- | I] H]]; [now left | right; now exists x].
Qed.

Lemma outcome_call (w : which_filter) (f : predicate) (p : string) :
  outcome (call w f p) =
  match f p with
  | Returns b => Ok b
  | Raises e => Err e
  end.
Proof. unfold call. destruct (f p); reflexivity. Qed.

Lemma events_call (w : which_filter) (f : predicate) (p : string) :
  events (call w f p) = [EvCall w p].
Proof. unfold call. destruct (f p); reflexivity. Qed.

Lemma decides_include_filter (c : criteria) (p : string) :
  decides match c_filter c with
          | None => ret true
          | Some f => call Include f p
          end (filter_accepts c p).
Proof.
  unfold filter_accepts. destruct (c_filter c) as [f|].
  - intros v. rewrite outcome_call. destruct (f p); [|discriminate].
    intros E. inversion E. subst. split; congruence.
  - apply decides_ret. tauto.
Qed.

Lemma decides_exclude_filter (c : criteria) (p : string) :
  decides match c_filter c with
          | None => ret false
          | Some f => call Exclude f p
          end (filter_rejects c p).
Proof.
  unfold filter_rejects. destruct (c_filter c) as [f|].
  - intros v. rewrite outcome_call. destruct (f p) eqn:F; [|discriminate].
    intros E. inversion E. subst. split.
    + intros ->. now exists f.
    + intros [g [G H]]. inversion G. subst. congruence.
  - apply decides_ret. split; [discriminate | intros [f [F _]]; discriminate].
Qed.

(** [included] answers whether the file satisfies the inclusion
    criteria. *)
Lemma included_decides (c : criteria) (p : string) :
  decides (included c p) (satisfies_inclusion c p).
Proof.
  unfold included. rewrite matches_criteria_eq.
  eapply decides_iff;
    [|repeat apply decides_and;
      [apply decides_ret, include_group_iff, startswith_iff
      |apply decides_ret, include_group_iff; intros x; apply str_in_iff
      |apply decides_ret, include_group_iff, endswith_iff
      |apply decides_ret, include_group_iff; intros x; apply String.eqb_eq
      |apply decides_or;
        [apply decides_ret; rewrite negb_true_iff; apply truthy_false
        |apply decides_any_m]
      |apply decides_include_filter]].
  unfold satisfies_inclusion, include_strings, group, starts_with, ends_with.
  tauto.
Qed.

(** [excluded] answers whether the file satisfies the exclusion
    criteria. *)
Lemma excluded_decides (c : criteria) (p : string) :
  decides (excluded c p) (satisfies_exclusion c p).
Proof.
  unfold excluded. rewrite matches_exclusion_criteria_eq.
  eapply decides_iff;
    [|repeat apply decides_or;
      [apply decides_ret, exclude_group_iff, startswith_iff
      |apply decides_ret, exclude_group_iff; intros x; apply str_in_iff
      |apply decides_ret, exclude_group_iff, endswith_iff
      |apply decides_ret, exclude_group_iff; intros x; apply String.eqb_eq
      |apply decides_and;
        [apply decides_ret; reflexivity
        |apply decides_any_m]
      |apply decides_exclude_filter]].
  unfold satisfies_exclusion, exclude_strings, starts_with, ends_with.
  assert (T : forall g P, truthy g = true /\ some_of g P <-> some_of g P).
  { intros g P. split; [tauto|]. intros S. split; [|exact S].
    destruct S as [x [I _]]. apply truthy_iff. now exists x. }
  rewrite T. tauto.
Qed.

(** The test that keeps a file: included, and then not excluded. *)
Lemma keep_decides (inc exc : criteria) (p : string) :
  decides (included inc p <&&> (b <- excluded exc p ;; ret (negb b)))
          (satisfies_inclusion inc p /\ ~ satisfies_exclusion exc p).
Proof.
  apply decides_and; [apply included_decides|].
  intros v E. apply bind_ok in E as [b [Eb E]]. inversion E. subst.
  pose proof (excluded_decides exc p) as D. specialize (D _ Eb).
  destruct b; simpl.
  - split; [discriminate|]. intros N. exfalso. apply N. now apply D.
  - split; [|reflexivity]. intros _ S. apply D in S. discriminate.
Qed.

End CriteriaFacts.

(* ================================================================== *)
(** * The loops *)

Section LoopFacts.

Variables inc exc : criteria.

Lemma skipped_iff (excl : list string) (root : string) :
  skipped excl root = true <-> pruned excl root.
Proof.
  unfold skipped, pruned.
  rewrite (exclude_group_iff (fun e => str_in e root)
             (fun e => occurs_in e root) excl);
    [reflexivity | intros x; apply str_in_iff].
Qed.

Lemma skipped_not (excl : list string) (root : string) :
  skipped excl root = false <-> ~ pruned excl root.
Proof.
  rewrite <- skipped_iff. destruct (skipped excl root); split; congruence.
Qed.

Lemma scan_files_ok (root : string) (files : list string) :
  forall acc l,
    outcome (scan_files inc exc root files acc) = Ok l ->
    forall p, In p l <->
      In p acc \/
      exists file, In file files /\ p = PosixPath.join root file /\ kept inc exc p.
Proof.
  induction files as [|file t IH]; intros acc l E p.
  - inversion E. subst. split; [auto | intros [H | [f [[] _]]]; exact H].
  - cbn [scan_files] in E. apply bind_ok in E as [keep [K E]].
    apply keep_decides in K. rewrite (IH _ _ E p). fold (kept inc exc (PosixPath.join root file)) in K.
    split.
    + intros [H | [f [I [-> H]]]].
      * destruct keep; [|now left]. apply in_app_or in H as [H | [<- | []]];
          [now left|]. right. exists file. simpl. intuition.
      * right. exists f. simpl. auto.
    + intros [H | [f [[<- | I] [-> H]]]].
      * left. destruct keep; [apply in_or_app|]; auto.
      * left. apply K in H. subst keep. apply in_or_app. right. now left.
      * right. exists f. auto.
Qed.

Lemma outcome_tell_then (A : Type) (ev : event) (m : M A) :
  outcome (tell ev ;;; m) = outcome m.
Proof. unfold tell, bind. destruct m. reflexivity. Qed.

Lemma events_tell_then (A : Type) (ev : event) (m : M A) :
  events (tell ev ;;; m) = ev :: events m.
Proof. unfold tell, bind. destruct m. reflexivity. Qed.

Lemma scan_walk_ok (excl : list string)
  (entries : list (string * list string * list string)) :
  forall acc l,
    outcome (scan_walk inc exc excl entries acc) = Ok l ->
    forall p, In p l <->
      In p acc \/
      exists root dirs files file,
        In (root, dirs, files) entries /\ ~ pruned excl root /\
        In file files /\ p = PosixPath.join root file /\ kept inc exc p.
Proof.
  induction entries as [|[[root dirs] files] t IH]; intros acc l E p.
  - inversion E. subst. split; [auto|].
    intros [H | [r [d [f [x [[] _]]]]]]; exact H.
  - cbn [scan_walk] in E. rewrite outcome_tell_then in E.
    destruct (skipped excl root) eqn:S.
    + rewrite (IH _ _ E p). split.
      * intros [H | [r [d [f [x [I H]]]]]]; [now left|].
        right. exists r, d, f, x. simpl. tauto.
      * intros [H | [r [d [f [x [[I | I] H]]]]]]; [now left | |].
        -- inversion I. subst. apply skipped_iff in S. tauto.
        -- right. exists r, d, f, x. tauto.
    + apply bind_ok in E as [l' [F E]].
      rewrite (IH _ _ E p), (scan_files_ok _ _ _ F p).
      apply skipped_not in S. split.
      * intros [[H | [x [I H]]] | [r [d [f [x [I H]]]]]]; [now left | |].
        -- right. exists root, dirs, files, x. simpl. tauto.
        -- right. exists r, d, f, x. simpl. tauto.
      * intros [H | [r [d [f [x [[I | I] H]]]]]]; [now left; left | |].
        -- inversion I. subst. left. right. exists x. tauto.
        -- right. exists r, d, f, x. tauto.
Qed.

Lemma scan_directories_ok (h : Fs.host) (excl : list string)
  (directories : list string) :
  forall acc l,
    outcome (scan_directories h inc exc excl directories acc) = Ok l ->
    forall p, In p l <->
      In p acc \/
      exists directory root dirs files file,
        In directory directories /\
        In (root, dirs, files) (Fs.os_walk h directory) /\
        ~ pruned excl root /\
        In file files /\ p = PosixPath.join root file /\ kept inc exc p.
Proof.
  induction directories as [|directory t IH]; intros acc l E p.
  - inversion E. subst. split; [auto|].
    intros [H | [y [r [d [f [x [[] _]]]]]]]; exact H.
  - cbn [scan_directories] in E. apply bind_ok in E as [l' [W E]].
    rewrite (IH _ _ E p), (scan_walk_ok _ _ _ W p). split.
    + intros [[H | [r [d [f [x H]]]]] | [y [r [d [f [x [I H]]]]]]];
        [now left | |].
      * right. exists directory, r, d, f, x. simpl. tauto.
      * right. exists y, r, d, f, x. simpl. tauto.
    + intros [H | [y [r [d [f [x [[<- | I] H]]]]]]]; [now left; left | |].
      * left. right. exists r, d, f, x. tauto.
      * right. exists y, r, d, f, x. tauto.
Qed.

End LoopFacts.

(* ================================================================== *)
(** * The stages of [search_files] *)

Section StageFacts.

Lemma check_parameters_eq (params : list pyval) :
  check_parameters params =
  if forallb check_type_union params then ret tt else raise wrong_type.
Proof.
  induction params as [|v t IH]; [reflexivity|]. simpl.
  destruct (check_type_union v); simpl; [exact IH | reflexivity].
Qed.

(** When the default step goes through, the object it hands on is the
    one the loops see, and its strings are the roots. *)
Lemma default_directory_is (h : Fs.host) (a : arguments) (d : pyval) :
  outcome (default_directory h (data_to_list (include_directory a))) = Ok d ->
  d = directories h a /\ str_items d = roots h a.
Proof.
  unfold default_directory, directories, roots.
  destruct (len (data_to_list (include_directory a)) =? 0) eqn:L.
  - apply Nat.eqb_eq in L.
    destruct (data_to_list (include_directory a)) as [| | | | |l|l|l|ap l];
      simpl; try discriminate.
    + destruct l; [|discriminate]. intros E. inversion E. split; reflexivity.
    + destruct l; [|discriminate].
      destruct ap as [|e|]; simpl; try discriminate.
      intros E. inversion E. split; reflexivity.
  - intros E. inversion E. split; reflexivity.
Qed.

Lemma default_directory_ok (h : Fs.host) (a : arguments) (d : pyval) :
  outcome (default_directory h (data_to_list (include_directory a))) = Ok d ->
  str_items d = roots h a.
Proof. intros E. now apply default_directory_is in E. Qed.

Lemma default_directory_returns (h : Fs.host) (a : arguments) :
  can_default (include_directory a) ->
  exists d,
    outcome (default_directory h (data_to_list (include_directory a))) = Ok d /\
    str_items d = roots h a.
Proof.
  intros L.
  assert (R : exists d,
            outcome (default_directory h (data_to_list (include_directory a)))
            = Ok d).
  { unfold default_directory.
    destruct (len (data_to_list (include_directory a)) =? 0) eqn:Z;
      [|eexists; reflexivity].
    apply Nat.eqb_eq in Z. destruct (L Z) as [-> | ->];
      eexists; reflexivity. }
  destruct R as [d E]. exists d. split; [exact E|].
  now apply default_directory_ok.
Qed.

Lemma check_directories_ok (h : Fs.host) (dirs : list string) :
  outcome (check_directories h dirs) = Ok tt ->
  forall d, In d dirs -> Fs.isdir h d = true.
Proof.
  induction dirs as [|x t IH]; intros E d []; subst;
    cbn [check_directories] in E; rewrite outcome_tell_then in E;
    destruct (Fs.isdir h _) eqn:D; simpl in E;
    try discriminate; auto.
Qed.

(** A call that returns passed the check of the parameters, found
    every root to be a directory, and returns what the loop over the
    roots built from the empty list. *)
Lemma search_files_stages (h : Fs.host) (a : arguments) (l : list string) :
  outcome (search_files h a) = Ok l ->
  forallb check_type_union (checked_parameters a) = true /\
  (forall d, In d (roots h a) -> Fs.isdir h d = true) /\
  outcome (scan_directories h (inclusion h a) (exclusion h a) (fragments h a)
             (roots h a) []) = Ok l.
Proof.
  unfold search_files. intros E.
  apply bind_ok in E as [[] [C E]].
  apply bind_ok in E as [d [D E]].
  apply bind_ok in E as [[] [K E]].
  destruct (default_directory_is h a D) as [-> R].
  fold (inclusion h a) (exclusion h a) (fragments h a) in E.
  rewrite R in *.
  rewrite check_parameters_eq in C.
  destruct (forallb check_type_union (checked_parameters a));
    [|discriminate].
  split; [reflexivity|]. split; [|exact E].
  now apply check_directories_ok.
Qed.

End StageFacts.

(* ================================================================== *)
(** * Facts about the walk *)

Section WalkFacts.

Import Fs.

Lemma walk_eq (top : string) (entries : list node) :
  walk top entries =
  (top, dirnames entries, filenames entries) :: flat_map (under top) entries.
Proof.
  unfold walk. cbn [walk_node]. f_equal.
  induction entries as [|y t IH]; [reflexivity|].
  cbn [flat_map]. rewrite <- IH. destruct y; reflexivity.
Qed.

Lemma visits_walk (top : string) (entries : list node) (r : string)
  (below : list node) :
  visits top entries r below ->
  exists before after, walk top entries = before ++ walk r below ++ after.
Proof.
  induction 1 as [top entries | top entries n c r below I V [b [a IH]]].
  - exists [], []. now rewrite app_nil_r.
  - apply in_split in I as [l1 [l2 ->]].
    rewrite walk_eq, flat_map_app. cbn [flat_map under]. rewrite IH.
    exists ((top, dirnames (l1 ++ Dir n c :: l2),
             filenames (l1 ++ Dir n c :: l2)) :: flat_map (under top) l1 ++ b),
           (a ++ flat_map (under top) l2).
    cbn [app]. f_equal. now rewrite <- !app_assoc.
Qed.

Lemma good_name_no_start (n : string) :
  good_name n = true -> startswith n "/" = false.
Proof.
  unfold good_name. intros H. apply andb_prop in H as [_ H].
  apply negb_true_iff in H. rewrite str_in_eq in H.
  now apply orb_false_elim in H as [H _].
Qed.

(** The path of a sub-directory begins with the path of its parent. *)
Lemma join_extends (top n : string) :
  good_name n = true -> exists r, PosixPath.join top n = (top ++ r)%string.
Proof.
  intros G. unfold PosixPath.join. rewrite (good_name_no_start n G).
  destruct (String.eqb top "" || endswith top "/");
    [now exists n | now exists ("/" ++ n)%string].
Qed.

Lemma occurs_in_extends (e top r : string) :
  occurs_in e top -> occurs_in e (top ++ r).
Proof.
  intros [l [x ->]]. exists l, (x ++ r)%string. now rewrite !append_assoc.
Qed.

Lemma pruned_extends (excl : list string) (top n : string) :
  good_name n = true -> pruned excl top -> pruned excl (PosixPath.join top n).
Proof.
  intros G [e [I O]]. destruct (join_extends top n G) as [r ->].
  exists e. split; [exact I | now apply occurs_in_extends].
Qed.

(** Below a directory whose path contains a fragment, every path
    contains it. *)
Lemma pruned_walk_node (excl : list string) (x : node) :
  forall top,
    (forall n c, x = Dir n c -> good_entries c = true) ->
    pruned excl top ->
    Forall (fun t => pruned excl (fst (fst t))) (walk_node top x).
Proof.
  induction x as [n | n c IH] using node_induction; intros top G P;
    [constructor|].
  change (walk_node top (Dir n c)) with (walk top c). rewrite walk_eq.
  constructor; [exact P|].
  specialize (G n c eq_refl). clear n.
  induction c as [|y t IHt]; [constructor|].
  simpl in G. apply andb_prop in G as [Gy Gt].
  inversion IH as [|? ? IHy IHr]; subst.
  cbn [flat_map]. apply Forall_app. split; [|now apply IHt].
  destruct y as [m | m c']; [constructor|].
  simpl in Gy. apply andb_prop in Gy as [Gm Gc].
  apply IHy; [|now apply pruned_extends].
  intros n c E. inversion E. subst. exact Gc.
Qed.

Lemma pruned_walk (excl : list string) (top : string) (entries : list node) :
  good_entries entries = true -> pruned excl top ->
  Forall (fun t => pruned excl (fst (fst t))) (walk top entries).
Proof.
  intros G P. apply pruned_walk_node; [|exact P].
  intros n c E. inversion E. subst. exact G.
Qed.

Lemma empty_fragment_prunes (excl : list string) (root : string) :
  In "" excl -> pruned excl root.
Proof. intros I. exists "". split; [exact I|]. now exists "", root. Qed.

End WalkFacts.

(* ================================================================== *)
(** * Facts about pruning *)

Section PruneFacts.

Import Fs.

Lemma bind_assoc (A B C : Type) (m : M A) (f : A -> M B) (g : B -> M C) :
  bind (bind m f) g = bind m (fun x => bind (f x) g).
Proof.
  destruct m as [log [a|e]]; simpl; [|reflexivity].
  destruct (f a) as [log1 [b|e]]; simpl; [|reflexivity].
  destruct (g b) as [log2 r]. now rewrite app_assoc.
Qed.

Lemma bind_ext (A B : Type) (m : M A) (f g : A -> M B) :
  (forall x, f x = g x) -> bind m f = bind m g.
Proof.
  intros H. destruct m as [log [a|e]]; simpl; [|reflexivity]. now rewrite H.
Qed.

Variables inc exc : criteria.
Variable excl : list string.

(** The loop over a walk made of two parts is the loop over the first
    part followed by the loop over the second. *)
Lemma scan_walk_app (e1 e2 : list (string * list string * list string)) :
  forall acc,
    scan_walk inc exc excl (e1 ++ e2) acc =
    (l <- scan_walk inc exc excl e1 acc ;; scan_walk inc exc excl e2 l).
Proof.
  induction e1 as [|[[root dirs] files] t IH]; intros acc.
  - cbn [app scan_walk]. now rewrite bind_ret_l.
  - cbn [app scan_walk]. rewrite bind_assoc. apply bind_ext. intros _.
    destruct (skipped excl root); [apply IH|].
    rewrite bind_assoc. apply bind_ext. intros l. apply IH.
Qed.

Lemma pass_cons (A : Type) (x : string * list string * list string)
  (t : list (string * list string * list string)) (m : M A) :
  (pass (x :: t) ;;; m) = (tell (EvScandir (fst (fst x))) ;;; pass t ;;; m).
Proof. destruct m as [log r]. reflexivity. Qed.

(** When the path of every directory of a walk contains a fragment,
    the loop lists the directories and leaves the list as it is. *)
Lemma scan_walk_pruned (entries : list (string * list string * list string)) :
  Forall (fun t => pruned excl (fst (fst t))) entries ->
  forall acc, scan_walk inc exc excl entries acc = (pass entries ;;; ret acc).
Proof.
  induction 1 as [|[[root dirs] files] t P F IH]; intros acc; [reflexivity|].
  cbn [scan_walk]. rewrite pass_cons. simpl in P.
  apply skipped_iff in P. rewrite P. now rewrite IH.
Qed.

Lemma find_dir_good (name : string) (entries c : list node) :
  good_entries entries = true -> find_dir name entries = Some c ->
  good_entries c = true.
Proof.
  induction entries as [|[n|n c'] t IH]; simpl; [discriminate| |];
    intros G F; apply andb_prop in G as [G1 G2].
  - destruct (String.eqb n name); [discriminate | auto].
  - destruct (String.eqb n name); [|auto].
    inversion F. subst. now apply andb_prop in G1 as [_ G1].
Qed.

Lemma enter_good (stack stack' : list (list node)) (name : string) :
  Forall (fun e => good_entries e = true) stack ->
  enter stack name = Some stack' ->
  Forall (fun e => good_entries e = true) stack'.
Proof.
  unfold enter. intros G.
  destruct (String.eqb name "" || String.eqb name ".");
    [intros E; inversion E; subst; exact G|].
  destruct (String.eqb name "..").
  - destruct stack as [|x [|y t]]; intros E; inversion E; subst; auto.
    now inversion G.
  - destruct stack as [|cur t]; [discriminate|].
    destruct (find_dir name cur) as [c|] eqn:F; [|discriminate].
    intros E. inversion E. subst. constructor; [|exact G].
    inversion G; subst. now apply find_dir_good with name cur.
Qed.

Lemma enter_all_good (names : list string) :
  forall stack stack',
    Forall (fun e => good_entries e = true) stack ->
    enter_all stack names = Some stack' ->
    Forall (fun e => good_entries e = true) stack'.
Proof.
  induction names as [|n t IH]; simpl; intros stack stack' G E.
  - inversion E. now subst.
  - destruct (enter stack n) as [s1|] eqn:E1; [|discriminate].
    apply (IH s1); [|exact E]. now apply enter_good with stack n.
Qed.

(** In a host with well-formed names every directory has them. *)
Lemma lookup_dir_good (h : host) (path : string) (entries : list node) :
  good_host h = true -> lookup_dir h path = Some entries ->
  good_entries entries = true.
Proof.
  unfold good_host, lookup_dir. intros G.
  destruct (String.eqb path ""); [discriminate|].
  assert (G0 : Forall (fun e => good_entries e = true) [root_entries h])
    by (constructor; [exact G | constructor]).
  destruct (if PosixPath.isabs path then Some [root_entries h]
            else enter_all [root_entries h] (cwd_names h))
    as [start|] eqn:S; [|discriminate].
  assert (G1 : Forall (fun e => good_entries e = true) start).
  { destruct (PosixPath.isabs path); [inversion S; now subst|].
    now apply enter_all_good with (cwd_names h) [root_entries h]. }
  destruct (enter_all start (pieces path)) as [[|cur t]|] eqn:E;
    try discriminate.
  intros X. inversion X. subst.
  apply enter_all_good in E; [|exact G1]. now inversion E.
Qed.

(** A root whose own path contains a fragment is passed over with
    everything below it. *)
Lemma scan_root_pruned (h : host) (directory : string) :
  In "" excl \/ (good_host h = true /\ pruned excl directory) ->
  forall acc,
    scan_walk inc exc excl (os_walk h directory) acc =
    (pass (os_walk h directory) ;;; ret acc).
Proof.
  intros H acc. apply scan_walk_pruned.
  destruct H as [H | [G P]].
  - apply Forall_forall. intros t _. now apply empty_fragment_prunes.
  - unfold os_walk. destruct (lookup_dir h directory) as [entries|] eqn:L;
      [|constructor].
    apply pruned_walk; [|exact P]. now apply lookup_dir_good with h directory.
Qed.

End PruneFacts.

(* ================================================================== *)
(** * Facts about errors and calls *)

Section CallFacts.

Lemma events_any_m_re (base : string) (ps : list string) :
  events (any_m (re_match_m base) ps) = [].
Proof.
  induction ps as [|p t IH]; [reflexivity|]. cbn [any_m].
  rewrite events_or_else, IH.
  now destruct (outcome (re_match_m base p)) as [[|]|].
Qed.

Lemma re_match_m_err (base p : string) (e : exn) :
  outcome (re_match_m base p) = Err e -> exists what, e = ReError what.
Proof.
  change (outcome (re_match_m base p)) with (Re.re_match re p base).
  unfold Re.re_match. destruct (re p base) as [what|stops];
    [|discriminate].
  intros E. inversion E. now exists what.
Qed.

Lemma any_m_re_err (base : string) (ps : list string) (e : exn) :
  outcome (any_m (re_match_m base) ps) = Err e -> exists p, e = ReError p.
Proof.
  induction ps as [|p t IH]; [discriminate|]. cbn [any_m].
  rewrite outcome_or_else.
  destruct (outcome (re_match_m base p)) as [[|]|e'] eqn:R;
    [discriminate | exact IH|].
  intros E. inversion E. subst. now apply re_match_m_err in R.
Qed.

Lemma and_then_assoc (a b c : M bool) :
  ((a <&&> b) <&&> c) = (a <&&> (b <&&> c)).
Proof.
  unfold and_then. rewrite bind_assoc. apply bind_ext.
  intros [|]; [reflexivity | now rewrite bind_ret_l].
Qed.

Lemma or_else_assoc (a b c : M bool) :
  ((a <||> b) <||> c) = (a <||> (b <||> c)).
Proof.
  unfold or_else. rewrite bind_assoc. apply bind_ext.
  intros [|]; [now rewrite bind_ret_l | reflexivity].
Qed.

Lemma and_then_true_l (b : M bool) : (ret true <&&> b) = b.
Proof. unfold and_then. now rewrite bind_ret_l. Qed.

Lemma or_else_false_l (b : M bool) : (ret false <||> b) = b.
Proof. unfold or_else. now rewrite bind_ret_l. Qed.

(** The include test is the test on the strings and then, when that
    one is true, the custom predicate. *)
Lemma included_split (c : criteria) (p : string) :
  included c p =
  (included (strings_only c) p <&&>
   match c_filter c with
   | None => ret true
   | Some f => call Include f p
   end).
Proof.
  unfold included. rewrite !matches_criteria_eq.
  cbn [strings_only c_patterns c_starts c_contains c_ends c_exts c_filter].
  now rewrite !and_then_assoc, and_then_true_l.
Qed.

(** The exclude test is the test on the strings and then, when that
    one is false, the custom predicate. *)
Lemma excluded_split (c : criteria) (p : string) :
  excluded c p =
  (excluded (strings_only c) p <||>
   match c_filter c with
   | None => ret false
   | Some f => call Exclude f p
   end).
Proof.
  unfold excluded. rewrite !matches_exclusion_criteria_eq.
  cbn [strings_only c_patterns c_starts c_contains c_ends c_exts c_filter].
  now rewrite !or_else_assoc, or_else_false_l.
Qed.

Lemma strings_only_inclusion (c : criteria) (p : string) :
  satisfies_inclusion (strings_only c) p <-> include_strings c p.
Proof.
  unfold satisfies_inclusion, filter_accepts, include_strings. simpl. tauto.
Qed.

Lemma strings_only_exclusion (c : criteria) (p : string) :
  satisfies_exclusion (strings_only c) p <-> exclude_strings c p.
Proof.
  unfold satisfies_exclusion, filter_rejects, exclude_strings. simpl.
  split; [|tauto]. intros [H | [f [F _]]]; [exact H | discriminate].
Qed.

Lemma events_and_nil (a b : M bool) :
  events a = [] -> events b = [] -> events (a <&&> b) = [].
Proof.
  intros Ha Hb. rewrite events_and_then, Ha, Hb.
  now destruct (outcome a) as [[|]|].
Qed.

Lemma events_or_nil (a b : M bool) :
  events a = [] -> events b = [] -> events (a <||> b) = [].
Proof.
  intros Ha Hb. rewrite events_or_else, Ha, Hb.
  now destruct (outcome a) as [[|]|].
Qed.

Lemma and_then_err (a b : M bool) (e : exn) :
  outcome (a <&&> b) = Err e -> outcome a = Err e \/ outcome b = Err e.
Proof.
  rewrite outcome_and_then.
  destruct (outcome a) as [[|]|]; intros E; first [discriminate | auto].
Qed.

Lemma or_else_err (a b : M bool) (e : exn) :
  outcome (a <||> b) = Err e -> outcome a = Err e \/ outcome b = Err e.
Proof.
  rewrite outcome_or_else.
  destruct (outcome a) as [[|]|]; intros E; first [discriminate | auto].
Qed.

(** The test on the strings calls nothing. *)
Lemma included_strings_events (c : criteria) (p : string) :
  events (included (strings_only c) p) = [].
Proof.
  unfold included. rewrite matches_criteria_eq.
  cbn [strings_only c_patterns c_starts c_contains c_ends c_exts c_filter].
  repeat (apply events_and_nil; [reflexivity|]).
  apply events_and_nil; [|reflexivity].
  apply events_or_nil; [reflexivity | apply events_any_m_re].
Qed.

Lemma excluded_strings_events (c : criteria) (p : string) :
  events (excluded (strings_only c) p) = [].
Proof.
  unfold excluded. rewrite matches_exclusion_criteria_eq.
  cbn [strings_only c_patterns c_starts c_contains c_ends c_exts c_filter].
  repeat (apply events_or_nil; [reflexivity|]).
  apply events_or_nil; [|reflexivity].
  apply events_and_nil; [reflexivity | apply events_any_m_re].
Qed.

(** The test on the strings raises only for a pattern. *)
Lemma included_strings_err (c : criteria) (p : string) (e : exn) :
  outcome (included (strings_only c) p) = Err e -> exists q, e = ReError q.
Proof.
  unfold included. rewrite matches_criteria_eq.
  cbn [strings_only c_patterns c_starts c_contains c_ends c_exts c_filter].
  intros E.
  repeat (apply and_then_err in E as [E | E]; [discriminate|]).
  apply and_then_err in E as [E | E]; [|discriminate].
  apply or_else_err in E as [E | E]; [discriminate|].
  now apply any_m_re_err in E.
Qed.

Lemma excluded_strings_err (c : criteria) (p : string) (e : exn) :
  outcome (excluded (strings_only c) p) = Err e -> exists q, e = ReError q.
Proof.
  unfold excluded. rewrite matches_exclusion_criteria_eq.
  cbn [strings_only c_patterns c_starts c_contains c_ends c_exts c_filter].
  intros E.
  repeat (apply or_else_err in E as [E | E]; [discriminate|]).
  apply or_else_err in E as [E | E]; [|discriminate].
  apply and_then_err in E as [E | E]; [discriminate|].
  now apply any_m_re_err in E.
Qed.

End CallFacts.

(* ================================================================== *)
(** * Facts about the errors of the stages *)

Section ErrorFacts.

Lemma nte_bind (A B : Type) (m : M A) (k : A -> M B) :
  never_type_error m -> (forall a, never_type_error (k a)) ->
  never_type_error (bind m k).
Proof.
  intros Hm Hk msg. rewrite outcome_bind.
  destruct (outcome m) as [a|e] eqn:O; [apply Hk|].
  intros E. apply (Hm msg). congruence.
Qed.

Lemma nte_ret (A : Type) (a : A) : never_type_error (ret a).
Proof. intros msg. discriminate. Qed.

Lemma nte_tell (ev : event) : never_type_error (tell ev).
Proof. intros msg. discriminate. Qed.

Lemma nte_included (c : criteria) (p : string) :
  raises_no_type_error (c_filter c) -> never_type_error (included c p).
Proof.
  intros W msg E. rewrite included_split in E.
  apply and_then_err in E as [E | E].
  - apply included_strings_err in E as [q E]. discriminate.
  - destruct (c_filter c) as [f|] eqn:F; [|discriminate].
    rewrite outcome_call in E. destruct (f p) eqn:A; [discriminate|].
    inversion E. subst. now apply (W f p msg).
Qed.

Lemma nte_excluded (c : criteria) (p : string) :
  raises_no_type_error (c_filter c) -> never_type_error (excluded c p).
Proof.
  intros W msg E. rewrite excluded_split in E.
  apply or_else_err in E as [E | E].
  - apply excluded_strings_err in E as [q E]. discriminate.
  - destruct (c_filter c) as [f|] eqn:F; [|discriminate].
    rewrite outcome_call in E. destruct (f p) eqn:A; [discriminate|].
    inversion E. subst. now apply (W f p msg).
Qed.

Section Scans.

Variables inc exc : criteria.
Hypothesis Winc : raises_no_type_error (c_filter inc).
Hypothesis Wexc : raises_no_type_error (c_filter exc).

Lemma nte_scan_files (root : string) (files : list string) :
  forall acc, never_type_error (scan_files inc exc root files acc).
Proof.
  induction files as [|file t IH]; intros acc; [apply nte_ret|].
  cbn [scan_files]. apply nte_bind; [|intros keep; apply IH].
  unfold and_then. apply nte_bind; [now apply nte_included|].
  intros [|]; [|apply nte_ret].
  apply nte_bind; [now apply nte_excluded | intros b; apply nte_ret].
Qed.

Lemma nte_scan_walk (excl : list string)
  (entries : list (string * list string * list string)) :
  forall acc, never_type_error (scan_walk inc exc excl entries acc).
Proof.
  induction entries as [|[[root dirs] files] t IH]; intros acc;
    [apply nte_ret|].
  cbn [scan_walk]. apply nte_bind; [apply nte_tell|]. intros _.
  destruct (skipped excl root); [apply IH|].
  apply nte_bind; [apply nte_scan_files | intros l; apply IH].
Qed.

Lemma nte_scan_directories (h : Fs.host) (excl : list string)
  (dirs : list string) :
  forall acc, never_type_error (scan_directories h inc exc excl dirs acc).
Proof.
  induction dirs as [|d t IH]; intros acc; [apply nte_ret|].
  cbn [scan_directories].
  apply nte_bind; [apply nte_scan_walk | intros l; apply IH].
Qed.

End Scans.

Lemma nte_check_directories (h : Fs.host) (dirs : list string) :
  never_type_error (check_directories h dirs).
Proof.
  induction dirs as [|d t IH]; [apply nte_ret|].
  cbn [check_directories]. apply nte_bind; [apply nte_tell|]. intros _.
  destruct (negb (Fs.isdir h d)); [intros msg; discriminate | exact IH].
Qed.

Lemma nte_default_directory (h : Fs.host) (v : pyval) :
  ~ refuses_strings v ->
  never_type_error (default_directory h (data_to_list v)).
Proof.
  intros N. unfold default_directory.
  destruct (len (data_to_list v) =? 0) eqn:L; [|apply nte_ret].
  apply Nat.eqb_eq in L. intros msg.
  destruct v as [| | | | |l|l|l|ap l]; try discriminate.
  destruct l; [|discriminate].
  destruct ap as [|e|]; try discriminate.
  simpl. intros E. inversion E. subst e. apply N. now exists msg.
Qed.

Lemma isinstance_str_iff (x : pyval) :
  isinstance_str x = true <-> exists s, x = PyStr s.
Proof.
  destruct x; simpl; split; try discriminate; eauto;
    intros [s E]; discriminate.
Qed.

(** The check of one parameter accepts what conforms. *)
Lemma check_type_union_iff (v : pyval) :
  check_type_union v = true <-> conforms v.
Proof.
  assert (F : forall l, forallb isinstance_str l = true <->
                        forall x, In x l -> exists s, x = PyStr s).
  { intros l. rewrite forallb_forall.
    split; intros H x I; apply isinstance_str_iff; auto. }
  unfold conforms.
  destruct v; simpl; try rewrite F; split; intros H;
    try discriminate; eauto;
    repeat match goal with
           | H : _ \/ _ |- _ => destruct H
           | H : _ /\ _ |- _ => destruct H
           | H : exists _, _ |- _ => destruct H
           end; try discriminate; auto.
Qed.

Lemma check_fails_iff (params : list pyval) :
  forallb check_type_union params = false <->
  exists v, In v params /\ ~ conforms v.
Proof.
  split.
  - intros H. induction params as [|v t IH]; [discriminate|].
    simpl in H. apply andb_false_iff in H as [H | H].
    + exists v. split; [now left|]. rewrite <- check_type_union_iff.
      congruence.
    + destruct (IH H) as [x [I N]]. exists x. split; [now right | exact N].
  - intros [v [I N]]. destruct (forallb check_type_union params) eqn:F;
      [|reflexivity].
    rewrite forallb_forall in F. apply F in I.
    now apply check_type_union_iff in I.
Qed.

Lemma bind_err (A B : Type) (m : M A) (k : A -> M B) (e : exn) :
  outcome m = Err e -> bind m k = (events m, Err e).
Proof. destruct m as [log [a|e']]; simpl; congruence. Qed.

(** With a root that is not a directory the check of the roots ends
    with the error that names the first such root, after it looked at
    the roots before it. *)
Lemma check_directories_fails (h : Fs.host) (dirs : list string) :
  (exists d, In d dirs /\ Fs.isdir h d = false) ->
  exists d, In d dirs /\ Fs.isdir h d = false /\
    outcome (check_directories h dirs) = Err (FileNotFoundError d) /\
    Forall (fun ev => exists p, ev = EvIsdir p)
           (events (check_directories h dirs)).
Proof.
  induction dirs as [|x t IH]; intros [d [I N]]; [destruct I|].
  cbn [check_directories]. rewrite outcome_tell_then, events_tell_then.
  destruct (Fs.isdir h x) eqn:D; simpl negb; cbv iota.
  - destruct I as [-> | I]; [congruence|].
    destruct IH as [d0 [I0 [N0 [O0 E0]]]]; [now exists d|].
    exists d0. split; [now right|]. split; [exact N0|]. split; [exact O0|].
    constructor; [now exists x | exact E0].
  - exists x. split; [now left|]. split; [exact D|]. split; [reflexivity|].
    constructor; [now exists x | constructor].
Qed.

End ErrorFacts.

(* ================================================================== *)
(** * Facts about absolute paths *)

Section AbsFacts.

Import Fs.

Lemma isabs_append (a b : string) :
  PosixPath.isabs a = true -> PosixPath.isabs (a ++ b) = true.
Proof.
  unfold PosixPath.isabs. rewrite !startswith_iff. intros [r ->].
  exists (r ++ b)%string. now rewrite append_assoc.
Qed.

Lemma isabs_join (a b : string) :
  PosixPath.isabs a = true -> PosixPath.isabs (PosixPath.join a b) = true.
Proof.
  intros H. unfold PosixPath.join.
  destruct (startswith b "/") eqn:B; [exact B|].
  destruct (String.eqb a "" || endswith a "/"); now apply isabs_append.
Qed.

Lemma walk_node_abs (x : node) :
  forall top, PosixPath.isabs top = true ->
    Forall (fun t => PosixPath.isabs (fst (fst t)) = true) (walk_node top x).
Proof.
  induction x as [n | n c IH] using node_induction; intros top A;
    [constructor|].
  change (walk_node top (Dir n c)) with (walk top c). rewrite walk_eq.
  constructor; [exact A|]. clear n.
  induction IH as [|y t IHy _ IHt]; [constructor|].
  cbn [flat_map]. apply Forall_app. split; [|exact IHt].
  destruct y as [m | m c']; [constructor|].
  apply IHy. now apply isabs_join.
Qed.

Lemma os_walk_abs (h : host) (directory : string) :
  PosixPath.isabs directory = true ->
  Forall (fun t => PosixPath.isabs (fst (fst t)) = true)
         (os_walk h directory).
Proof.
  intros A. unfold os_walk. destruct (lookup_dir h directory); [|constructor].
  now apply walk_node_abs.
Qed.

Lemma getcwd_abs (h : host) : PosixPath.isabs (getcwd h) = true.
Proof.
  unfold getcwd, PosixPath.isabs.
  destruct (cwd_names h) as [|n [|m t]]; [reflexivity | |];
    apply startswith_iff; eexists; simpl; reflexivity.
Qed.

End AbsFacts.

(* ================================================================== *)
(** * When a call returns *)

Section ReturnFacts.

Lemma returns_bind (A B : Type) (m : M A) (k : A -> M B) :
  returns m -> (forall a, returns (k a)) -> returns (bind m k).
Proof.
  intros [a Ha] Hk. destruct (Hk a) as [b Hb]. exists b.
  now rewrite outcome_bind, Ha.
Qed.

Lemma returns_from (A B : Type) (m : M A) (k : A -> M B) (a : A) :
  outcome m = Ok a -> returns (k a) -> returns (bind m k).
Proof. intros Ha [b Hb]. exists b. now rewrite outcome_bind, Ha. Qed.

Lemma returns_ret (A : Type) (a : A) : returns (ret a).
Proof. now exists a. Qed.

Lemma returns_and_then (a b : M bool) :
  returns a -> returns b -> returns (a <&&> b).
Proof.
  intros Ha Hb. apply returns_bind; [exact Ha|].
  intros [|]; [exact Hb | apply returns_ret].
Qed.

Lemma returns_or_else (a b : M bool) :
  returns a -> returns b -> returns (a <||> b).
Proof.
  intros Ha Hb. apply returns_bind; [exact Ha|].
  intros [|]; [apply returns_ret | exact Hb].
Qed.

Lemma returns_any_m (base : string) (ps : list string) :
  (forall p s, In p ps -> exists stops, re p s = Re.Finds stops) ->
  returns (any_m (re_match_m base) ps).
Proof.
  induction ps as [|p t IH]; intros C; [apply returns_ret|].
  cbn [any_m]. apply returns_or_else.
  - unfold re_match_m, lift, Re.re_match.
    destruct (C p base (or_introl eq_refl)) as [stops ->].
    eexists; reflexivity.
  - apply IH. intros q s I. apply C. now right.
Qed.

Lemma returns_call (w : which_filter) (f : predicate) (p : string) :
  (exists b, f p = Returns b) -> returns (call w f p).
Proof. intros [b E]. exists b. now rewrite outcome_call, E. Qed.

Lemma returns_included (c : criteria) (p : string) :
  well_behaved c -> returns (included c p).
Proof.
  intros [C F]. unfold included. rewrite matches_criteria_eq.
  repeat (apply returns_and_then; [apply returns_ret|]).
  apply returns_and_then.
  - apply returns_or_else; [apply returns_ret | now apply returns_any_m].
  - destruct (c_filter c) as [f|] eqn:E; [|apply returns_ret].
    apply returns_call. now apply F.
Qed.

Lemma returns_excluded (c : criteria) (p : string) :
  well_behaved c -> returns (excluded c p).
Proof.
  intros [C F]. unfold excluded. rewrite matches_exclusion_criteria_eq.
  repeat (apply returns_or_else; [apply returns_ret|]).
  apply returns_or_else.
  - apply returns_and_then; [apply returns_ret | now apply returns_any_m].
  - destruct (c_filter c) as [f|] eqn:E; [|apply returns_ret].
    apply returns_call. now apply F.
Qed.

Section Loops.

Variables inc exc : criteria.
Hypothesis Winc : well_behaved inc.
Hypothesis Wexc : well_behaved exc.

Lemma returns_scan_files (root : string) (files : list string) :
  forall acc, returns (scan_files inc exc root files acc).
Proof.
  induction files as [|file t IH]; intros acc; [apply returns_ret|].
  cbn [scan_files]. apply returns_bind; [|intros keep; apply IH].
  apply returns_and_then; [now apply returns_included|].
  apply returns_bind; [now apply returns_excluded|].
  intros b. apply returns_ret.
Qed.

Lemma returns_scan_walk (excl : list string)
  (entries : list (string * list string * list string)) :
  forall acc, returns (scan_walk inc exc excl entries acc).
Proof.
  induction entries as [|[[root dirs] files] t IH]; intros acc;
    [apply returns_ret|].
  cbn [scan_walk]. apply returns_bind; [now exists tt|]. intros _.
  destruct (skipped excl root); [apply IH|].
  apply returns_bind; [apply returns_scan_files | intros l; apply IH].
Qed.

Lemma returns_scan_directories (h : Fs.host) (excl : list string)
  (dirs : list string) :
  forall acc, returns (scan_directories h inc exc excl dirs acc).
Proof.
  induction dirs as [|d t IH]; intros acc; [apply returns_ret|].
  cbn [scan_directories].
  apply returns_bind; [apply returns_scan_walk | intros l; apply IH].
Qed.

End Loops.

Lemma returns_check_directories (h : Fs.host) (dirs : list string) :
  (forall d, In d dirs -> Fs.isdir h d = true) ->
  returns (check_directories h dirs).
Proof.
  induction dirs as [|d t IH]; intros D; [apply returns_ret|].
  cbn [check_directories]. apply returns_bind; [now exists tt|]. intros _.
  rewrite (D d) by now left. simpl. apply IH. intros x I. apply D. now right.
Qed.

(** A call returns a list when its parameters pass the check, the
    object given for the root directories can stand for them, every
    root is a directory, the engine takes every pattern and the custom
    predicates return. *)
Lemma search_files_returns (h : Fs.host) (a : arguments) :
  forallb check_type_union (checked_parameters a) = true ->
  can_default (include_directory a) ->
  (forall d, In d (roots h a) -> Fs.isdir h d = true) ->
  well_behaved (inclusion h a) ->
  well_behaved (exclusion h a) ->
  returns (search_files h a).
Proof.
  intros C L D Wi We. unfold search_files.
  rewrite check_parameters_eq, C, bind_ret_l.
  destruct (default_directory_returns h a L) as [d [E S]].
  destruct (default_directory_is h a E) as [-> _].
  apply returns_from with (directories h a); [exact E|]. rewrite S.
  apply returns_bind; [now apply returns_check_directories|]. intros _.
  now apply returns_scan_directories.
Qed.

End ReturnFacts.

(* ================================================================== *)
(** * The claims *)

(** C1, at a list given twice.  When one empty list is given as
    [include_directory] and as [exclude_subdirectory], the default puts
    the working directory into that list, and so among the fragments
    that prune: every directory of the walk is skipped and the call
    returns nothing.  The caller declared no fragment and no filter,
    so every file of the working directory satisfies what the claim
    asks for, [/d/a.py] among them; and the same call with a list of
    its own for [include_directory] returns the three files. *)
Theorem shared_empty_list_returns_nothing :
  outcome (search_files demo_host shared_list) = Ok [] /\
  (given shared_list Exclude_subdirectory = [] /\
   given_inclusion shared_list = no_criteria /\
   given_exclusion shared_list = no_criteria) /\
  (candidate demo_host shared_list "/d" "/d/a.py" /\
   ~ pruned (given shared_list Exclude_subdirectory) "/d" /\
   satisfies_inclusion (given_inclusion shared_list) "/d/a.py" /\
   ~ satisfies_exclusion (given_exclusion shared_list) "/d/a.py") /\
  fragments demo_host shared_list = ["/d"] /\
  outcome (search_files demo_host (with_directory (PyList []) shared_list))
  = Ok ["/d/a.py"; "/d/b.txt"; "/d/sub/c.py"].
Proof.
  split; [vm_compute; reflexivity|].
  split; [repeat split|].
  split; [|split; vm_compute; reflexivity].
  split; [|split; [|split]].
  - exists "/d", ["sub"], ["a.py"; "b.txt"], "a.py". vm_compute. auto.
  - intros [e [[] _]].
  - repeat split; now left.
  - intros [[[x [[] _]] | [[x [[] _]] | [[x [[] _]] | [[x [[] _]]
            | [x [[] _]]]]]] | [f [F _]]]; discriminate.
Qed.

(** C2, amended.  In a host whose names are well formed, when the walk
    of a root reaches a directory whose path has one of the
    [exclude_subdirectory] fragments somewhere in it (as a piece of
    text, not as a whole name), the part of the walk made of that
    directory and of everything below it is passed over: its
    directories are still listed, each is skipped in turn, no file in
    them is tested, and the list of results leaves that part as it
    entered it. *)
Theorem pruned_directory_is_passed_over (h : Fs.host) (inc exc : criteria)
  (excl : list string) (directory : string) (entries : list Fs.node)
  (r : string) (below : list Fs.node) :
  Fs.good_host h = true ->
  Fs.lookup_dir h directory = Some entries ->
  Fs.visits directory entries r below ->
  (exists e, In e excl /\ exists left right, r = (left ++ e ++ right)%string) ->
  exists before after,
    Fs.os_walk h directory = before ++ Fs.walk r below ++ after /\
    forall acc,
      scan_walk inc exc excl (Fs.os_walk h directory) acc =
      (l <- scan_walk inc exc excl before acc ;;
       pass (Fs.walk r below) ;;;
       scan_walk inc exc excl after l).
Proof.
  intros G L V P.
  assert (Gb : Fs.good_entries below = true).
  { apply lookup_dir_good in L; [|exact G]. clear G P.
    induction V as [|top entries n c r below I V IH]; [exact L|].
    apply IH. unfold Fs.good_entries in L.
    rewrite forallb_forall in L. apply L in I. simpl in I.
    now apply andb_prop in I as [_ I]. }
  destruct (visits_walk V) as [before [after W]].
  exists before, after. unfold Fs.os_walk. rewrite L. split; [exact W|].
  intros acc. rewrite W, scan_walk_app. apply bind_ext. intros l.
  rewrite scan_walk_app.
  rewrite (@scan_walk_pruned inc exc excl _ (@pruned_walk excl r below Gb P)).
  now rewrite bind_assoc, bind_ret_l.
Qed.

(** C3, at the empty tuple.  The check of the parameters accepts the
    empty tuple as [include_directory]; the default is then applied
    with [append], which a tuple does not have, and the call ends with
    an attribute error instead of searching the working directory. *)
Theorem empty_tuple_directory_raises :
  check_type_union (PyTuple []) = true /\
  search_files demo_host
    (request (PyTuple []) PyNone PyNone PyNone PyNone PyNone)
  = ([], Err (AttributeError "'tuple' object has no attribute 'append'")).
Proof. split; reflexivity. Qed.

(** C3, for an absent [include_directory] and for the empty list: the
    working directory is the one root, and the call goes on as for a
    declared root. *)
Lemma absent_directory_searches_cwd (h : Fs.host) (a : arguments) :
  include_directory a = PyNone \/ include_directory a = PyList [] ->
  forallb check_type_union (checked_parameters a) = true ->
  roots h a = [Fs.getcwd h] /\
  search_files h a =
  (tell EvGetcwd ;;;
   check_directories h [Fs.getcwd h] ;;;
   scan_directories h (inclusion h a) (exclusion h a) (fragments h a)
     [Fs.getcwd h] []).
Proof.
  intros D C.
  assert (E : data_to_list (include_directory a) = PyList [])
    by (destruct D as [-> | ->]; reflexivity).
  assert (Dd : directories h a = PyList [PyStr (Fs.getcwd h)])
    by (unfold directories; rewrite E; reflexivity).
  unfold roots, inclusion, exclusion, fragments, search_files.
  rewrite check_parameters_eq, C, bind_ret_l, E, Dd. split; [reflexivity|].
  unfold default_directory.
  cbn [len items List.length Nat.eqb getattr_append app].
  rewrite bind_lift_ok, !bind_assoc. apply bind_ext. intros [].
  now rewrite bind_lift_ok.
Qed.

(** C4, amended.  When every declared root directory is an absolute
    path (as the documentation of [include_directory] asks), or none is
    declared and the working directory is used, every path a call
    returns is absolute. *)
Theorem absolute_roots_give_absolute_paths (h : Fs.host) (a : arguments)
  (l : list string) :
  outcome (search_files h a) = Ok l ->
  (forall d, In d (declared a) -> PosixPath.isabs d = true) ->
  forall p, In p l -> PosixPath.isabs p = true.
Proof.
  intros E A p I. apply search_files_stages in E as [_ [_ E]].
  apply (scan_directories_ok _ _ _ _ _ _ E p) in I
    as [[] | [d [root [dirs [files [file [Id [Iw [_ [_ [-> _]]]]]]]]]]].
  apply isabs_join.
  assert (Ad : PosixPath.isabs d = true).
  { unfold roots in Id.
    destruct (len (data_to_list (include_directory a)) =? 0).
    - destruct Id as [<- | []]. apply getcwd_abs.
    - now apply A. }
  pose proof (os_walk_abs h d Ad) as W. rewrite Forall_forall in W.
  exact (W _ Iw).
Qed.

(** C5, amended.  When one of the twelve checked parameters (the two
    custom predicates are not among them) is something else than
    nothing, a string, or a sequence of strings, the call ends with the
    type error of the check, and nothing has been done before it: no
    access to the filesystem, no call of a predicate.  The custom
    predicates are never checked; as long as they raise no type error
    themselves, a call ends with a type error only in that case.  (An
    empty sequence given as [include_directory] whose [append] refuses
    a string is left aside: the check lets it through, as it lets the
    empty tuple through.) *)
Theorem type_error_comes_from_the_check (h : Fs.host) (a : arguments) :
  ((exists v, In v (checked_parameters a) /\ ~ conforms v) ->
   search_files h a = ([], Err wrong_type)) /\
  (raises_no_type_error (include_filter a) ->
   raises_no_type_error (exclude_filter a) ->
   ~ refuses_strings (include_directory a) ->
   ((exists msg, outcome (search_files h a) = Err (TypeError msg)) <->
    (exists v, In v (checked_parameters a) /\ ~ conforms v))).
Proof.
  assert (R : (exists v, In v (checked_parameters a) /\ ~ conforms v) ->
              search_files h a = ([], Err wrong_type)).
  { intros B. apply check_fails_iff in B. unfold search_files.
    rewrite check_parameters_eq, B. reflexivity. }
  split; [exact R|]. intros Wi We Wd. split.
  - intros [msg E]. apply check_fails_iff.
    destruct (forallb check_type_union (checked_parameters a)) eqn:C;
      [|reflexivity].
    exfalso. revert E. unfold search_files.
    rewrite check_parameters_eq, C, bind_ret_l.
    apply nte_bind; [now apply nte_default_directory|]. intros d.
    apply nte_bind; [apply nte_check_directories|]. intros _.
    now apply nte_scan_directories.
  - intros B. rewrite (R B). now exists "A Parameter is of the wrong type.".
Qed.

(** C6.  When the parameters pass the check and some declared root is
    not an existing directory, the call ends with the not-found error
    that names such a root (the first one), and all it has done is to
    test roots: no directory has been listed and no file tested, so
    nothing is returned. *)
Theorem missing_root_raises_not_found (h : Fs.host) (a : arguments) :
  forallb check_type_union (checked_parameters a) = true ->
  (exists d, In d (declared a) /\ Fs.isdir h d = false) ->
  exists d,
    In d (declared a) /\ Fs.isdir h d = false /\
    outcome (search_files h a) = Err (FileNotFoundError d) /\
    Forall (fun ev => exists p, ev = EvIsdir p) (events (search_files h a)).
Proof.
  intros C B. unfold search_files. rewrite check_parameters_eq, C, bind_ret_l.
  assert (D : default_directory h (data_to_list (include_directory a))
              = ret (data_to_list (include_directory a))).
  { unfold default_directory.
    destruct (len (data_to_list (include_directory a)) =? 0) eqn:L;
      [|reflexivity].
    exfalso. destruct B as [d [I _]]. unfold declared, str_items in I.
    apply Nat.eqb_eq in L. unfold len in L.
    apply length_zero_iff_nil in L. rewrite L in I. exact I. }
  rewrite D, bind_ret_l. fold (declared a).
  destruct (@check_directories_fails h (declared a) B) as [d [I [N [O E]]]].
  exists d. rewrite (@bind_err _ _ _ _ _ O). auto.
Qed.

(** C7.  A pattern given as [include_pattern] or [exclude_pattern] is
    tested against the base-name of the file (no directory, no
    extension) with [re.match], whatever the pattern and whatever the
    engine: the test with one pattern ends as [re.match] on the
    base-name ends, with its answer or with its exception, and that
    answer is true exactly when the engine finds a match of the
    pattern from position zero of the base-name up to some position,
    not necessarily the last.  In a group of patterns, the include
    test is true only if some pattern matches in this way, and the
    exclude test is false only if none does. *)
Theorem pattern_is_matched_at_start (filepath pattern : string) :
  outcome (included (only_pattern pattern) filepath)
  = Re.re_match re pattern (base_name filepath) /\
  outcome (excluded (only_pattern pattern) filepath)
  = Re.re_match re pattern (base_name filepath) /\
  (Re.re_match re pattern (base_name filepath) = Ok true <->
   anchored_match pattern (base_name filepath)) /\
  (forall c : criteria,
     outcome (included c filepath) = Ok true ->
     group (c_patterns c) (fun q => anchored_match q (base_name filepath))) /\
  (forall c : criteria,
     outcome (excluded c filepath) = Ok false ->
     ~ some_of (c_patterns c)
         (fun q => anchored_match q (base_name filepath))).
Proof.
  split; [|split; [|split; [|split]]].
  - unfold included, only_pattern. rewrite matches_criteria_eq. simpl.
    unfold re_match_m.
    now destruct (Re.re_match re pattern (base_name filepath)) as [[|]|].
  - unfold excluded, only_pattern. rewrite matches_exclusion_criteria_eq.
    simpl. unfold re_match_m.
    now destruct (Re.re_match re pattern (base_name filepath)) as [[|]|].
  - split.
    + intros E.
      now apply (@decides_re_match (base_name filepath) pattern true E).
    + intros [stops [k [C I]]]. unfold Re.re_match. rewrite C. f_equal.
      apply truthy_iff. now exists k.
  - intros c E.
    pose proof (proj1 (@included_decides c filepath true E) eq_refl) as S.
    apply S.
  - intros c E X.
    pose proof (proj2 (@excluded_decides c filepath false E)) as S.
    assert (F : false = true); [|discriminate].
    apply S. left. unfold exclude_strings. tauto.
Qed.

(** C8.  For every string [P], [extract_file_components] returns a
    triple, and joining its directory with its base-name followed by its
    extension gives a path that is [P] up to runs of separators (with
    or without a directory component); for every object that is not a
    string it raises the type error. *)
Theorem extract_file_components_roundtrip :
  (forall P : string,
     exists directory name extension,
       extract_file_components (PyStr P) = Ok (directory, name, extension) /\
       PosixPath.equiv
         (PosixPath.join directory (name ++ extension)%string) P) /\
  (forall v : pyval,
     isinstance_str v = false ->
     extract_file_components v
     = Err (TypeError "Parameter filepath is not string.")).
Proof.
  split.
  - intros P. exists (fst (PosixPath.split P)), (base_name P), (extension_of P).
    split; [apply extract_str|].
    unfold base_name, extension_of. rewrite splitext_append.
    apply join_split.
  - intros [] H; try reflexivity. discriminate.
Qed.

(** C9.  The custom predicates are called last and only when needed.
    [include_filter] is called, with the path of the file, only when
    the base-name and the extension satisfy every include group;
    [exclude_filter] only when no exclude group matched.  For a file
    the groups decide (an include group refused it, an exclude group
    matched it) the test runs as if there were no custom predicate:
    the predicate is not called, and what it would raise is not
    raised. *)
Theorem custom_predicates_are_called_last (inc exc : criteria) (p : string) :
  (forall w q, In (EvCall w q) (events (included inc p)) ->
     w = Include /\ q = p /\ include_strings inc p) /\
  (forall w q, In (EvCall w q) (events (excluded exc p)) ->
     w = Exclude /\ q = p /\ ~ exclude_strings exc p) /\
  (~ include_strings inc p ->
     included inc p = included (strings_only inc) p /\
     calls_nothing (included inc p)) /\
  (exclude_strings exc p ->
     excluded exc p = excluded (strings_only exc) p /\
     calls_nothing (excluded exc p)).
Proof.
  pose proof (included_decides (strings_only inc) p) as DI.
  pose proof (excluded_decides (strings_only exc) p) as DE.
  assert (SI : ~ include_strings inc p ->
               included inc p = included (strings_only inc) p).
  { intros N. rewrite included_split. unfold and_then.
    destruct (included (strings_only inc) p) as [log [[|]|e]] eqn:S; simpl;
      [|now rewrite app_nil_r | reflexivity].
    exfalso. apply N.
    exact (proj1 (strings_only_inclusion _ _)
             (proj1 (DI true eq_refl) eq_refl)). }
  assert (SE : exclude_strings exc p ->
               excluded exc p = excluded (strings_only exc) p).
  { intros X. rewrite excluded_split. unfold or_else.
    destruct (excluded (strings_only exc) p) as [log [[|]|e]] eqn:S; simpl;
      [now rewrite app_nil_r | | reflexivity].
    apply (proj2 (strings_only_exclusion _ _)) in X.
    pose proof (proj2 (DE false eq_refl) X). discriminate. }
  split; [|split; [|split]].
  - intros w q H.
    rewrite included_split, events_and_then, included_strings_events in H.
    destruct (outcome (included (strings_only inc) p)) as [[|]|] eqn:O;
      try destruct H.
    destruct (c_filter inc); [|destruct H].
    rewrite events_call in H. destruct H as [H | []]. inversion H. subst.
    split; [reflexivity|]. split; [reflexivity|].
    exact (proj1 (strings_only_inclusion _ _) (proj1 (DI true O) eq_refl)).
  - intros w q H.
    rewrite excluded_split, events_or_else, excluded_strings_events in H.
    destruct (outcome (excluded (strings_only exc) p)) as [[|]|] eqn:O;
      try destruct H.
    destruct (c_filter exc); [|destruct H].
    rewrite events_call in H. destruct H as [H | []]. inversion H. subst.
    split; [reflexivity|]. split; [reflexivity|].
    intros X. apply (proj2 (strings_only_exclusion _ _)) in X.
    pose proof (proj2 (DE false O) X). discriminate.
  - intros N. split; [now apply SI|].
    intros w q. rewrite (SI N), included_strings_events. intros [].
  - intros X. split; [now apply SE|].
    intros w q. rewrite (SE X), excluded_strings_events. intros [].
Qed.

(** A predicate that would raise is not called for a file the include
    groups refuse. *)
Example predicate_not_called :
  included (guarded "report") "/r/secret_report.txt" = ([], Ok false) /\
  included (guarded "report") "/r/report_draft.txt"
  = ([EvCall Include "/r/report_draft.txt"], Ok true) /\
  included (guarded "report") "/r/report_secret.txt"
  = ([EvCall Include "/r/report_secret.txt"], Err (OtherError "boom")).
Proof. vm_compute. repeat split. Qed.

(** C10.  In a host whose names are well formed, when some
    [exclude_subdirectory] fragment is the empty string or occurs in
    the path of a root directory, the loop lists the directories of
    the walk of that root and goes on to the next root with the list
    of results as it was: the root contributes no file. *)
Theorem pruned_root_contributes_nothing (h : Fs.host) (inc exc : criteria)
  (excl : list string) (directory : string) (rest : list string)
  (acc : list string) :
  Fs.good_host h = true ->
  (exists e, In e excl /\ (e = "" \/ occurs_in e directory)) ->
  scan_directories h inc exc excl (directory :: rest) acc =
  (pass (Fs.os_walk h directory) ;;;
   scan_directories h inc exc excl rest acc).
Proof.
  intros G [e [I O]]. cbn [scan_directories].
  rewrite (@scan_root_pruned inc exc excl h directory).
  - now rewrite bind_assoc, bind_ret_l.
  - right. split; [exact G|]. exists e. split; [exact I|].
    destruct O as [-> | O]; [now exists "", directory | exact O].
Qed.

(* ================================================================== *)
(** * Further properties of the two functions *)

Section ListFacts.

Variables inc exc : criteria.

Lemma keeps_eq (p : string) (keep : bool) :
  outcome (included inc p <&&> (b <- excluded exc p ;; ret (negb b)))
  = Ok keep ->
  keeps inc exc p = keep.
Proof. unfold keeps. intros ->. now destruct keep. Qed.

Lemma scan_files_list (root : string) (files : list string) :
  forall acc l,
    outcome (scan_files inc exc root files acc) = Ok l ->
    l = acc ++ filter (keeps inc exc) (map (PosixPath.join root) files).
Proof.
  induction files as [|file t IH]; intros acc l E.
  - inversion E. now rewrite app_nil_r.
  - cbn [scan_files] in E. apply bind_ok in E as [keep [K E]].
    apply keeps_eq in K. apply IH in E. cbn [map filter]. rewrite K, E.
    destruct keep; [now rewrite <- app_assoc | reflexivity].
Qed.

Lemma scan_walk_list (excl : list string)
  (entries : list (string * list string * list string)) :
  forall acc l,
    outcome (scan_walk inc exc excl entries acc) = Ok l ->
    l = acc ++ selection inc exc excl entries.
Proof.
  induction entries as [|[[root dirs] files] t IH]; intros acc l E.
  - inversion E. now rewrite app_nil_r.
  - cbn [scan_walk] in E. rewrite outcome_tell_then in E.
    unfold selection. cbn [flat_map fst snd]. fold (selection inc exc excl t).
    destruct (skipped excl root).
    + now apply IH.
    + apply bind_ok in E as [l' [F E]]. apply scan_files_list in F.
      apply IH in E. rewrite E, F. unfold paths_of. cbn [fst snd].
      now rewrite <- app_assoc.
Qed.

Lemma scan_directories_list (h : Fs.host) (excl : list string)
  (dirs : list string) :
  forall acc l,
    outcome (scan_directories h inc exc excl dirs acc) = Ok l ->
    l = acc ++ flat_map (fun d => selection inc exc excl (Fs.os_walk h d)) dirs.
Proof.
  induction dirs as [|d t IH]; intros acc l E.
  - inversion E. now rewrite app_nil_r.
  - cbn [scan_directories] in E. apply bind_ok in E as [l' [W E]].
    apply scan_walk_list in W. apply IH in E. cbn [flat_map].
    now rewrite E, W, <- app_assoc.
Qed.

End ListFacts.

(** X1.  The list a call returns is built in the order of the
    traversal and nothing is removed from it afterwards: the roots in
    the order they are declared, for each root the directories in the
    order of its walk, and in each directory that is not skipped the
    files in the order they are listed, each kept or not by the test
    of that file alone. *)
Theorem result_follows_the_traversal (h : Fs.host) (a : arguments)
  (l : list string) :
  outcome (search_files h a) = Ok l ->
  l = flat_map (fun d => selection (inclusion h a) (exclusion h a) (fragments h a)
                           (Fs.os_walk h d))
               (roots h a).
Proof.
  intros E. apply search_files_stages in E as [_ [_ E]].
  now apply scan_directories_list in E.
Qed.

Section ShiftFacts.

Variables inc exc : criteria.

Lemma scan_files_carried (root : string) (files : list string) :
  forall acc,
    outcome (scan_files inc exc root files acc) =
    carried acc (outcome (scan_files inc exc root files [])).
Proof.
  induction files as [|file t IH]; intros acc.
  - simpl. now rewrite app_nil_r.
  - cbn [scan_files]. rewrite !outcome_bind.
    destruct (outcome (included inc (PosixPath.join root file) <&&> _))
      as [keep|e]; [|reflexivity].
    rewrite IH. rewrite (IH (if keep then [] ++ _ else [])).
    destruct (outcome (scan_files inc exc root t [])) as [k|e];
      [|reflexivity].
    destruct keep; simpl; now rewrite <- ?app_assoc.
Qed.

Lemma scan_walk_carried (excl : list string)
  (entries : list (string * list string * list string)) :
  forall acc,
    outcome (scan_walk inc exc excl entries acc) =
    carried acc (outcome (scan_walk inc exc excl entries [])).
Proof.
  induction entries as [|[[root dirs] files] t IH]; intros acc.
  - simpl. now rewrite app_nil_r.
  - cbn [scan_walk]. rewrite !outcome_tell_then.
    destruct (skipped excl root); [apply IH|].
    rewrite !outcome_bind, scan_files_carried.
    destruct (outcome (scan_files inc exc root files [])) as [k|e];
      [|reflexivity].
    cbn [carried]. rewrite IH, (IH k).
    destruct (outcome (scan_walk inc exc excl t [])) as [k'|e];
      [|reflexivity].
    simpl. now rewrite app_assoc.
Qed.

Lemma scan_directories_carried (h : Fs.host) (excl : list string)
  (dirs : list string) :
  forall acc,
    outcome (scan_directories h inc exc excl dirs acc) =
    carried acc (outcome (scan_directories h inc exc excl dirs [])).
Proof.
  induction dirs as [|d t IH]; intros acc.
  - simpl. now rewrite app_nil_r.
  - cbn [scan_directories]. rewrite !outcome_bind, scan_walk_carried.
    destruct (outcome (scan_walk inc exc excl (Fs.os_walk h d) []))
      as [k|e]; [|reflexivity].
    cbn [carried]. rewrite IH, (IH k).
    destruct (outcome (scan_directories h inc exc excl t [])) as [k'|e];
      [|reflexivity].
    simpl. now rewrite app_assoc.
Qed.

Lemma scan_directories_app (h : Fs.host) (excl : list string)
  (d1 d2 : list string) :
  forall acc,
    scan_directories h inc exc excl (d1 ++ d2) acc =
    (l <- scan_directories h inc exc excl d1 acc ;;
     scan_directories h inc exc excl d2 l).
Proof.
  induction d1 as [|d t IH]; intros acc.
  - cbn [app scan_directories]. now rewrite bind_ret_l.
  - cbn [app scan_directories]. rewrite bind_assoc. apply bind_ext.
    intros l. apply IH.
Qed.

End ShiftFacts.

Section BuildFacts.

Lemma check_directories_passes (h : Fs.host) (dirs : list string) :
  (forall d, In d dirs -> Fs.isdir h d = true) ->
  outcome (check_directories h dirs) = Ok tt.
Proof.
  intros D. destruct (@returns_check_directories h dirs D) as [[] E].
  exact E.
Qed.

(** The outcome of a call whose parameters pass the check and whose
    roots are directories is the outcome of the loop over the roots. *)
Lemma search_files_outcome (h : Fs.host) (a : arguments) :
  forallb check_type_union (checked_parameters a) = true ->
  can_default (include_directory a) ->
  (forall d, In d (roots h a) -> Fs.isdir h d = true) ->
  outcome (search_files h a) =
  outcome (scan_directories h (inclusion h a) (exclusion h a) (fragments h a)
             (roots h a) []).
Proof.
  intros C L D. unfold search_files.
  rewrite check_parameters_eq, C, bind_ret_l.
  destruct (default_directory_returns h a L) as [d [E S]].
  destruct (default_directory_is h a E) as [-> _].
  rewrite outcome_bind, E, S, outcome_bind.
  now rewrite (check_directories_passes h _ D).
Qed.

(** When every variable is bound to an object of its own, the loops
    read the strings the caller gave. *)
Lemma unshared_variable (a : arguments) (d : pyval) (p : parameter) :
  unshared a -> variable a d p = data_to_list (argument a p).
Proof.
  intros U. unfold variable. destruct (shares a p) eqn:S; [|reflexivity].
  now rewrite (U p S).
Qed.

Lemma unshared_criteria (h : Fs.host) (a : arguments) :
  unshared a ->
  inclusion h a = given_inclusion a /\
  exclusion h a = given_exclusion a /\
  fragments h a = given a Exclude_subdirectory.
Proof.
  intros U.
  unfold inclusion, exclusion, fragments, inclusion_in, exclusion_in,
    fragments_in, given_inclusion, given_exclusion, given.
  now rewrite !unshared_variable.
Qed.

Lemma can_default_of_return (h : Fs.host) (a : arguments) (l : list string) :
  outcome (search_files h a) = Ok l -> can_default (include_directory a).
Proof.
  unfold search_files, can_default. intros E Z.
  apply bind_ok in E as [[] [_ E]]. apply bind_ok in E as [d [E _]].
  unfold default_directory in E. rewrite Z in E. simpl in E.
  unfold len in Z. apply length_zero_iff_nil in Z.
  destruct (data_to_list (include_directory a)) as [| | | | |x|x|x|ap x];
    simpl in *; try discriminate; subst; [now left|].
  destruct ap; try discriminate. now right.
Qed.

End BuildFacts.

Section PlainFacts.

Lemma included_none (p : string) : included no_criteria p = ret true.
Proof. unfold included. now rewrite matches_criteria_eq. Qed.

Lemma excluded_none (p : string) : excluded no_criteria p = ret false.
Proof. unfold excluded. now rewrite matches_exclusion_criteria_eq. Qed.

Lemma keeps_none (p : string) : keeps no_criteria no_criteria p = true.
Proof. unfold keeps. now rewrite included_none, excluded_none. Qed.

Lemma selection_none (entries : list (string * list string * list string)) :
  selection no_criteria no_criteria [] entries = all_files entries.
Proof.
  unfold selection, all_files. induction entries as [|t r IH]; [reflexivity|].
  cbn [flat_map]. rewrite IH. f_equal. cbn [skipped truthy andb].
  induction (paths_of t) as [|p l IHl]; [reflexivity|].
  cbn [filter]. now rewrite keeps_none, IHl.
Qed.

Lemma well_behaved_none : well_behaved no_criteria.
Proof. split; [intros p s [] | intros f p E; discriminate]. Qed.

(** A walk in which there is nothing to test: each directory is
    skipped or holds no file. *)
Lemma scan_walk_idle (inc exc : criteria) (excl : list string)
  (entries : list (string * list string * list string)) :
  Forall (fun t => skipped excl (fst (fst t)) = true \/ snd t = []) entries ->
  forall acc, scan_walk inc exc excl entries acc = (pass entries ;;; ret acc).
Proof.
  induction 1 as [|[[root dirs] files] t P F IH]; intros acc; [reflexivity|].
  cbn [scan_walk]. rewrite pass_cons. simpl in P.
  destruct P as [P | ->].
  - rewrite P. now rewrite IH.
  - destruct (skipped excl root); rewrite ?IH; [reflexivity|].
    cbn [scan_files]. now rewrite bind_ret_l, IH.
Qed.

Lemma flat_map_nil (A B : Type) (f : A -> list B) (l : list A) :
  (forall x, In x l -> f x = []) -> flat_map f l = [].
Proof.
  induction l as [|x t IH]; intros H; [reflexivity|]. cbn [flat_map].
  rewrite (H x) by now left. apply IH. intros y I. apply H. now right.
Qed.

End PlainFacts.

(** X2.  With every filter absent or empty, a call returns the
    paths of all the files of the walks of its roots, in the order of
    the traversal, provided that its parameters pass the check, that
    the object given as [include_directory], if it is empty, is absent
    or a list or another sequence whose [append] takes a string, that
    no other parameter was given that object, and that its roots are
    directories. *)
Theorem no_filter_returns_every_file (h : Fs.host) (a : arguments) :
  forallb check_type_union (checked_parameters a) = true ->
  can_default (include_directory a) ->
  unshared a ->
  (forall d, In d (roots h a) -> Fs.isdir h d = true) ->
  given_inclusion a = no_criteria ->
  given_exclusion a = no_criteria ->
  given a Exclude_subdirectory = [] ->
  outcome (search_files h a)
  = Ok (flat_map (fun d => all_files (Fs.os_walk h d)) (roots h a)).
Proof.
  intros C L U D I X F.
  destruct (unshared_criteria h U) as [Ei [Ex Ef]].
  rewrite <- Ei in I. rewrite <- Ex in X. rewrite <- Ef in F.
  destruct (@search_files_returns h a C L D) as [l E];
    [rewrite I; apply well_behaved_none
    |rewrite X; apply well_behaved_none|].
  rewrite E. f_equal. apply search_files_stages in E as [_ [_ E]].
  apply scan_directories_list in E. rewrite E, I, X, F. cbn [app].
  clear. induction (roots h a) as [|d t IH]; [reflexivity|].
  cbn [flat_map]. now rewrite IH, selection_none.
Qed.

(** X3.  When no directory of the walks holds a file to test (each one
    is skipped or holds no file), a call whose parameters pass the
    check and whose roots are directories returns the empty list,
    whatever the patterns and the custom predicates are: a pattern
    that does not compile and a predicate that raises are harmless as
    long as no file reaches them. *)
Theorem nothing_to_test_returns_nothing (h : Fs.host) (a : arguments) :
  forallb check_type_union (checked_parameters a) = true ->
  can_default (include_directory a) ->
  (forall d, In d (roots h a) -> Fs.isdir h d = true) ->
  (forall d root dirs files,
     In d (roots h a) -> In (root, dirs, files) (Fs.os_walk h d) ->
     skipped (fragments h a) root = true \/ files = []) ->
  outcome (search_files h a) = Ok [].
Proof.
  intros C L D N. rewrite (search_files_outcome h a C L D).
  revert N. generalize (roots h a) as ds. intros ds N.
  induction ds as [|d t IH]; [reflexivity|].
  cbn [scan_directories]. rewrite scan_walk_idle.
  - rewrite bind_assoc, bind_ret_l. unfold pass.
    rewrite outcome_bind. cbn [outcome snd]. apply IH.
    intros d' root dirs files I. apply N. now right.
  - apply Forall_forall. intros [[root dirs] files] I.
    apply (N d root dirs files); [now left | exact I].
Qed.

Section RootsFacts.

Lemma check_strings (ds : list string) :
  check_type_union (PyList (map PyStr ds)) = true.
Proof. simpl. induction ds as [|d t IH]; [reflexivity | exact IH]. Qed.

Lemma str_items_strings (ds : list string) :
  str_items (PyList (map PyStr ds)) = ds.
Proof.
  unfold str_items. simpl. induction ds as [|d t IH]; [reflexivity|].
  simpl. now rewrite IH.
Qed.

Lemma roots_with_directory (h : Fs.host) (a : arguments) (ds : list string) :
  ds <> [] -> roots h (with_directory (PyList (map PyStr ds)) a) = ds.
Proof.
  intros N. unfold roots. cbn [with_directory include_directory data_to_list].
  unfold len. cbn [items]. rewrite length_map.
  destruct ds as [|d t]; [contradiction|]. cbn [List.length Nat.eqb].
  apply str_items_strings.
Qed.

Lemma check_with_directory (a : arguments) (v w : pyval) :
  forallb check_type_union (checked_parameters (with_directory v a)) = true ->
  check_type_union w = true ->
  forallb check_type_union (checked_parameters (with_directory w a)) = true.
Proof.
  unfold checked_parameters. cbn [with_directory include_directory
    include_pattern include_start include_content include_end
    include_extension exclude_subdirectory exclude_pattern exclude_start
    exclude_content exclude_end exclude_extension forallb].
  intros H W. apply andb_prop in H as [_ H]. now rewrite W, H.
Qed.

End RootsFacts.

(** X4.  Roots are searched one after the other and nothing is merged:
    when the call returns [l1] for the roots [ds1] and [l2] for the
    roots [ds2], it returns [l1] followed by [l2] for the roots [ds1]
    followed by [ds2], all other arguments being the same.  A root
    declared twice, or two roots one inside the other, give their
    common files twice. *)
Theorem roots_are_searched_in_turn (h : Fs.host) (a : arguments)
  (ds1 ds2 : list string) (l1 l2 : list string) :
  ds1 <> [] -> ds2 <> [] ->
  outcome (search_files h (with_directory (PyList (map PyStr ds1)) a)) = Ok l1 ->
  outcome (search_files h (with_directory (PyList (map PyStr ds2)) a)) = Ok l2 ->
  outcome (search_files h (with_directory (PyList (map PyStr (ds1 ++ ds2))) a))
  = Ok (l1 ++ l2).
Proof.
  intros N1 N2 E1 E2.
  assert (N12 : ds1 ++ ds2 <> []) by (destruct ds1; [contradiction | discriminate]).
  apply search_files_stages in E1 as [C1 [D1 E1]].
  apply search_files_stages in E2 as [_ [D2 E2]].
  rewrite roots_with_directory in D1, D2, E1, E2 by assumption.
  rewrite search_files_outcome.
  - rewrite roots_with_directory by assumption.
    change (inclusion h (with_directory (PyList (map PyStr (ds1 ++ ds2))) a))
      with (inclusion h (with_directory (PyList (map PyStr ds1)) a)).
    change (exclusion h (with_directory (PyList (map PyStr (ds1 ++ ds2))) a))
      with (exclusion h (with_directory (PyList (map PyStr ds1)) a)).
    change (fragments h (with_directory (PyList (map PyStr (ds1 ++ ds2))) a))
      with (fragments h (with_directory (PyList (map PyStr ds1)) a)).
    rewrite scan_directories_app, outcome_bind, E1.
    rewrite scan_directories_carried.
    change (inclusion h (with_directory (PyList (map PyStr ds1)) a))
      with (inclusion h (with_directory (PyList (map PyStr ds2)) a)).
    change (exclusion h (with_directory (PyList (map PyStr ds1)) a))
      with (exclusion h (with_directory (PyList (map PyStr ds2)) a)).
    change (fragments h (with_directory (PyList (map PyStr ds1)) a))
      with (fragments h (with_directory (PyList (map PyStr ds2)) a)).
    now rewrite E2.
  - apply (check_with_directory a _ _ C1), check_strings.
  - intros Z. exfalso. cbn [with_directory include_directory data_to_list] in Z.
    unfold len in Z. cbn [items] in Z. rewrite length_map in Z.
    apply length_zero_iff_nil in Z. contradiction.
  - rewrite roots_with_directory by assumption.
    intros d I. apply in_app_or in I as [I | I]; auto.
Qed.

Section DualFacts.

(** The paths the loop tests in a walk: the files of the directories
    that are not skipped. *)
Lemma selection_filter (inc exc : criteria) (excl : list string)
  (entries : list (string * list string * list string)) :
  selection inc exc excl entries =
  filter (keeps inc exc) (selection no_criteria no_criteria excl entries).
Proof.
  unfold selection. induction entries as [|t r IH]; [reflexivity|].
  cbn [flat_map]. rewrite filter_app, <- IH. f_equal.
  destruct (skipped excl (fst (fst t))); [reflexivity|].
  f_equal. induction (paths_of t) as [|p l IHl]; [reflexivity|].
  cbn [filter]. now rewrite keeps_none, <- IHl.
Qed.

Lemma flat_map_filter (A : Type) (f : string -> bool) (g : A -> list string)
  (l : list A) :
  flat_map (fun x => filter f (g x)) l = filter f (flat_map g l).
Proof.
  induction l as [|x t IH]; [reflexivity|]. cbn [flat_map].
  now rewrite filter_app, IH.
Qed.

(** In a loop that returns, the test of every file it went through
    answered. *)
Lemma scan_files_tested (inc exc : criteria) (root : string)
  (files : list string) :
  forall acc l,
    outcome (scan_files inc exc root files acc) = Ok l ->
    forall p, In p (map (PosixPath.join root) files) ->
      exists keep,
        outcome (included inc p <&&> (b <- excluded exc p ;; ret (negb b)))
        = Ok keep.
Proof.
  induction files as [|file t IH]; intros acc l E p []; subst;
    cbn [scan_files] in E; apply bind_ok in E as [keep [K E]];
    [now exists keep | now apply (IH _ _ E)].
Qed.

Lemma scan_walk_tested (inc exc : criteria) (excl : list string)
  (entries : list (string * list string * list string)) :
  forall acc l,
    outcome (scan_walk inc exc excl entries acc) = Ok l ->
    forall p, In p (selection no_criteria no_criteria excl entries) ->
      exists keep,
        outcome (included inc p <&&> (b <- excluded exc p ;; ret (negb b)))
        = Ok keep.
Proof.
  induction entries as [|[[root dirs] files] t IH]; intros acc l E p I;
    [destruct I|].
  cbn [scan_walk] in E. rewrite outcome_tell_then in E.
  unfold selection in I. cbn [flat_map fst snd] in I.
  fold (selection no_criteria no_criteria excl t) in I.
  destruct (skipped excl root).
  - now apply (IH _ _ E).
  - apply bind_ok in E as [l' [F E]]. apply in_app_or in I as [I | I].
    + apply filter_In in I as [I _].
      now apply (scan_files_tested _ _ _ _ _ F).
    + now apply (IH _ _ E).
Qed.

Lemma scan_directories_tested (h : Fs.host) (inc exc : criteria)
  (excl : list string) (dirs : list string) :
  forall acc l,
    outcome (scan_directories h inc exc excl dirs acc) = Ok l ->
    forall p,
      In p (flat_map (fun d => selection no_criteria no_criteria excl
                                 (Fs.os_walk h d)) dirs) ->
      exists keep,
        outcome (included inc p <&&> (b <- excluded exc p ;; ret (negb b)))
        = Ok keep.
Proof.
  induction dirs as [|d t IH]; intros acc l E p I; [destruct I|].
  cbn [scan_directories] in E. apply bind_ok in E as [l' [W E]].
  cbn [flat_map] in I. apply in_app_or in I as [I | I].
  - now apply (scan_walk_tested _ _ _ _ _ W).
  - now apply (IH _ _ E).
Qed.

(** With one constraint declared, the include test and the exclude
    test end alike. *)
Lemma one_constraint_same_outcome (c : criteria) (p : string) :
  declared_constraints c = 1 ->
  outcome (included c p) = outcome (excluded c p).
Proof.
  unfold declared_constraints, included, excluded.
  rewrite matches_criteria_eq, matches_exclusion_criteria_eq.
  destruct c as [ps ss cs es xs f]. cbn [c_patterns c_starts c_contains
    c_ends c_exts c_filter].
  rewrite !outcome_and_then, !outcome_or_else, !outcome_and_then.
  destruct ps as [|p1 ps], ss as [|s1 ss], cs as [|c1 cs], es as [|e1 es],
    xs as [|x1 xs], f as [f|]; cbn [truthy]; intros H;
    try (exfalso; simpl in H; lia); clear H;
    cbn [outcome ret snd negb orb andb any existsb].
  - now rewrite !outcome_call.
  - now destruct (_ || _).
  - now destruct (_ || _).
  - now destruct (_ || _).
  - now destruct (_ || _).
  - now destruct (outcome (any_m _ _)) as [[|]|].
Qed.

End DualFacts.

(** X7.  One constraint used to include and the same constraint used
    to exclude split the files in two.  Take one declared constraint
    (one group that is not empty, or one custom predicate) and three
    calls on the same roots with the same [exclude_subdirectory]: one
    without any filter, one with the constraint on the include side,
    one with it on the exclude side.  When the three return, the
    second returns the files of the first that the constraint accepts
    and the third the files of the first that it does not accept, both
    in the order of the first. *)
Theorem include_and_exclude_split_the_files (h : Fs.host)
  (plain inc_call exc_call : arguments) (c : criteria)
  (l l_inc l_exc : list string) :
  declared_constraints c = 1 ->
  roots h inc_call = roots h plain -> roots h exc_call = roots h plain ->
  fragments h inc_call = fragments h plain -> fragments h exc_call = fragments h plain ->
  inclusion h plain = no_criteria -> exclusion h plain = no_criteria ->
  inclusion h inc_call = c -> exclusion h inc_call = no_criteria ->
  inclusion h exc_call = no_criteria -> exclusion h exc_call = c ->
  outcome (search_files h plain) = Ok l ->
  outcome (search_files h inc_call) = Ok l_inc ->
  outcome (search_files h exc_call) = Ok l_exc ->
  l_inc = filter (keeps c no_criteria) l /\
  l_exc = filter (fun p => negb (keeps c no_criteria p)) l.
Proof.
  intros One R1 R2 F1 F2 IP XP II XI IE XE E EI EE.
  apply search_files_stages in E as [_ [_ E]].
  apply search_files_stages in EI as [_ [_ EI]].
  apply search_files_stages in EE as [_ [_ EE]].
  rewrite R1, F1, II, XI in EI. rewrite R2, F2, IE, XE in EE.
  rewrite IP, XP in E.
  pose proof (scan_directories_tested _ _ _ _ _ _ EE) as T.
  apply scan_directories_list in E, EI, EE. cbn [app] in E, EI, EE.
  subst l l_inc l_exc. split.
  - rewrite <- flat_map_filter. apply flat_map_ext. intros d.
    apply selection_filter.
  - rewrite <- flat_map_filter.
    rewrite (flat_map_ext _ _ (fun d => selection_filter no_criteria c _ _)).
    rewrite !flat_map_filter. apply filter_ext_in. intros p I.
    destruct (T p I) as [keep K]. unfold keeps. rewrite K.
    rewrite included_none, and_then_true_l, outcome_bind in K.
    rewrite outcome_and_then, excluded_none, (one_constraint_same_outcome c p One).
    destruct (outcome (excluded c p)) as [[|]|e]; try discriminate;
      inversion K; subst; reflexivity.
Qed.

Section EventFacts.

Lemma in_events_bind (A B : Type) (m : M A) (k : A -> M B) (ev : event) :
  In ev (events (bind m k)) ->
  In ev (events m) \/ exists a, outcome m = Ok a /\ In ev (events (k a)).
Proof.
  rewrite events_bind. intros I. apply in_app_or in I as [I | I]; [now left|].
  destruct (outcome m) as [a|e]; [right; now exists a | destruct I].
Qed.

Lemma included_event (c : criteria) (p : string) (ev : event) :
  In ev (events (included c p)) ->
  ev = EvCall Include p /\ include_strings c p.
Proof.
  intros H.
  rewrite included_split, events_and_then, included_strings_events in H.
  destruct (outcome (included (strings_only c) p)) as [[|]|] eqn:O;
    try destruct H.
  destruct (c_filter c); [|destruct H].
  rewrite events_call in H. destruct H as [<- | []]. split; [reflexivity|].
  pose proof (included_decides (strings_only c) p) as D.
  exact (proj1 (strings_only_inclusion _ _) (proj1 (D true O) eq_refl)).
Qed.

Lemma excluded_event (c : criteria) (p : string) (ev : event) :
  In ev (events (excluded c p)) ->
  ev = EvCall Exclude p /\ ~ exclude_strings c p.
Proof.
  intros H.
  rewrite excluded_split, events_or_else, excluded_strings_events in H.
  destruct (outcome (excluded (strings_only c) p)) as [[|]|] eqn:O;
    try destruct H.
  destruct (c_filter c); [|destruct H].
  rewrite events_call in H. destruct H as [<- | []]. split; [reflexivity|].
  intros X. apply (proj2 (strings_only_exclusion _ _)) in X.
  pose proof (excluded_decides (strings_only c) p) as D.
  pose proof (proj2 (D false O) X). discriminate.
Qed.

Variables inc exc : criteria.

Lemma test_events (p : string) (ev : event) :
  In ev (events (included inc p <&&> (b <- excluded exc p ;; ret (negb b)))) ->
  test_event inc exc p ev.
Proof.
  rewrite events_and_then. intros I. apply in_app_or in I as [I | I].
  - left. now apply included_event.
  - destruct (outcome (included inc p)) as [[|]|] eqn:O; try destruct I.
    right. apply in_events_bind in I as [I | [b [_ []]]].
    apply excluded_event in I as [-> N]. split; [reflexivity|].
    split; [|exact N].
    pose proof (included_decides inc p) as D.
    exact (proj1 (D true O) eq_refl).
Qed.

Lemma scan_files_events (root : string) (files : list string) (ev : event) :
  forall acc,
    In ev (events (scan_files inc exc root files acc)) ->
    exists file, In file files /\ test_event inc exc (PosixPath.join root file) ev.
Proof.
  induction files as [|file t IH]; intros acc I; [destruct I|].
  cbn [scan_files] in I. apply in_events_bind in I as [I | [keep [_ I]]].
  - exists file. split; [now left | now apply test_events].
  - destruct (IH _ I) as [f [F T]]. exists f. split; [now right | exact T].
Qed.

Lemma scan_walk_events (excl : list string)
  (entries : list (string * list string * list string)) (ev : event) :
  forall acc,
    In ev (events (scan_walk inc exc excl entries acc)) ->
    exists root dirs files,
      In (root, dirs, files) entries /\
      (ev = EvScandir root \/
       (~ pruned excl root /\
        exists file, In file files /\
                     test_event inc exc (PosixPath.join root file) ev)).
Proof.
  induction entries as [|[[root dirs] files] t IH]; intros acc I;
    [destruct I|].
  cbn [scan_walk] in I. rewrite events_tell_then in I.
  assert (K : forall acc', In ev (events (scan_walk inc exc excl t acc')) ->
            exists root0 dirs0 files0,
              In (root0, dirs0, files0) ((root, dirs, files) :: t) /\
              (ev = EvScandir root0 \/
               (~ pruned excl root0 /\
                exists file, In file files0 /\
                  test_event inc exc (PosixPath.join root0 file) ev))).
  { intros acc' J. destruct (IH _ J) as [r [d [f [In1 H]]]].
    exists r, d, f. split; [now right | exact H]. }
  destruct I as [<- | I].
  - exists root, dirs, files. split; [now left | now left].
  - destruct (skipped excl root) eqn:S; [now apply (K acc)|].
    apply in_events_bind in I as [I | [l [_ I]]]; [|now apply (K l)].
    exists root, dirs, files. split; [now left|]. right.
    split; [now apply skipped_not|]. now apply scan_files_events in I.
Qed.

Lemma scan_directories_events (h : Fs.host) (excl : list string)
  (ds : list string) (ev : event) :
  forall acc,
    In ev (events (scan_directories h inc exc excl ds acc)) ->
    exists d root dirs files,
      In d ds /\ In (root, dirs, files) (Fs.os_walk h d) /\
      (ev = EvScandir root \/
       (~ pruned excl root /\
        exists file, In file files /\
                     test_event inc exc (PosixPath.join root file) ev)).
Proof.
  induction ds as [|d t IH]; intros acc I; [destruct I|].
  cbn [scan_directories] in I. apply in_events_bind in I as [I | [l [_ I]]].
  - apply scan_walk_events in I as [r [dd [f [W H]]]].
    exists d, r, dd, f. split; [now left|]. split; assumption.
  - destruct (IH _ I) as [d' [r [dd [f [D H]]]]].
    exists d', r, dd, f. split; [now right | exact H].
Qed.

Lemma check_directories_events (h : Fs.host) (ds : list string) (ev : event) :
  In ev (events (check_directories h ds)) -> exists d, In d ds /\ ev = EvIsdir d.
Proof.
  induction ds as [|d t IH]; intros I; [destruct I|].
  cbn [check_directories] in I. rewrite events_tell_then in I.
  destruct I as [<- | I]; [exists d; split; [now left | reflexivity]|].
  destruct (negb (Fs.isdir h d)); [destruct I|].
  destruct (IH I) as [x [X E]]. exists x. split; [now right | exact E].
Qed.

End EventFacts.

(** X8.  A call does nothing but what follows.  It asks for the
    working directory only when no root is declared; it tests only its
    roots; it lists only directories of the walks of its roots; it
    calls [include_filter] only on a file of a directory that is not
    skipped, after the include groups accepted the file; it calls
    [exclude_filter] only on such a file that passed the whole include
    test and that no exclude group matched.  So a predicate is never
    called on a file of a skipped directory, and [exclude_filter]
    never on a file the include side refused. *)
Theorem a_call_stays_within_its_roots (h : Fs.host) (a : arguments)
  (ev : event) :
  In ev (events (search_files h a)) -> allowed h a ev.
Proof.
  unfold search_files. rewrite check_parameters_eq.
  destruct (forallb check_type_union (checked_parameters a));
    [|intros []].
  rewrite bind_ret_l. intros I.
  apply in_events_bind in I as [I | [d [D I]]].
  - unfold default_directory in I.
    destruct (len (data_to_list (include_directory a)) =? 0) eqn:Z;
      [|destruct I].
    apply Nat.eqb_eq in Z.
    destruct (getattr_append (data_to_list (include_directory a)))
      as [append|]; [|destruct I].
    rewrite bind_lift_ok, events_tell_then in I.
    destruct I as [<- | I]; [exact Z|].
    destruct (append (PyStr (Fs.getcwd h))); destruct I.
  - destruct (default_directory_is h a D) as [-> R]. rewrite R in I.
    fold (inclusion h a) (exclusion h a) (fragments h a) in I.
    apply in_events_bind in I as [I | [[] [_ I]]].
    + apply check_directories_events in I as [x [X ->]]. exact X.
    + apply scan_directories_events in I
        as [x [root [dirs [files [X [W [-> | [N [file [F T]]]]]]]]]].
      * now exists x, dirs, files.
      * assert (C : exists r, candidate h a r (PosixPath.join root file) /\
                              ~ pruned (fragments h a) r).
        { exists root. split; [|exact N]. now exists x, dirs, files, file. }
        destruct T as [[-> S] | [-> [S1 S2]]]; simpl; auto.
Qed.

Section NameFacts.

Import PosixPath.

Lemma no_sep_rfind (c : ascii) (s : string) :
  str_in (String c "") s = false <-> rfind c s = (-1)%Z.
Proof.
  induction s as [|a t IH]; [split; reflexivity|].
  rewrite str_in_eq, rfind_cons, orb_false_iff, IH. simpl String.prefix.
  pose proof (rfind_ge c t) as G.
  destruct (ascii_dec c a) as [->|N].
  - rewrite prefix_nil, Ascii.eqb_refl. split; [intros [D _]; discriminate|].
    destruct (0 <=? rfind a t)%Z eqn:E; [apply Z.leb_le in E; lia | discriminate].
  - assert (A : Ascii.eqb a c = false) by (apply Ascii.eqb_neq; congruence).
    rewrite A. split.
    + intros [_ R]. rewrite R. reflexivity.
    + destruct (0 <=? rfind c t)%Z eqn:E; [apply Z.leb_le in E; lia|].
      intros _. apply Z.leb_gt in E. split; [reflexivity | lia].
Qed.

Lemma rfind_app_found (c : ascii) (l r : string) :
  (0 <= rfind c (l ++ String c r))%Z.
Proof.
  induction l as [|a l IH]; simpl String.append; rewrite rfind_cons.
  - pose proof (rfind_ge c r). rewrite Ascii.eqb_refl.
    destruct (0 <=? rfind c r)%Z eqn:E; [apply Z.leb_le in E|]; lia.
  - apply Z.leb_le in IH. rewrite IH. apply Z.leb_le in IH. lia.
Qed.

Lemma rfind_app_none (c : ascii) (a b : string) :
  rfind c (a ++ b) = (-1)%Z -> rfind c a = (-1)%Z /\ rfind c b = (-1)%Z.
Proof.
  induction a as [|x a IH]; [auto|]. simpl String.append.
  rewrite !rfind_cons. pose proof (rfind_ge c (a ++ b)) as G.
  destruct (0 <=? rfind c (a ++ b))%Z eqn:E; [apply Z.leb_le in E; lia|].
  apply Z.leb_gt in E. destruct (IH ltac:(lia)) as [Ha Hb]. rewrite Ha.
  simpl. destruct (Ascii.eqb x c); [discriminate | auto].
Qed.

(** After a text that is empty or ends with a separator, a name
    without separator is the last piece. *)
Lemma tail_of_append (x file : string) :
  rfind sep file = (-1)%Z ->
  x = "" \/ (exists l, x = (l ++ "/")%string) ->
  slice_from (rfind sep (x ++ file) + 1) (x ++ file) = file.
Proof.
  intros F. induction x as [|a t IH]; intros H.
  - simpl String.append. rewrite F. apply slice_from_0.
  - destruct H as [H | [l H]]; [discriminate|].
    simpl String.append. rewrite rfind_cons.
    destruct l as [|b l]; simpl in H; inversion H; subst.
    + simpl String.append. rewrite F. simpl.
      change 1%Z with (0 + 1)%Z. rewrite slice_from_cons by lia.
      apply slice_from_0.
    + assert (G : (0 <= rfind sep ((l ++ "/") ++ file))%Z).
      { rewrite append_assoc. apply rfind_app_found. }
      pose proof G as G'. apply Z.leb_le in G'. rewrite G'.
      rewrite slice_from_cons by lia. apply IH. right. now exists l.
Qed.

Lemma good_name_rfind (n : string) :
  Fs.good_name n = true -> rfind sep n = (-1)%Z.
Proof.
  unfold Fs.good_name. intros H. apply andb_prop in H as [_ H].
  apply negb_true_iff in H. now apply no_sep_rfind.
Qed.

(** The last piece of the path of a file of the walk is its name. *)
Lemma split_join (root file : string) :
  Fs.good_name file = true -> snd (split (join root file)) = file.
Proof.
  intros G. pose proof (good_name_rfind file G) as F.
  unfold split. cbn [snd]. unfold join.
  rewrite (good_name_no_start file G).
  destruct (String.eqb root "" || endswith root "/") eqn:E.
  - apply tail_of_append; [exact F|].
    apply orb_prop in E as [E | E].
    + left. now apply String.eqb_eq.
    + right. now apply endswith_iff.
  - rewrite <- append_assoc. apply tail_of_append; [exact F|].
    right. now exists root.
Qed.

Lemma split_name (file : string) :
  rfind sep file = (-1)%Z -> snd (split file) = file.
Proof. intros F. unfold split. cbn [snd]. rewrite F. apply slice_from_0. Qed.

End NameFacts.

(** X9.  The tests on strings see the name of the file only: for a
    file name as a directory listing gives it (not empty, no
    separator), the base-name and the extension of the path of the file
    are those of the name alone, and the include and exclude tests
    without custom predicate end the same whatever the directory.
    Only the custom predicates receive the whole path. *)
Theorem string_tests_see_the_name_only (root root' file : string)
  (c : criteria) :
  Fs.good_name file = true ->
  base_name (PosixPath.join root file) = base_name file /\
  extension_of (PosixPath.join root file) = extension_of file /\
  included (strings_only c) (PosixPath.join root file)
  = included (strings_only c) (PosixPath.join root' file) /\
  excluded (strings_only c) (PosixPath.join root file)
  = excluded (strings_only c) (PosixPath.join root' file).
Proof.
  intros G.
  assert (B : forall r, base_name (PosixPath.join r file) = base_name file).
  { intros r. unfold base_name.
    now rewrite (split_join r file G), (split_name file (good_name_rfind file G)). }
  assert (X : forall r, extension_of (PosixPath.join r file) = extension_of file).
  { intros r. unfold extension_of.
    now rewrite (split_join r file G), (split_name file (good_name_rfind file G)). }
  split; [apply B|]. split; [apply X|]. split.
  - unfold included. rewrite !matches_criteria_eq.
    cbn [strings_only c_patterns c_starts c_contains c_ends c_exts c_filter].
    now rewrite !B, !X.
  - unfold excluded. rewrite !matches_exclusion_criteria_eq.
    cbn [strings_only c_patterns c_starts c_contains c_ends c_exts c_filter].
    now rewrite !B, !X.
Qed.

Section MemberFacts.

(** The files of the list a call returns. *)
Lemma search_files_members (h : Fs.host) (a : arguments) (l : list string) :
  outcome (search_files h a) = Ok l ->
  forall p, In p l <->
    exists root,
      candidate h a root p /\
      ~ pruned (fragments h a) root /\
      satisfies_inclusion (inclusion h a) p /\
      ~ satisfies_exclusion (exclusion h a) p.
Proof.
  intros E p. apply search_files_stages in E as [_ [_ E]].
  rewrite (scan_directories_ok _ _ _ _ _ _ E p).
  unfold candidate, kept. split.
  - intros [[] | [y [r [d [f [x H]]]]]]. exists r. split; [|tauto].
    exists y, d, f, x. tauto.
  - intros [r [[y [d [f [x H]]]] K]]. right. exists y, r, d, f, x. tauto.
Qed.

Lemma no_member_nil (A : Type) (l : list A) :
  (forall x, ~ In x l) -> l = [].
Proof. destruct l as [|x t]; [reflexivity|]. intros H. destruct (H x). now left. Qed.

Lemma some_of_within (g g' : list string) (test : string -> Prop) :
  within g g' -> some_of g test -> some_of g' test.
Proof. intros W [x [I T]]. exists x. auto. Qed.

Lemma from_last_found (c : ascii) (s : string) :
  (0 <= rfind c s)%Z ->
  exists r, slice_from (rfind c s) s = String c r /\ rfind c r = (-1)%Z.
Proof.
  induction s as [|a t IH]; [simpl; lia|]. rewrite rfind_cons.
  pose proof (rfind_ge c t) as G.
  destruct (0 <=? rfind c t)%Z eqn:E.
  - apply Z.leb_le in E. intros _. rewrite slice_from_cons by exact E. auto.
  - apply Z.leb_gt in E. destruct (Ascii.eqb a c) eqn:A; [|lia].
    apply Ascii.eqb_eq in A. subst a. intros _. rewrite slice_from_0.
    exists t. split; [reflexivity | lia].
Qed.

Lemma has_other_substring (c : ascii) (s : string) :
  forall i n,
    PosixPath.has_other c (substring i n s) = true ->
    PosixPath.has_other c (substring 0 (i + n) s) = true.
Proof.
  induction s as [|a t IH]; intros i n H.
  - destruct i, n; discriminate.
  - destruct i as [|i]; [exact H|].
    change (substring (S i) n (String a t)) with (substring i n t) in H.
    change (substring 0 (S i + n) (String a t))
      with (String a (substring 0 (i + n) t)).
    simpl. rewrite (IH _ _ H). apply orb_true_r.
Qed.

(** The extension [splitext] gives is empty, or it is a dot followed
    by a text without dot, and then the other part holds a character
    that is not a dot. *)
Lemma splitext_shape (p : string) :
  snd (PosixPath.splitext p) = "" \/
  exists r, snd (PosixPath.splitext p) = String PosixPath.extsep r /\
            rfind PosixPath.extsep r = (-1)%Z /\
            PosixPath.has_other PosixPath.extsep (fst (PosixPath.splitext p))
            = true.
Proof.
  unfold PosixPath.splitext.
  destruct (rfind PosixPath.sep p <? rfind PosixPath.extsep p)%Z eqn:L;
    [|now left].
  destruct (PosixPath.has_other _ _) eqn:O; [|now left].
  right. cbn [fst snd]. apply Z.ltb_lt in L.
  pose proof (rfind_ge PosixPath.sep p) as G.
  destruct (@from_last_found PosixPath.extsep p ltac:(lia)) as [r [E R]].
  exists r. split; [exact E|]. split; [exact R|].
  unfold slice in O. unfold slice_to.
  destruct (le_lt_dec (Z.to_nat (rfind PosixPath.sep p + 1))
              (Z.to_nat (rfind PosixPath.extsep p))) as [I | I].
  - apply has_other_substring in O.
    now replace (Z.to_nat (rfind PosixPath.sep p + 1) +
                 (Z.to_nat (rfind PosixPath.extsep p) -
                  Z.to_nat (rfind PosixPath.sep p + 1)))
      with (Z.to_nat (rfind PosixPath.extsep p)) in O by lia.
  - replace (Z.to_nat (rfind PosixPath.extsep p) -
             Z.to_nat (rfind PosixPath.sep p + 1)) with 0 in O by lia.
    assert (Z : forall s i, substring i 0 s = "").
    { induction s as [|x s IHs]; intros [|i]; simpl; auto. }
    rewrite Z in O. discriminate.
Qed.

Lemma extension_shape (p : string) :
  extension_of p = "" \/ startswith (extension_of p) "." = true.
Proof.
  unfold extension_of.
  destruct (splitext_shape (snd (PosixPath.split p))) as [E | [r [E _]]];
    [now left|].
  right. rewrite E. unfold startswith. simpl. now rewrite prefix_nil.
Qed.

End MemberFacts.

(** X10.  An [include_extension] whose entries are written without the
    dot finds nothing: the extension of a file is empty or begins with
    a dot, so a call with a group of extensions that are not empty and
    do not begin with a dot, when it returns, returns the empty list,
    whatever the directories hold. *)
Theorem extension_without_dot_finds_nothing (h : Fs.host) (a : arguments)
  (l : list string) :
  c_exts (inclusion h a) <> [] ->
  (forall e, In e (c_exts (inclusion h a)) ->
             e <> "" /\ startswith e "." = false) ->
  outcome (search_files h a) = Ok l ->
  l = [].
Proof.
  intros N D E. apply no_member_nil. intros p I.
  apply (search_files_members h a E) in I as [root [_ [_ [[S _] _]]]].
  destruct S as [_ [_ [_ [[X | [e [Ie Ee]]] _]]]]; [contradiction|].
  destruct (D e Ie) as [D1 D2]. subst e.
  destruct (extension_shape p) as [Z | Z]; congruence.
Qed.

(** X11.  The empty string excludes everything: every base-name begins
    with, contains and ends with the empty string, and every directory
    path contains it.  A call whose [exclude_start], [exclude_content],
    [exclude_end] or [exclude_subdirectory] holds the empty string,
    when it returns, returns the empty list. *)
Theorem empty_string_excludes_everything (h : Fs.host) (a : arguments)
  (l : list string) :
  In "" (c_starts (exclusion h a)) \/ In "" (c_contains (exclusion h a)) \/
  In "" (c_ends (exclusion h a)) \/ In "" (fragments h a) ->
  outcome (search_files h a) = Ok l ->
  l = [].
Proof.
  intros H E. apply no_member_nil. intros p I.
  apply (search_files_members h a E) in I as [root [_ [Pr [_ X]]]].
  destruct H as [H | [H | [H | H]]].
  - apply X. left. left. exists "". split; [exact H|].
    now exists (base_name p).
  - apply X. left. right. left. exists "". split; [exact H|].
    now exists "", (base_name p).
  - apply X. left. right. right. left. exists "". split; [exact H|].
    exists (base_name p). symmetry. apply append_nil_r.
  - apply Pr. now apply empty_fragment_prunes.
Qed.

(** X12.  Excluding more never returns more: between two calls with
    the same roots and the same inclusion criteria, where each exclude
    group and the [exclude_subdirectory] fragments of the first are
    among those of the second and the exclude predicate is the same,
    every file the second call returns is returned by the first. *)
Theorem more_exclusions_return_less (h : Fs.host) (a a' : arguments)
  (l l' : list string) :
  roots h a = roots h a' ->
  inclusion h a = inclusion h a' ->
  at_least (exclusion h a) (exclusion h a') ->
  within (fragments h a) (fragments h a') ->
  outcome (search_files h a) = Ok l ->
  outcome (search_files h a') = Ok l' ->
  forall p, In p l' -> In p l.
Proof.
  intros R Inc [Wp [Ws [Wc [We [Wx Wf]]]]] Wd E E' p I.
  apply (search_files_members h a' E') in I as [root [C [Pr [S X]]]].
  apply (search_files_members h a E). exists root.
  split; [|split; [|split]].
  - unfold candidate in *. now rewrite R.
  - intros [e [Ie O]]. apply Pr. exists e. auto.
  - now rewrite Inc.
  - intros [G | [f [F T]]]; apply X.
    + left. unfold exclude_strings in *.
      destruct G as [G | [G | [G | [G | G]]]];
        [left | right; left | right; right; left
        | right; right; right; left | right; right; right; right];
        eapply some_of_within; eauto.
    + right. exists f. split; [congruence | exact T].
Qed.

Section ComponentFacts.

Import PosixPath.

Lemma split_head_cut (p : string) :
  exists z,
    p = (fst (split p) ++ z ++ snd (split p))%string /\
    all_char sep z = true /\
    (z = "" -> all_char sep (fst (split p)) = true) /\
    (all_char sep (fst (split p)) = true \/
     endswith (fst (split p)) "/" = false).
Proof.
  unfold split. cbn [fst snd].
  set (i := (rfind sep p + 1)%Z).
  pose proof (slice_to_from i p) as C.
  destruct (cut_last sep p) as [_ L]. fold i in L.
  set (head := slice_to i p) in *. set (tail := slice_from i p) in *.
  destruct (negb (String.eqb head "") && negb (all_char sep head)) eqn:G.
  - apply andb_prop in G as [G1 G2]. apply negb_true_iff in G2.
    destruct (rstrip_cut sep head) as [z [E Z]].
    exists z. split; [|split; [exact Z|split]].
    + rewrite <- append_assoc, <- E. now symmetry.
    + intros ->. rewrite append_nil_r in E. exfalso.
      apply negb_true_iff, String.eqb_neq in G1.
      destruct L as [L | [l L]]; [contradiction|].
      apply (@rstrip_last sep head l). congruence.
    + right. destruct (endswith (rstrip sep head) "/") eqn:W; [|reflexivity].
      apply endswith_iff in W as [l W]. now apply rstrip_last in W.
  - exists "". simpl String.append.
    assert (A : all_char sep head = true).
    { apply andb_false_iff in G as [G | G]; apply negb_false_iff in G.
      - apply String.eqb_eq in G. now rewrite G.
      - exact G. }
    split; [now symmetry|]. split; [reflexivity|]. split; [auto | now left].
Qed.

End ComponentFacts.

(** X13.  The three components of a path.  For every string [P],
    [extract_file_components] cuts [P] into the directory, a run of
    separators, the base-name and the extension, in this order and with
    nothing lost; the run is empty only when the directory is empty or
    made of separators alone.  The directory is made of separators or
    does not end with one; the base-name and the extension hold no
    separator; the extension is empty, or it is a dot followed by a
    text without dot and then the base-name holds a character that is
    not a dot (so a name made of dots, or a name such as [.bashrc],
    has no extension). *)
Theorem extract_file_components_cuts (P directory name extension : string) :
  extract_file_components (PyStr P) = Ok (directory, name, extension) ->
  (exists z,
     P = (directory ++ z ++ name ++ extension)%string /\
     all_char PosixPath.sep z = true /\
     (z = "" -> all_char PosixPath.sep directory = true)) /\
  (all_char PosixPath.sep directory = true \/
   endswith directory "/" = false) /\
  str_in "/" name = false /\
  str_in "/" extension = false /\
  (extension = "" \/
   exists r, extension = String "." r /\ str_in "." r = false /\
             PosixPath.has_other PosixPath.extsep name = true).
Proof.
  rewrite extract_str. intros E. inversion E. subst. clear E.
  destruct (split_head_cut P) as [z [C [Z [N D]]]].
  pose proof (split_tail_no_sep P) as T.
  rewrite <- (splitext_append (snd (PosixPath.split P))) in T, C.
  apply rfind_app_none in T as [T1 T2].
  split; [|split; [exact D|split; [|split]]].
  - exists z. auto.
  - now apply (no_sep_rfind PosixPath.sep).
  - now apply (no_sep_rfind PosixPath.sep).
  - unfold base_name, extension_of.
    destruct (splitext_shape (snd (PosixPath.split P))) as [S | [r [S [R O]]]];
      [now left|].
    right. exists r. split; [exact S|]. split; [|exact O].
    now apply (no_sep_rfind PosixPath.extsep).
Qed.

Section OnceFacts.

Import Fs.

Lemma append_cancel (a b c : string) :
  (a ++ b)%string = (a ++ c)%string -> b = c.
Proof. induction a as [|x a IH]; simpl; [auto|]. intros H. inversion H. auto. Qed.

Lemma rfind_none_cons (c a : ascii) (t : string) :
  rfind c (String a t) = (-1)%Z -> a <> c /\ rfind c t = (-1)%Z.
Proof.
  rewrite rfind_cons. pose proof (rfind_ge c t) as G.
  destruct (0 <=? rfind c t)%Z eqn:E; [apply Z.leb_le in E; lia|].
  apply Z.leb_gt in E. destruct (Ascii.eqb a c) eqn:A; [discriminate|].
  apply Ascii.eqb_neq in A. intros _. split; [exact A | lia].
Qed.

(** Two names without separator that are followed by a separator in
    the same text are the same name. *)
Lemma first_piece (c : ascii) (n : string) :
  forall m r1 r2,
    rfind c n = (-1)%Z -> rfind c m = (-1)%Z ->
    (n ++ String c r1)%string = (m ++ String c r2)%string -> n = m.
Proof.
  induction n as [|a n IH]; intros [|b m] r1 r2 Hn Hm E; simpl in E.
  - reflexivity.
  - inversion E. subst. apply rfind_none_cons in Hm as [Hm _]. congruence.
  - inversion E. subst. apply rfind_none_cons in Hn as [Hn _]. congruence.
  - inversion E. subst. apply rfind_none_cons in Hn as [_ Hn].
    apply rfind_none_cons in Hm as [_ Hm]. f_equal. eauto.
Qed.

Lemma endswith_cons (a : ascii) (t p : string) :
  endswith (String a t) p = String.eqb (String a t) p || endswith t p.
Proof. reflexivity. Qed.

Lemma no_sep_no_end (n : string) :
  rfind PosixPath.sep n = (-1)%Z -> endswith n "/" = false.
Proof.
  induction n as [|a n IH]; [reflexivity|]. intros H.
  apply rfind_none_cons in H as [A H]. rewrite endswith_cons, (IH H).
  rewrite orb_false_r. apply String.eqb_neq. intros E. inversion E.
  now apply A.
Qed.

Lemma name_at_end (x n : string) :
  n <> "" -> rfind PosixPath.sep n = (-1)%Z -> endswith (x ++ n) "/" = false.
Proof.
  intros N H. induction x as [|a x IH]; [now apply no_sep_no_end|].
  simpl String.append. rewrite endswith_cons, IH, orb_false_r.
  apply String.eqb_neq. intros E. inversion E.
  destruct x; simpl in *; [contradiction | discriminate].
Qed.

Lemma good_name_not_empty (n : string) : good_name n = true -> n <> "".
Proof.
  unfold good_name. intros G. apply andb_prop in G as [G _].
  apply negb_true_iff in G. now apply String.eqb_neq.
Qed.

Lemma join_good (top n : string) :
  good_name n = true -> PosixPath.join top n = (before_name top ++ n)%string.
Proof.
  intros G. unfold PosixPath.join, before_name.
  rewrite (good_name_no_start n G).
  destruct (String.eqb top "" || endswith top "/"); [reflexivity|].
  now rewrite append_assoc.
Qed.

Lemma before_name_join (top n : string) :
  good_name n = true ->
  before_name (PosixPath.join top n)
  = (before_name top ++ n ++ "/")%string.
Proof.
  intros G. rewrite (@join_good top n G). unfold before_name at 1.
  rewrite (@name_at_end (before_name top) n (@good_name_not_empty n G)
             (@good_name_rfind n G)), orb_false_r.
  replace (String.eqb (before_name top ++ n) "") with false.
  - now rewrite append_assoc.
  - symmetry. apply String.eqb_neq. intros E.
    apply (@good_name_not_empty n G).
    destruct (before_name top); simpl in E; [exact E | discriminate].
Qed.

Lemma before_name_extends (top : string) :
  exists r, before_name top = (top ++ r)%string.
Proof.
  unfold before_name. destruct (String.eqb top "" || endswith top "/");
    [exists ""; now rewrite append_nil_r | now exists "/"].
Qed.

Lemma filenames_good (c : list node) (f : string) :
  good_entries c = true -> In f (filenames c) -> good_name f = true.
Proof.
  induction c as [|[n|n c'] t IH]; simpl; [tauto| |];
    intros G I; apply andb_prop in G as [G1 G2]; [|auto].
  destruct I as [<- | I]; auto.
Qed.

Lemma dir_good (c : list node) (m : string) (c' : list node) :
  good_entries c = true -> In (Dir m c') c ->
  good_name m = true /\ good_entries c' = true.
Proof.
  intros G I. unfold good_entries in G.
  rewrite forallb_forall in G. specialize (G _ I). simpl in G.
  now apply andb_prop in G.
Qed.

Lemma flat_map_flat_map (A B C : Type) (f : B -> list C) (g : A -> list B)
  (l : list A) :
  flat_map f (flat_map g l) = flat_map (fun y => flat_map f (g y)) l.
Proof.
  induction l as [|y t IH]; [reflexivity|]. cbn [flat_map].
  now rewrite flat_map_app, IH.
Qed.

(** The files of a walk: the files of the directory, then the files
    of the walk of each entry. *)
Lemma all_files_walk (top : string) (c : list node) :
  all_files (walk top c) =
  map (PosixPath.join top) (filenames c) ++
  flat_map (fun y => all_files (under top y)) c.
Proof.
  rewrite walk_eq. unfold all_files. cbn [flat_map]. f_equal.
  apply flat_map_flat_map.
Qed.

(** Every path of a file of a walk begins with the path of its top
    directory, followed by a separator if it lacks one. *)
Lemma walk_files_shape (x : node) :
  forall top,
    (forall n c, x = Dir n c -> good_entries c = true) ->
    forall p, In p (all_files (walk_node top x)) ->
    exists rest, p = (before_name top ++ rest)%string.
Proof.
  induction x as [n | n c IH] using node_induction; intros top G p I;
    [destruct I|].
  change (walk_node top (Dir n c)) with (walk top c) in I.
  rewrite all_files_walk in I. specialize (G n c eq_refl).
  apply in_app_or in I as [I | I].
  - apply in_map_iff in I as [f [<- I]]. exists f.
    apply join_good. now apply filenames_good with c.
  - apply in_flat_map in I as [y [Y I]].
    destruct y as [m | m c']; [destruct I|].
    destruct (@dir_good c m c' G Y) as [Gm Gc].
    rewrite Forall_forall in IH.
    destruct (IH _ Y (PosixPath.join top m)
                (fun n0 c0 E => ltac:(inversion E; subst; exact Gc)) p I)
      as [rest ->].
    rewrite (@before_name_join top m Gm). exists (m ++ "/" ++ rest)%string.
    now rewrite !append_assoc.
Qed.

Lemma walk_files_below (top m : string) (c' : list node) (p : string) :
  good_name m = true -> good_entries c' = true ->
  In p (all_files (walk (PosixPath.join top m) c')) ->
  exists r, p = (before_name top ++ m ++ String PosixPath.sep r)%string.
Proof.
  intros Gm Gc I.
  destruct (@walk_files_shape (Dir (PosixPath.join top m) c')
              (PosixPath.join top m)
              (fun n0 c0 E => ltac:(inversion E; subst; exact Gc)) p I)
    as [rest ->].
  rewrite (@before_name_join top m Gm). exists rest.
  now rewrite !append_assoc.
Qed.

Lemma distinct_cons (x : string) (t : list string) :
  distinct (x :: t) = true -> ~ In x t /\ distinct t = true.
Proof.
  simpl. intros H. apply andb_prop in H as [H D]. split; [|exact D].
  intros I. apply negb_true_iff in H.
  assert (E : existsb (String.eqb x) t = true).
  { apply existsb_exists. exists x. split; [exact I | apply String.eqb_refl]. }
  congruence.
Qed.

Lemma distinct_filenames (c : list node) :
  distinct (map node_name c) = true -> NoDup (filenames c).
Proof.
  induction c as [|[n|n c'] t IH]; [constructor| |];
    cbn [map node_name filenames]; intros D;
    apply distinct_cons in D as [N D]; [|auto].
  constructor; [|auto]. intros I. apply N. clear - I.
  induction t as [|[m|m c'] t IH]; simpl in *; [tauto| |]; tauto.
Qed.

Lemma nodup_app_apart (A : Type) (l1 l2 : list A) :
  NoDup (l1 ++ l2) -> forall a, In a l1 -> ~ In a l2.
Proof.
  induction l1 as [|x l1 IH]; [intros _ a []|].
  simpl. intros N a [<- | I] I2; inversion N; subst.
  - match goal with H : ~ In _ _ |- _ => apply H end.
    apply in_or_app. now right.
  - now apply (IH ltac:(assumption) a).
Qed.

(** The walks of the entries of a directory have no file in common. *)
Lemma below_once (top : string) (c : list node) :
  good_entries c = true ->
  distinct (map node_name c) = true ->
  Forall (fun y => forall top', NoDup (all_files (under top' y))) c ->
  NoDup (flat_map (fun y => all_files (under top y)) c).
Proof.
  induction c as [|y t IH]; intros G D F; [constructor|].
  cbn [flat_map]. simpl in G. apply andb_prop in G as [Gy Gt].
  cbn [map] in D. apply distinct_cons in D as [N D].
  inversion F as [|? ? Fy Ft]; subst.
  apply NoDup_app; [apply Fy | now apply IH|].
  intros p I1 I2. apply in_flat_map in I2 as [z [Z I2]].
  destruct y as [n | n c1]; [destruct I1|].
  destruct z as [m | m c2]; [destruct I2|].
  simpl in Gy. apply andb_prop in Gy as [Gn Gc1].
  destruct (@dir_good t m c2 Gt Z) as [Gm Gc2].
  apply (@walk_files_below top n c1 p Gn Gc1) in I1 as [r1 ->].
  apply (@walk_files_below top m c2 _ Gm Gc2) in I2 as [r2 E].
  apply append_cancel in E.
  apply first_piece in E; [|now apply good_name_rfind..].
  apply N. simpl. subst n. apply in_map_iff. exists (Dir m c2). auto.
Qed.

(** In a tree where the names of a directory differ, a walk meets no
    file twice. *)
Lemma walk_files_once (x : node) :
  forall top,
    (forall n c, x = Dir n c ->
                 good_entries c = true /\ distinct_entries c = true) ->
    NoDup (all_files (walk_node top x)).
Proof.
  induction x as [n | n c IH] using node_induction; intros top G;
    [constructor|].
  change (walk_node top (Dir n c)) with (walk top c).
  rewrite all_files_walk. destruct (G n c eq_refl) as [Gc Dc].
  unfold distinct_entries in Dc. apply andb_prop in Dc as [Dn Dc].
  apply NoDup_app.
  - apply NoDup_map_NoDup_ForallPairs; [|now apply distinct_filenames].
    intros f g If Ig E.
    rewrite (@join_good top f (@filenames_good c f Gc If)) in E.
    rewrite (@join_good top g (@filenames_good c g Gc Ig)) in E.
    now apply append_cancel in E.
  - apply below_once; [exact Gc | exact Dn|].
    rewrite Forall_forall in IH |- *. intros y Y top'.
    destruct y as [m | m c']; [constructor|].
    destruct (@dir_good c m c' Gc Y) as [_ Gc'].
    rewrite forallb_forall in Dc. specialize (Dc _ Y).
    apply (IH _ Y (PosixPath.join top' m)).
    intros n0 c0 E. inversion E. subst. split; [exact Gc' | exact Dc].
  - intros p I1 I2. apply in_map_iff in I1 as [f [<- I1]].
    pose proof (@filenames_good c f Gc I1) as Gf.
    apply in_flat_map in I2 as [y [Y I2]].
    destruct y as [m | m c']; [destruct I2|].
    destruct (@dir_good c m c' Gc Y) as [Gm Gc'].
    apply (@walk_files_below top m c' _ Gm Gc') in I2 as [r E].
    rewrite (@join_good top f Gf) in E. apply append_cancel in E.
    pose proof (@good_name_rfind f Gf) as R. rewrite E in R.
    pose proof (rfind_app_found PosixPath.sep m r). lia.
Qed.

Lemma find_dir_in (name : string) (entries c : list node) :
  find_dir name entries = Some c -> exists n, In (Dir n c) entries.
Proof.
  induction entries as [|[n|n c'] t IH]; simpl; [discriminate| |].
  - destruct (String.eqb n name); [discriminate|].
    intros F. destruct (IH F) as [m I]. eauto.
  - destruct (String.eqb n name).
    + intros F. inversion F. subst. eauto.
    + intros F. destruct (IH F) as [m I]. eauto.
Qed.

Section Kept.

(** A property of the entries of a directory that the directories
    below inherit holds of every directory a path names. *)
Variable P : list node -> Prop.
Hypothesis inherits : forall n c entries, P entries -> In (Dir n c) entries -> P c.

Lemma enter_keeps (stack stack' : list (list node)) (name : string) :
  Forall P stack -> enter stack name = Some stack' -> Forall P stack'.
Proof.
  unfold enter. intros G.
  destruct (String.eqb name "" || String.eqb name ".");
    [intros E; inversion E; subst; exact G|].
  destruct (String.eqb name "..").
  - destruct stack as [|x [|y t]]; intros E; inversion E; subst; auto.
    now inversion G.
  - destruct stack as [|cur t]; [discriminate|].
    destruct (find_dir name cur) as [c|] eqn:F; [|discriminate].
    intros E. inversion E. subst. constructor; [|exact G].
    inversion G; subst. apply find_dir_in in F as [n F]. eauto.
Qed.

Lemma enter_all_keeps (names : list string) :
  forall stack stack',
    Forall P stack -> enter_all stack names = Some stack' -> Forall P stack'.
Proof.
  induction names as [|n t IH]; simpl; intros stack stack' G E.
  - inversion E. now subst.
  - destruct (enter stack n) as [s1|] eqn:E1; [|discriminate].
    apply (IH s1); [|exact E]. now apply enter_keeps with stack n.
Qed.

Lemma lookup_dir_keeps (h : host) (path : string) (entries : list node) :
  P (root_entries h) -> lookup_dir h path = Some entries -> P entries.
Proof.
  unfold lookup_dir. intros G.
  destruct (String.eqb path ""); [discriminate|].
  assert (G0 : Forall P [root_entries h])
    by (constructor; [exact G | constructor]).
  destruct (if PosixPath.isabs path then Some [root_entries h]
            else enter_all [root_entries h] (cwd_names h))
    as [start|] eqn:S; [|discriminate].
  assert (G1 : Forall P start).
  { destruct (PosixPath.isabs path); [inversion S; now subst|].
    now apply enter_all_keeps with (cwd_names h) [root_entries h]. }
  destruct (enter_all start (pieces path)) as [[|cur t]|] eqn:E;
    try discriminate.
  intros X. inversion X. subst.
  apply enter_all_keeps in E; [|exact G1]. now inversion E.
Qed.

End Kept.

Lemma lookup_dir_distinct (h : host) (path : string) (entries : list node) :
  distinct_host h = true -> lookup_dir h path = Some entries ->
  distinct_entries entries = true.
Proof.
  apply (@lookup_dir_keeps (fun e => distinct_entries e = true)).
  intros n c es D I. unfold distinct_entries in D.
  apply andb_prop in D as [_ D]. rewrite forallb_forall in D.
  exact (D _ I).
Qed.

Lemma selection_within (inc exc : criteria) (excl : list string)
  (entries : list (string * list string * list string)) (p : string) :
  In p (selection inc exc excl entries) -> In p (all_files entries).
Proof.
  unfold selection, all_files. rewrite !in_flat_map.
  intros [t [T I]]. exists t. split; [exact T|].
  destruct (skipped excl (fst (fst t))); [destruct I|].
  now apply filter_In in I.
Qed.

Lemma selection_once (inc exc : criteria) (excl : list string)
  (entries : list (string * list string * list string)) :
  NoDup (all_files entries) -> NoDup (selection inc exc excl entries).
Proof.
  induction entries as [|t r IH]; [constructor|].
  unfold selection, all_files in *. cbn [flat_map]. intros N.
  apply NoDup_app.
  - destruct (skipped excl (fst (fst t))); [constructor|].
    apply NoDup_filter. now apply NoDup_app_remove_r in N.
  - apply IH. now apply NoDup_app_remove_l in N.
  - intros p I1 I2. apply (@nodup_app_apart _ _ _ N p).
    + destruct (skipped excl (fst (fst t))); [destruct I1|].
      now apply filter_In in I1.
    + now apply (@selection_within inc exc excl r p).
Qed.

(** The files of the walk of a root: no path twice, and every path
    begins with the root. *)
Lemma os_walk_files (h : host) (d : string) :
  good_host h = true ->
  (distinct_host h = true -> NoDup (all_files (os_walk h d))) /\
  (forall p, In p (all_files (os_walk h d)) -> starts_with p d).
Proof.
  intros G. unfold os_walk.
  destruct (lookup_dir h d) as [entries|] eqn:L;
    [|split; [constructor | intros p []]].
  pose proof (@lookup_dir_good h d entries G L) as Ge. split.
  - intros D. pose proof (@lookup_dir_distinct h d entries D L) as De.
    apply walk_files_once. intros n c E. inversion E. now subst.
  - intros p I. apply walk_files_shape in I as [rest ->].
    + destruct (before_name_extends d) as [r ->].
      exists (r ++ rest)%string. apply append_assoc.
    + intros n c E. inversion E. now subst.
Qed.

Lemma search_files_list (h : host) (a : arguments) (l : list string) :
  outcome (search_files h a) = Ok l ->
  l = concat (map (fun d => selection (inclusion h a) (exclusion h a)
                              (fragments h a) (os_walk h d)) (roots h a)).
Proof.
  intros E. apply search_files_stages in E as [_ [_ E]].
  apply scan_directories_list in E. now rewrite <- flat_map_concat_map.
Qed.

End OnceFacts.

(** X14.  One segment for each root, and in it no file twice.  On a
    host whose names are well formed and differ within each directory,
    the list a call returns is the concatenation, in the order of the
    roots, of one segment for each root: no path occurs twice in a
    segment, and every path of a segment begins with the root as the
    caller wrote it.  A path can occur twice in the list only in the
    segments of two roots. *)
Theorem each_root_gives_each_file_once (h : Fs.host) (a : arguments)
  (l : list string) :
  Fs.good_host h = true ->
  distinct_host h = true ->
  outcome (search_files h a) = Ok l ->
  exists segments,
    l = concat segments /\
    Forall2 (fun d segment =>
               NoDup segment /\ forall p, In p segment -> starts_with p d)
            (roots h a) segments.
Proof.
  intros G D E. apply search_files_list in E.
  eexists. split; [exact E|]. clear E.
  induction (roots h a) as [|d t IH]; constructor; [|exact IH].
  destruct (@os_walk_files h d G) as [N S]. split.
  - apply selection_once. auto.
  - intros p I. apply S. now apply selection_within in I.
Qed.

Section CalledFacts.

Lemma in_events_bind_l (A B : Type) (m : M A) (k : A -> M B) (ev : event) :
  In ev (events m) -> In ev (events (bind m k)).
Proof. rewrite events_bind. intros I. apply in_or_app. now left. Qed.

Lemma in_events_bind_r (A B : Type) (m : M A) (k : A -> M B) (a : A)
  (ev : event) :
  outcome m = Ok a -> In ev (events (k a)) -> In ev (events (bind m k)).
Proof.
  rewrite events_bind. intros O I. apply in_or_app. right. now rewrite O.
Qed.

(** When the include test answers for a file the include groups
    accept, the predicate has been called and has returned. *)
Lemma included_called (c : criteria) (p : string) (v : bool) (f : predicate) :
  outcome (included c p) = Ok v ->
  c_filter c = Some f ->
  include_strings c p ->
  In (EvCall Include p) (events (included c p)) /\ exists b, f p = Returns b.
Proof.
  rewrite included_split, outcome_and_then, events_and_then.
  intros H F S. rewrite F in *.
  pose proof (included_decides (strings_only c) p) as D.
  apply (proj2 (strings_only_inclusion c p)) in S.
  destruct (outcome (included (strings_only c) p)) as [[|]|] eqn:O;
    [|pose proof (proj2 (D false O) S); discriminate|discriminate].
  rewrite outcome_call in H. split.
  - apply in_or_app. right. rewrite events_call. now left.
  - destruct (f p) as [b|e]; [now exists b | discriminate].
Qed.

Lemma excluded_called (c : criteria) (p : string) (v : bool) (g : predicate) :
  outcome (excluded c p) = Ok v ->
  c_filter c = Some g ->
  ~ exclude_strings c p ->
  In (EvCall Exclude p) (events (excluded c p)) /\ exists b, g p = Returns b.
Proof.
  rewrite excluded_split, outcome_or_else, events_or_else.
  intros H F S. rewrite F in *.
  pose proof (excluded_decides (strings_only c) p) as D.
  destruct (outcome (excluded (strings_only c) p)) as [[|]|] eqn:O;
    [|rewrite outcome_call in H|discriminate].
  - exfalso. apply S. apply strings_only_exclusion.
    now apply (D true O).
  - split.
    + apply in_or_app. right. rewrite events_call. now left.
    + destruct (g p) as [b|e]; [now exists b | discriminate].
Qed.

Variables inc exc : criteria.

Lemma called_more (log log' : list event) (p : string) :
  (forall ev, In ev log -> In ev log') -> called inc exc log p -> called inc exc log' p.
Proof.
  intros S [A B]. split.
  - intros f F I. destruct (A f F I). auto.
  - intros g F I N. destruct (B g F I N). auto.
Qed.

Lemma test_called (p : string) (keep : bool) :
  outcome (included inc p <&&> (b <- excluded exc p ;; ret (negb b)))
  = Ok keep ->
  called inc exc (events (included inc p <&&> (b <- excluded exc p ;; ret (negb b))))
    p.
Proof.
  rewrite outcome_and_then, events_and_then. intros H.
  pose proof (included_decides inc p) as D.
  destruct (outcome (included inc p)) as [[|]|] eqn:O; [| |discriminate].
  - apply bind_ok in H as [b [X _]]. split.
    + intros f F S. destruct (@included_called _ _ _ _ O F S) as [I R].
      split; [apply in_or_app; now left | exact R].
    + intros g F _ N. destruct (@excluded_called _ _ _ _ X F N) as [I R].
      split; [|exact R]. apply in_or_app. right.
      now apply in_events_bind_l.
  - split.
    + intros f F S. destruct (@included_called _ _ _ _ O F S) as [I R].
      split; [apply in_or_app; now left | exact R].
    + intros g _ S _. pose proof (proj2 (D false O) S). discriminate.
Qed.

Lemma scan_files_called (root : string) (files : list string) :
  forall acc l,
    outcome (scan_files inc exc root files acc) = Ok l ->
    forall file, In file files ->
      called inc exc (events (scan_files inc exc root files acc))
        (PosixPath.join root file).
Proof.
  induction files as [|x t IH]; intros acc l E file I; [destruct I|].
  cbn [scan_files] in *. apply bind_ok in E as [keep [K E]].
  destruct I as [<- | I].
  - eapply called_more; [|exact (@test_called _ _ K)].
    intros ev. apply in_events_bind_l.
  - eapply called_more; [|exact (IH _ _ E file I)].
    intros ev J. eapply in_events_bind_r; [exact K | exact J].
Qed.

Lemma scan_walk_called (excl : list string)
  (entries : list (string * list string * list string)) :
  forall acc l,
    outcome (scan_walk inc exc excl entries acc) = Ok l ->
    forall root dirs files file,
      In (root, dirs, files) entries -> ~ pruned excl root ->
      In file files ->
      called inc exc (events (scan_walk inc exc excl entries acc))
        (PosixPath.join root file).
Proof.
  induction entries as [|[[r d] f] t IH]; intros acc l E root dirs files file I N F;
    [destruct I|].
  cbn [scan_walk] in *. rewrite outcome_tell_then in E.
  rewrite events_tell_then.
  apply called_more with
    (log := events (if skipped excl r
                    then scan_walk inc exc excl t acc
                    else l0 <- scan_files inc exc r f acc ;;
                         scan_walk inc exc excl t l0));
    [intros ev; now right|].
  destruct (skipped excl r) eqn:S.
  - destruct I as [I | I]; [|now apply IH with l dirs files].
    inversion I. subst. apply skipped_iff in S. contradiction.
  - apply bind_ok in E as [l' [X E]]. destruct I as [I | I].
    + inversion I. subst.
      eapply called_more; [|exact (@scan_files_called _ _ _ _ X file F)].
      intros ev. apply in_events_bind_l.
    + eapply called_more; [|exact (IH _ _ E root dirs files file I N F)].
      intros ev J. eapply in_events_bind_r; [exact X | exact J].
Qed.

Lemma scan_directories_called (h : Fs.host) (excl : list string)
  (ds : list string) :
  forall acc l,
    outcome (scan_directories h inc exc excl ds acc) = Ok l ->
    forall d root dirs files file,
      In d ds -> In (root, dirs, files) (Fs.os_walk h d) ->
      ~ pruned excl root -> In file files ->
      called inc exc (events (scan_directories h inc exc excl ds acc))
        (PosixPath.join root file).
Proof.
  induction ds as [|x t IH]; intros acc l E d root dirs files file I W N F;
    [destruct I|].
  cbn [scan_directories] in *. apply bind_ok in E as [l' [X E]].
  destruct I as [<- | I].
  - eapply called_more; [|exact (@scan_walk_called _ _ _ _ X _ _ _ _ W N F)].
    intros ev. apply in_events_bind_l.
  - eapply called_more; [|exact (IH _ _ E d root dirs files file I W N F)].
    intros ev J. eapply in_events_bind_r; [exact X | exact J].
Qed.

End CalledFacts.

(** X15.  A call that returns has called the predicates wherever they
    decide, and each of these calls returned.  For every file of a
    directory of the walk that is not skipped: when the include groups
    accept the file, [include_filter] (if there is one) was called on
    its path and returned a truth value; when the file passed the
    include test and no exclude group matched it, [exclude_filter] (if
    there is one) was called on its path and returned a truth value.
    So a predicate that raises on such a file ends the call: no list is
    returned. *)
Theorem predicates_are_called_where_they_decide (h : Fs.host) (a : arguments)
  (l : list string) (root p : string) :
  outcome (search_files h a) = Ok l ->
  candidate h a root p ->
  ~ pruned (fragments h a) root ->
  (forall f, include_filter a = Some f ->
     include_strings (inclusion h a) p ->
     In (EvCall Include p) (events (search_files h a)) /\
     exists b, f p = Returns b) /\
  (forall g, exclude_filter a = Some g ->
     satisfies_inclusion (inclusion h a) p ->
     ~ exclude_strings (exclusion h a) p ->
     In (EvCall Exclude p) (events (search_files h a)) /\
     exists b, g p = Returns b).
Proof.
  intros E [d [dirs [files [file [D [W [F ->]]]]]]] N.
  assert (S : forall ev,
            In ev (events (scan_directories h (inclusion h a) (exclusion h a)
                             (fragments h a) (roots h a) [])) ->
            In ev (events (search_files h a))).
  { intros ev I. unfold search_files in *.
    apply bind_ok in E as [[] [C E]]. apply bind_ok in E as [v [V E]].
    apply bind_ok in E as [[] [K E]].
    eapply in_events_bind_r; [exact C|].
    eapply in_events_bind_r; [exact V|].
    eapply in_events_bind_r; [exact K|].
    destruct (default_directory_is h a V) as [-> R]. rewrite R. exact I. }
  apply search_files_stages in E as [_ [_ E]].
  exact (@called_more _ _ _ _ _ S
           (@scan_directories_called _ _ _ _ _ _ _ E _ _ _ _ _ D W N F)).
Qed.

(** X16.  What a call returns.  For every engine, every host and every
    call that returns a list, a path is in the list if and only if it
    is a file met by the walk of one of the roots, in a directory whose
    path contains none of the fragments, it satisfies the inclusion
    criteria (each include group empty or matched by one of its
    elements, the custom predicate absent or true) and it does not
    satisfy the exclusion criteria (no exclude group matched, the
    custom predicate absent or not true); in particular a file that
    satisfies both is not returned.  The fragments and the criteria
    are those the loops read, and they are the strings the caller gave
    whenever no other parameter was given the object of
    [include_directory]. *)
Theorem search_files_returns_exactly (h : Fs.host) (a : arguments)
  (l : list string) :
  outcome (search_files h a) = Ok l ->
  (forall p, In p l <->
     exists root,
       candidate h a root p /\
       ~ pruned (fragments h a) root /\
       satisfies_inclusion (inclusion h a) p /\
       ~ satisfies_exclusion (exclusion h a) p) /\
  (forall p, satisfies_inclusion (inclusion h a) p ->
             satisfies_exclusion (exclusion h a) p -> ~ In p l) /\
  (unshared a ->
   inclusion h a = given_inclusion a /\
   exclusion h a = given_exclusion a /\
   fragments h a = given a Exclude_subdirectory).
Proof.
  intros E. pose proof (search_files_members h a E) as R.
  split; [exact R|]. split; [|apply unshared_criteria].
  intros p _ X I. apply R in I as [r I]. tauto.
Qed.

(** X17.  An empty sequence that is not a list, given as
    [include_directory].  The check lets every empty sequence through,
    and the default is applied with [append].  When the class has no
    such method (a tuple, [bytes], a [range]) the call ends with an
    attribute error and has done nothing, not even asked for the
    working directory.  When the method refuses a string (a
    [bytearray]) the call asks for the working directory and ends with
    what the method raises, a type error for a [bytearray]; it has done
    nothing else. *)
Theorem empty_sequence_directory_raises (h : Fs.host) (a : arguments) :
  forallb check_type_union (checked_parameters a) = true ->
  (include_directory a = PyTuple [] \/ include_directory a = PyBytes [] \/
   include_directory a = PySeq NoAppend [] ->
   exists msg, search_files h a = ([], Err (AttributeError msg))) /\
  (forall e, include_directory a = PySeq (AppendRaises e) [] ->
             search_files h a = ([EvGetcwd], Err e)).
Proof.
  intros C. unfold search_files. rewrite check_parameters_eq, C, bind_ret_l.
  split.
  - intros [E | [E | E]]; rewrite E; eexists; reflexivity.
  - intros e E. rewrite E. reflexivity.
Qed.

End Search.

(* ================================================================== *)
(** * The claims and the further properties on the scenarios

    The statements above hold for every engine.  Here they are applied
    on the hosts of the scenarios, with the engine of the fragment. *)

(** C2, as stated, fails on one point: the walk does go down into a
    directory whose path contains a fragment.  With the fragment [sub],
    the directory [/d/sub] is skipped and [/d/sub/deep] below it is
    still listed. *)
Lemma walk_goes_below_a_skipped_directory :
  skipped ["sub"] "/d/sub" = true /\
  In (EvScandir "/d/sub/deep")
     (events (search_files Re.fragment deep_host
                (request PyNone PyNone PyNone PyNone (PyList [PyStr "sub"])
                         PyNone))).
Proof. split; [reflexivity | vm_compute; auto 10]. Qed.

Lemma pruned_directory_is_passed_over_witness :
  exists before after,
    Fs.os_walk deep_host "/d" =
    before ++ Fs.walk "/d/sub" [Fs.File "c.py"; Fs.Dir "deep" [Fs.File "e.py"]]
           ++ after /\
    forall acc,
      scan_walk Re.fragment (only_pattern "a") (only_pattern "b") ["ub"]
        (Fs.os_walk deep_host "/d") acc =
      (l <- scan_walk Re.fragment (only_pattern "a") (only_pattern "b") ["ub"] before acc ;;
       pass (Fs.walk "/d/sub"
               [Fs.File "c.py"; Fs.Dir "deep" [Fs.File "e.py"]]) ;;;
       scan_walk Re.fragment (only_pattern "a") (only_pattern "b") ["ub"] after l).
Proof.
  apply (pruned_directory_is_passed_over Re.fragment deep_host (only_pattern "a")
           (only_pattern "b") ["ub"] (directory := "/d")
           (entries := [Fs.File "a.py";
                        Fs.Dir "sub" [Fs.File "c.py";
                                      Fs.Dir "deep" [Fs.File "e.py"]];
                        Fs.Dir "subdirectory" [Fs.File "g.py"];
                        Fs.Dir "other" [Fs.File "h.py"]])).
  - reflexivity.
  - reflexivity.
  - apply Fs.visits_below with "sub"
      [Fs.File "c.py"; Fs.Dir "deep" [Fs.File "e.py"]];
      [simpl; auto | apply Fs.visits_here].
  - exists "ub". split; [simpl; auto | now exists "/d/s", ""].
Defined.

(** C4, as stated, fails: a relative root gives relative paths. *)
Lemma relative_root_gives_relative_paths :
  outcome (search_files Re.fragment demo_host
             (request (PyStr "sub") PyNone PyNone PyNone PyNone PyNone))
  = Ok ["sub/c.py"] /\
  PosixPath.isabs "sub/c.py" = false.
Proof. split; vm_compute; reflexivity. Qed.

Lemma absolute_roots_give_absolute_paths_witness :
  PosixPath.isabs "/d/sub/c.py" = true.
Proof.
  apply (@absolute_roots_give_absolute_paths Re.fragment demo_host
           (request (PyStr "/d") PyNone PyNone (PyList [PyStr ".py"])
                    PyNone PyNone) ["/d/a.py"; "/d/sub/c.py"]).
  - vm_compute. reflexivity.
  - intros d [<- | []]. reflexivity.
  - simpl. auto.
Defined.

(** C5, as stated, fails: the custom predicates are not checked, and
    one that is not callable makes the call end with a type error
    although every checked parameter conforms, and after the
    filesystem has been read. *)
Lemma uncallable_predicate_raises_type_error :
  (forall v, In v (checked_parameters (filtered not_callable)) -> conforms v) /\
  search_files Re.fragment demo_host (filtered not_callable)
  = ([EvGetcwd; EvIsdir "/d"; EvScandir "/d"; EvCall Include "/d/a.py"],
     Err (TypeError "'int' object is not callable")).
Proof.
  split; [|vm_compute; reflexivity].
  intros v I. simpl in I.
  repeat (destruct I as [<- | I]; [now left|]). destruct I.
Qed.

Lemma type_error_comes_from_the_check_witness :
  search_files Re.fragment demo_host
    (request (PyStr "/nowhere") PyNone (PyList [PyStr "a"; PyInt 3]) PyNone
             PyNone PyNone)
  = ([], Err wrong_type) /\
  ((exists msg,
      outcome (search_files Re.fragment demo_host
                 (request (PyStr "/d") PyNone (PyStr "a") PyNone PyNone PyNone))
      = Err (TypeError msg)) <->
   (exists v,
      In v (checked_parameters
              (request (PyStr "/d") PyNone (PyStr "a") PyNone PyNone PyNone)) /\
      ~ conforms v)).
Proof.
  split.
  - apply (proj1 (type_error_comes_from_the_check Re.fragment demo_host
             (request (PyStr "/nowhere") PyNone (PyList [PyStr "a"; PyInt 3])
                      PyNone PyNone PyNone))).
    exists (PyList [PyStr "a"; PyInt 3]). split; [simpl; auto|].
    intros C. apply check_type_union_iff in C. discriminate.
  - apply (proj2 (type_error_comes_from_the_check Re.fragment demo_host
             (request (PyStr "/d") PyNone (PyStr "a") PyNone PyNone PyNone))).
    + intros g p msg F. discriminate F.
    + intros g p msg F. discriminate F.
    + intros [msg F]. discriminate F.
Defined.

Lemma missing_root_raises_not_found_witness :
  exists d,
    In d ["/d"; "/d/a.py"; "/nowhere"] /\ Fs.isdir demo_host d = false /\
    outcome (search_files Re.fragment demo_host
               (request (PyTuple [PyStr "/d"; PyStr "/d/a.py"; PyStr "/nowhere"])
                        PyNone PyNone PyNone PyNone PyNone))
    = Err (FileNotFoundError d) /\
    Forall (fun ev => exists p, ev = EvIsdir p)
      (events (search_files Re.fragment demo_host
                 (request (PyTuple [PyStr "/d"; PyStr "/d/a.py"; PyStr "/nowhere"])
                          PyNone PyNone PyNone PyNone PyNone))).
Proof.
  apply (@missing_root_raises_not_found Re.fragment demo_host
           (request (PyTuple [PyStr "/d"; PyStr "/d/a.py"; PyStr "/nowhere"])
                    PyNone PyNone PyNone PyNone PyNone)).
  - reflexivity.
  - exists "/nowhere". split; [simpl; auto | reflexivity].
Defined.

(** C7 on the pattern [data]: it is accepted for [data1.txt], which
    [re.fullmatch] refuses, and refused for [mydata1.txt], which
    [re.search] accepts. *)
Lemma pattern_is_matched_at_start_witness :
  outcome (included Re.fragment (only_pattern "data") "/d/data1.txt")
  = Ok true /\
  Re.re_fullmatch Re.fragment "data" (base_name "/d/data1.txt") = Ok false /\
  outcome (included Re.fragment (only_pattern "data") "/d/mydata1.txt")
  = Ok false /\
  Re.re_search Re.fragment "data" (base_name "/d/mydata1.txt") = Ok true /\
  anchored_match Re.fragment "^data\d+$" (base_name "/d/data23.csv").
Proof.
  split; [|split; [vm_compute; reflexivity|split; [|split]]].
  - rewrite (proj1 (pattern_is_matched_at_start Re.fragment
                      "/d/data1.txt" "data")).
    vm_compute. reflexivity.
  - rewrite (proj1 (pattern_is_matched_at_start Re.fragment
                      "/d/mydata1.txt" "data")).
    vm_compute. reflexivity.
  - vm_compute. reflexivity.
  - apply (proj1 (proj1 (proj2 (proj2 (pattern_is_matched_at_start Re.fragment
                                         "/d/data23.csv" "^data\d+$"))))).
    vm_compute. reflexivity.
Defined.

Lemma extract_file_components_roundtrip_witness :
  extract_file_components (PyList [PyStr "a"; PyStr "b"])
  = Err (TypeError "Parameter filepath is not string.").
Proof.
  apply (proj2 extract_file_components_roundtrip (PyList [PyStr "a"; PyStr "b"])).
  reflexivity.
Defined.

Lemma custom_predicates_are_called_last_witness :
  included Re.fragment (guarded "report") "/r/secret_report.txt"
  = included Re.fragment (strings_only (guarded "report")) "/r/secret_report.txt" /\
  calls_nothing (included Re.fragment (guarded "report") "/r/secret_report.txt").
Proof.
  apply (proj1 (proj2 (proj2
           (custom_predicates_are_called_last Re.fragment (guarded "report")
              (guarded "report") "/r/secret_report.txt")))).
  intros [[E | [x [[<- | []] [r H]]]] _];
    [discriminate | vm_compute in H; discriminate].
Defined.

Lemma pruned_root_contributes_nothing_witness :
  scan_directories Re.fragment demo_host (only_pattern "a") (only_pattern "b") [""]
    ["/d"; "/r"] [] =
  (pass (Fs.os_walk demo_host "/d") ;;;
   scan_directories Re.fragment demo_host (only_pattern "a") (only_pattern "b") [""]
     ["/r"] []).
Proof.
  apply (@pruned_root_contributes_nothing Re.fragment demo_host (only_pattern "a")
           (only_pattern "b") [""] "/d" ["/r"] []).
  - reflexivity.
  - exists "". split; [simpl; auto | now left].
Defined.

Lemma result_follows_the_traversal_witness :
  ["/d/a.py"; "/d/sub/c.py"; "/d/sub/c.py"] =
  flat_map (fun d => selection Re.fragment
              (inclusion demo_host (request (PyList [PyStr "/d"; PyStr "/d/sub"]) PyNone
                            PyNone (PyStr ".py") PyNone PyNone))
              (exclusion demo_host (request (PyList [PyStr "/d"; PyStr "/d/sub"]) PyNone
                            PyNone (PyStr ".py") PyNone PyNone))
              (fragments demo_host (request (PyList [PyStr "/d"; PyStr "/d/sub"]) PyNone
                            PyNone (PyStr ".py") PyNone PyNone))
              (Fs.os_walk demo_host d))
           (roots demo_host
              (request (PyList [PyStr "/d"; PyStr "/d/sub"]) PyNone
                 PyNone (PyStr ".py") PyNone PyNone)).
Proof.
  apply (@result_follows_the_traversal Re.fragment demo_host
           (request (PyList [PyStr "/d"; PyStr "/d/sub"]) PyNone PyNone
              (PyStr ".py") PyNone PyNone)).
  vm_compute. reflexivity.
Defined.

Lemma no_filter_returns_every_file_witness :
  outcome (search_files Re.fragment deep_host
             (request (PyTuple [PyStr "sub"; PyStr "/d/other"]) PyNone PyNone
                PyNone PyNone PyNone))
  = Ok (flat_map (fun d => all_files (Fs.os_walk deep_host d))
          (roots deep_host
             (request (PyTuple [PyStr "sub"; PyStr "/d/other"]) PyNone PyNone
                PyNone PyNone PyNone))).
Proof.
  apply (@no_filter_returns_every_file Re.fragment deep_host
           (request (PyTuple [PyStr "sub"; PyStr "/d/other"]) PyNone PyNone
              PyNone PyNone PyNone)).
  - reflexivity.
  - intros Z. discriminate Z.
  - intros p S. discriminate S.
  - intros d [<- | [<- | []]]; reflexivity.
  - reflexivity.
  - reflexivity.
  - reflexivity.
Defined.

Lemma nothing_to_test_returns_nothing_witness :
  outcome (search_files Re.fragment demo_host
             {| include_directory := PyStr "/d/sub";
                include_pattern := PyStr "(";
                include_start := PyNone; include_content := PyNone;
                include_end := PyNone; include_extension := PyNone;
                include_filter := Some not_callable;
                exclude_subdirectory := PyStr "d/s";
                exclude_pattern := PyNone;
                exclude_start := PyNone; exclude_content := PyNone;
                exclude_end := PyNone; exclude_extension := PyNone;
                exclude_filter := None; same_object := [] |})
  = Ok [].
Proof.
  apply nothing_to_test_returns_nothing.
  - reflexivity.
  - intros Z. discriminate Z.
  - intros d [<- | []]. reflexivity.
  - intros d root dirs files [<- | []] [E | []]. inversion E. now left.
Defined.

Lemma roots_are_searched_in_turn_witness :
  outcome (search_files Re.fragment demo_host
             (with_directory (PyList (map PyStr (["/d"] ++ ["/d/sub"; "/d"])))
                (request PyNone PyNone PyNone (PyStr ".py") PyNone PyNone)))
  = Ok (["/d/a.py"; "/d/sub/c.py"] ++ ["/d/sub/c.py"; "/d/a.py"; "/d/sub/c.py"]).
Proof.
  apply roots_are_searched_in_turn.
  - discriminate.
  - discriminate.
  - vm_compute. reflexivity.
  - vm_compute. reflexivity.
Defined.

Lemma include_and_exclude_split_the_files_witness :
  ["/d/a.py"; "/d/sub/c.py"]
  = filter (keeps Re.fragment (inclusion demo_host (request (PyStr "/d") PyNone PyNone (PyStr ".py")
                                PyNone PyNone)) no_criteria)
      ["/d/a.py"; "/d/b.txt"; "/d/sub/c.py"] /\
  ["/d/b.txt"]
  = filter (fun p => negb (keeps Re.fragment (inclusion demo_host (request (PyStr "/d") PyNone PyNone
                                               (PyStr ".py") PyNone PyNone))
                             no_criteria p))
      ["/d/a.py"; "/d/b.txt"; "/d/sub/c.py"].
Proof.
  apply (@include_and_exclude_split_the_files Re.fragment demo_host
           (request (PyStr "/d") PyNone PyNone PyNone PyNone PyNone)
           (request (PyStr "/d") PyNone PyNone (PyStr ".py") PyNone PyNone)
           {| include_directory := PyStr "/d"; include_pattern := PyNone;
              include_start := PyNone; include_content := PyNone;
              include_end := PyNone; include_extension := PyNone;
              include_filter := None;
              exclude_subdirectory := PyNone; exclude_pattern := PyNone;
              exclude_start := PyNone; exclude_content := PyNone;
              exclude_end := PyNone; exclude_extension := PyStr ".py";
              exclude_filter := None; same_object := [] |});
    reflexivity.
Defined.

Lemma a_call_stays_within_its_roots_witness :
  allowed Re.fragment demo_host
    {| include_directory := PyStr "/r"; include_pattern := PyNone;
       include_start := PyNone; include_content := PyNone;
       include_end := PyNone; include_extension := PyNone;
       include_filter := None;
       exclude_subdirectory := PyNone; exclude_pattern := PyNone;
       exclude_start := PyStr "report_f"; exclude_content := PyNone;
       exclude_end := PyNone; exclude_extension := PyNone;
       exclude_filter := Some (fun _ => Returns false);
                   same_object := [] |}
    (EvCall Exclude "/r/report_draft.txt").
Proof.
  apply a_call_stays_within_its_roots. vm_compute. auto 10.
Defined.

Lemma string_tests_see_the_name_only_witness :
  base_name (PosixPath.join "/d/report.d" "report_final.txt")
  = base_name "report_final.txt" /\
  extension_of (PosixPath.join "/d/report.d" "report_final.txt")
  = extension_of "report_final.txt" /\
  included Re.fragment (strings_only (guarded "report"))
    (PosixPath.join "/d/report.d" "report_final.txt")
  = included Re.fragment (strings_only (guarded "report"))
      (PosixPath.join "elsewhere/" "report_final.txt") /\
  excluded Re.fragment (strings_only (guarded "report"))
    (PosixPath.join "/d/report.d" "report_final.txt")
  = excluded Re.fragment (strings_only (guarded "report"))
      (PosixPath.join "elsewhere/" "report_final.txt").
Proof.
  apply (string_tests_see_the_name_only Re.fragment "/d/report.d" "elsewhere/"
           "report_final.txt" (guarded "report")).
  reflexivity.
Defined.

Lemma extension_without_dot_finds_nothing_witness :
  outcome (search_files Re.fragment demo_host
             (request (PyStr "/r") PyNone PyNone (PyStr "txt") PyNone PyNone))
  = Ok [] /\
  outcome (search_files Re.fragment demo_host
             (request (PyStr "/r") PyNone PyNone (PyStr ".txt") PyNone PyNone))
  <> Ok [].
Proof.
  split; [|vm_compute; discriminate].
  assert (E : exists l,
            outcome (search_files Re.fragment demo_host
                       (request (PyStr "/r") PyNone PyNone (PyStr "txt")
                          PyNone PyNone)) = Ok l)
    by (eexists; vm_compute; reflexivity).
  destruct E as [l E]. rewrite E. f_equal.
  apply (@extension_without_dot_finds_nothing Re.fragment demo_host
           (request (PyStr "/r") PyNone PyNone (PyStr "txt") PyNone PyNone) l);
    [vm_compute; discriminate | | exact E].
  vm_compute. intros e [<- | []]. split; [discriminate | reflexivity].
Defined.

Lemma empty_string_excludes_everything_witness :
  outcome (search_files Re.fragment demo_host
             (request (PyStr "/r") PyNone PyNone PyNone (PyStr "") PyNone))
  = Ok [].
Proof.
  assert (E : exists l,
            outcome (search_files Re.fragment demo_host
                       (request (PyStr "/r") PyNone PyNone PyNone (PyStr "")
                          PyNone)) = Ok l)
    by (eexists; vm_compute; reflexivity).
  destruct E as [l E]. rewrite E. f_equal.
  apply (@empty_string_excludes_everything Re.fragment demo_host
           (request (PyStr "/r") PyNone PyNone PyNone (PyStr "") PyNone) l);
    [|exact E].
  right. right. right. vm_compute. now left.
Defined.

Lemma more_exclusions_return_less_witness :
  In "/d/subdirectory/g.py"
     ["/d/sub/c.py"; "/d/subdirectory/g.py"; "/d/other/h.py"].
Proof.
  apply (@more_exclusions_return_less Re.fragment deep_host
           (request (PyStr "/d") PyNone PyNone PyNone (PyStr "deep")
              (PyStr "a"))
           (request (PyStr "/d") PyNone PyNone PyNone
              (PyList [PyStr "deep"; PyStr "other"])
              (PyList [PyStr "a"; PyStr "c"]))
           ["/d/sub/c.py"; "/d/subdirectory/g.py"; "/d/other/h.py"]
           ["/d/subdirectory/g.py"]).
  - reflexivity.
  - reflexivity.
  - vm_compute. repeat split; intros x H; tauto.
  - vm_compute. intros x H. tauto.
  - vm_compute. reflexivity.
  - vm_compute. reflexivity.
  - now left.
Defined.

Lemma extract_file_components_cuts_witness :
  (exists z,
     "/a//b.tar.gz" = ("/a" ++ z ++ "b.tar" ++ ".gz")%string /\
     all_char PosixPath.sep z = true /\
     (z = "" -> all_char PosixPath.sep "/a" = true)) /\
  (all_char PosixPath.sep "/a" = true \/ endswith "/a" "/" = false) /\
  str_in "/" "b.tar" = false /\
  str_in "/" ".gz" = false /\
  (".gz" = "" \/
   exists r, ".gz" = String "." r /\ str_in "." r = false /\
             PosixPath.has_other PosixPath.extsep "b.tar" = true).
Proof.
  apply (@extract_file_components_cuts "/a//b.tar.gz" "/a" "b.tar" ".gz").
  reflexivity.
Defined.

Lemma each_root_gives_each_file_once_witness :
  exists segments,
    ["/d/a.py"; "/d/sub/c.py"; "/d/sub/c.py"] = concat segments /\
    Forall2 (fun d segment =>
               NoDup segment /\ forall p, In p segment -> starts_with p d)
            ["/d"; "/d/sub"] segments.
Proof.
  apply (@each_root_gives_each_file_once Re.fragment demo_host
           (request (PyList [PyStr "/d"; PyStr "/d/sub"]) PyNone PyNone
              (PyStr ".py") PyNone PyNone)
           ["/d/a.py"; "/d/sub/c.py"; "/d/sub/c.py"]);
    vm_compute; reflexivity.
Defined.

Lemma predicates_are_called_where_they_decide_witness :
  In (EvCall Exclude "/r/report_draft.txt")
     (events (search_files Re.fragment demo_host
                {| include_directory := PyStr "/r"; include_pattern := PyNone;
                   include_start := PyNone; include_content := PyNone;
                   include_end := PyNone; include_extension := PyNone;
                   include_filter := None;
                   exclude_subdirectory := PyNone; exclude_pattern := PyNone;
                   exclude_start := PyStr "report_f";
                   exclude_content := PyNone;
                   exclude_end := PyNone; exclude_extension := PyNone;
                   exclude_filter := Some (fun _ => Returns false);
                   same_object := [] |})) /\
  exists b, (fun _ : string => Returns false) "/r/report_draft.txt"
            = Returns b.
Proof.
  refine (proj2 (@predicates_are_called_where_they_decide Re.fragment demo_host
                   {| include_directory := PyStr "/r";
                      include_pattern := PyNone;
                      include_start := PyNone; include_content := PyNone;
                      include_end := PyNone; include_extension := PyNone;
                      include_filter := None;
                      exclude_subdirectory := PyNone;
                      exclude_pattern := PyNone;
                      exclude_start := PyStr "report_f";
                      exclude_content := PyNone;
                      exclude_end := PyNone; exclude_extension := PyNone;
                      exclude_filter := Some (fun _ => Returns false);
                   same_object := [] |}
                   ["/r/report_draft.txt"] "/r" "/r/report_draft.txt" _ _ _)
            (fun _ => Returns false) eq_refl _ _).
  - vm_compute. reflexivity.
  - exists "/r", [], ["report_final.txt"; "report_draft.txt"],
      "report_draft.txt".
    vm_compute. auto 10.
  - intros [e [[] _]].
  - vm_compute. repeat split; now left.
  - intros X. apply strings_only_exclusion in X.
    pose proof (excluded_decides Re.fragment
                  (strings_only
                     {| c_patterns := []; c_starts := ["report_f"];
                        c_contains := []; c_ends := []; c_exts := [];
                        c_filter := None |}) "/r/report_draft.txt") as D.
    pose proof (proj2 (D false eq_refl) X). discriminate.
Defined.

Lemma search_files_returns_exactly_witness :
  (forall p, In p ["/r/report_draft.txt"] <->
     exists root,
       candidate demo_host report_call root p /\
       ~ pruned (fragments demo_host report_call) root /\
       satisfies_inclusion Re.fragment (inclusion demo_host report_call) p /\
       ~ satisfies_exclusion Re.fragment (exclusion demo_host report_call) p) /\
  (forall p,
     satisfies_inclusion Re.fragment (inclusion demo_host report_call) p ->
     satisfies_exclusion Re.fragment (exclusion demo_host report_call) p ->
     ~ In p ["/r/report_draft.txt"]) /\
  (unshared report_call ->
   inclusion demo_host report_call = given_inclusion report_call /\
   exclusion demo_host report_call = given_exclusion report_call /\
   fragments demo_host report_call = given report_call Exclude_subdirectory).
Proof.
  apply (@search_files_returns_exactly Re.fragment demo_host report_call
           ["/r/report_draft.txt"]).
  vm_compute. reflexivity.
Defined.

Lemma empty_sequence_directory_raises_witness :
  check_type_union empty_bytearray = true /\
  search_files Re.fragment demo_host
    (request empty_bytearray PyNone PyNone PyNone PyNone PyNone)
  = ([EvGetcwd],
     Err (TypeError "'str' object cannot be interpreted as an integer")).
Proof.
  split; [reflexivity|].
  apply (@empty_sequence_directory_raises Re.fragment demo_host
           (request empty_bytearray PyNone PyNone PyNone PyNone PyNone)
           eq_refl).
  reflexivity.
Defined.
